(** * Disaster relief backend: the matching engine and the keyword classifier

    A shallow embedding of [utils/disaster_utils.py]: the inventory matcher
    ([match_items], [calculate_match_score]), the hub finders
    ([find_nearby_hubs], [find_best_hub_for_request]) and the keyword rules
    ([classify_disaster_type], [assess_severity]).

    Conventions of the embedding.
    - A Python [dict] is a [gmap string _]; an inventory maps item names to
      integers ([Dict[str, int]]), a hub maps field names to [value]s.
    - A Python exception is the [Raise] branch of [result].
    - A Python [float] is an exact rational of [Q]: arithmetic is carried out
      without binary rounding error, [round(x, n)] is rounding to [n] decimals
      with ties to even.  Comparisons are the boolean ones of [Q].
    - [geopy.distance.geodesic] and [str.lower] are library functions; the
      development is parametric in them (Section variables).
    - The hub finders are embedded twice: on hub records as values
      ([Hubs]), and on hub records held in a store ([Store]), where copies
      and item assignments are explicit; the two are proved to agree.

    The definitions come first: the embedding, the vocabulary of the
    statements and the concrete inputs.  The facts follow, component by
    component, each with its main results. *)

From Stdlib Require Import ZArith QArith Qround Qabs Lqa Lia String Ascii List Bool.
From Stdlib Require Import Sorting.Sorted Sorting.Permutation.
From stdpp Require Import gmap strings list fin_maps sorting.

Open Scope Z_scope.

(** ** Exceptions *)

Inductive exn : Type :=
| ZeroDivisionError
| KeyError (key : string)
| TypeError.

Inductive result (A : Type) : Type :=
| Ok (a : A)
| Raise (e : exn).

Arguments Ok {A} a.
Arguments Raise {A} e.

#[global] Instance result_ret : MRet result := fun A a => Ok a.
#[global] Instance result_bind : MBind result := fun A B f r =>
  match r with
  | Ok a => f a
  | Raise e => Raise e
  end.

Definition raises {A} (r : result A) : Prop :=
  match r with Ok _ => False | Raise _ => True end.

#[global] Instance exn_eq_dec : EqDecision exn.
Proof. solve_decision. Defined.

#[global] Instance result_eq_dec {A} `{EqDecision A} : EqDecision (result A).
Proof. solve_decision. Defined.

#[global] Instance Q_eq_dec : EqDecision Q.
Proof. solve_decision. Defined.

(** Closed equations between results are settled by evaluation. *)
Ltac by_evaluation := apply (bool_decide_unpack _); vm_compute; exact I.

(** ** InventoryMatcher *)

Module Inventory.

(** [Dict[str, int]] *)
Abbreviation inventory := (gmap string Z).

(** [sum(d.values())] *)
Definition sum_values (d : inventory) : Z :=
  map_fold (fun _ quantity acc => quantity + acc) 0 d.

(** [match_items]: for every [(item, quantity)] of [requested], the entry
    [matched[item] = min(quantity, available[item])] is written when
    [item in available and available[item] > 0]. *)
Definition match_items (requested available : inventory) : inventory :=
  map_imap (fun item quantity =>
              match available !! item with
              | Some stock =>
                  if bool_decide (stock > 0) then Some (Z.min quantity stock)
                  else None
              | None => None
              end) requested.

(** [a / b] on two [int]s: true division, [ZeroDivisionError] on [b == 0]. *)
Definition int_truediv (a b : Z) : result Q :=
  if bool_decide (b = 0) then Raise ZeroDivisionError
  else Ok (inject_Z a / inject_Z b)%Q.

(** [calculate_match_score] *)
Definition calculate_match_score (requested available : inventory) : result Q :=
  if bool_decide (requested = ∅) then Ok 0%Q
  else
    let total_requested := sum_values requested in
    let matched := match_items requested available in
    let total_matched := sum_values matched in
    ratio ← int_truediv total_matched total_requested;
    Ok (ratio * 100)%Q.

(** Validated inventories: every quantity is a non-negative integer. *)
Definition nonneg (d : inventory) : Prop :=
  map_Forall (fun _ quantity => 0 <= quantity) d.

End Inventory.

Import Inventory.

(** ** Numbers

    [round(x, ndigits)] of a float: the nearest multiple of [10^-ndigits],
    ties to the even multiple. *)

Module Numbers.

Definition Qlt_bool (x y : Q) : bool := negb (Qle_bool y x).

Definition round_half_even (x : Q) : Z :=
  let f := Qfloor x in
  match (x - inject_Z f ?= 1 # 2)%Q with
  | Lt => f
  | Gt => f + 1
  | Eq => if Z.even f then f else f + 1
  end.

Definition pow10 (ndigits : nat) : Q := inject_Z (10 ^ Z.of_nat ndigits).

Definition py_round (x : Q) (ndigits : nat) : Q :=
  Qred (inject_Z (round_half_even (x * pow10 ndigits)) / pow10 ndigits).

(** [a / b] on floats, [ZeroDivisionError] on [b == 0]. *)
Definition float_truediv (a b : Q) : result Q :=
  if Qeq_bool b 0 then Raise ZeroDivisionError else Ok (a / b)%Q.

End Numbers.

Import Numbers.

(** ** Hub records

    A hub is the dict built by [Hub.to_dict()]: the fields [id], [name],
    [location_name], [latitude], [longitude], [inventory], [contact],
    [created_at].  The functions below read [latitude], [longitude] and
    [inventory] and carry every other field through.  The inventory dict is
    only ever read ([match_items] iterates [requested] and indexes
    [available]), so it is kept as a value of the hub. *)

Module Hubs.

Inductive value : Type :=
| VNone
| VInt (n : Z)
| VFloat (x : Q)
| VStr (s : string)
| VDict (d : inventory).

#[global] Instance value_eq_dec : EqDecision value.
Proof. solve_decision. Defined.

Abbreviation hub := (gmap string value).

(** [d[key]] *)
Definition getitem (d : hub) (key : string) : result value :=
  match d !! key with
  | Some v => Ok v
  | None => Raise (KeyError key)
  end.

(** A number where a float is expected ([TypeError] on anything else). *)
Definition as_float (v : value) : result Q :=
  match v with
  | VFloat x => Ok x
  | VInt n => Ok (inject_Z n)
  | _ => Raise TypeError
  end.

(** [hub.get('inventory', {})], used as the [available] dict.  A validated
    hub holds a dict there; on any other value the model raises [TypeError]
    at once, where Python raises on the first use of the value as a dict. *)
Definition get_inventory (d : hub) : result inventory :=
  match d !! "inventory" with
  | None => Ok ∅
  | Some (VDict inv) => Ok inv
  | Some _ => Raise TypeError
  end.

(** *** [list.sort(key=..., reverse=...)]

    The keys are computed once per element, then the list is sorted stably
    with [<] on the keys; with [reverse=True] the list is reversed before and
    after the stable sort.  A stable sort has one possible outcome, which the
    insertion sort below computes. *)

Section Sort.

Context {A : Type}.

Fixpoint insert_by_key (x : Q * A) (l : list (Q * A)) : list (Q * A) :=
  match l with
  | [] => [x]
  | y :: l' =>
      if Qlt_bool (fst y) (fst x) then y :: insert_by_key x l'
      else x :: y :: l'
  end.

Fixpoint stable_sort (l : list (Q * A)) : list (Q * A) :=
  match l with
  | [] => []
  | x :: l' => insert_by_key x (stable_sort l')
  end.

Fixpoint with_keys (key : A -> result Q) (l : list A) : result (list (Q * A)) :=
  match l with
  | [] => Ok []
  | x :: l' =>
      k ← key x;
      keyed ← with_keys key l';
      Ok ((k, x) :: keyed)
  end.

Definition list_sort (key : A -> result Q) (reverse : bool) (l : list A)
  : result (list A) :=
  keyed ← with_keys key l;
  Ok (map snd (if reverse then rev (stable_sort (rev keyed))
               else stable_sort keyed)).

End Sort.

(** [lambda x: x[field]] as a sort key. *)
Definition field_key (field : string) (d : hub) : result Q :=
  v ← getitem d field; as_float v.

Section Finders.

(** [geopy.distance.geodesic(coord1, coord2).kilometers] *)
Variable geodesic_km : Q * Q -> Q * Q -> Q.

(** [calculate_distance]; [coord2] is read from a hub record. *)
Definition calculate_distance (coord1 : Q * Q) (coord2 : value * value)
  : result Q :=
  lat ← as_float (fst coord2);
  lon ← as_float (snd coord2);
  Ok (geodesic_km coord1 (lat, lon)).

(** The first two statements of both loops. *)
Definition hub_distance (location : Q * Q) (h : hub) : result Q :=
  lat ← getitem h "latitude";
  lon ← getitem h "longitude";
  calculate_distance location (lat, lon).

(** The loop of [find_nearby_hubs]; [nearby] is the list built so far. *)
Fixpoint nearby_loop (location : Q * Q) (max_distance_km : Q)
    (hubs nearby : list hub) : result (list hub) :=
  match hubs with
  | [] => Ok nearby
  | h :: rest =>
      distance ← hub_distance location h;
      if Qle_bool distance max_distance_km then
        let hub_with_distance :=
          <["distance_km" := VFloat (py_round distance 2)]> h in
        nearby_loop location max_distance_km rest (nearby ++ [hub_with_distance])
      else nearby_loop location max_distance_km rest nearby
  end.

Definition find_nearby_hubs (location : Q * Q) (hubs : list hub)
    (max_distance_km : Q) : result (list hub) :=
  nearby ← nearby_loop location max_distance_km hubs [];
  list_sort (field_key "distance_km") false nearby.

(** The dict literal [{**hub, 'distance_km': ..., 'match_score': ...,
    'combined_score': ...}]. *)
Definition scored (h : hub) (distance match_score combined_score : Q) : hub :=
  <["combined_score" := VFloat (py_round combined_score 1)]>
    (<["match_score" := VFloat (py_round match_score 1)]>
       (<["distance_km" := VFloat (py_round distance 2)]> h)).

Definition combine (match_score distance_score : Q) : Q :=
  (match_score * (7 # 10) + distance_score * (3 # 10))%Q.

(** The loop of [find_best_hub_for_request]. *)
Fixpoint scoring_loop (victim_location : Q * Q) (requested_items : inventory)
    (hubs scored_hubs : list hub) : result (list hub) :=
  match hubs with
  | [] => Ok scored_hubs
  | h :: rest =>
      distance ← hub_distance victim_location h;
      if Qlt_bool 100 distance then
        scoring_loop victim_location requested_items rest scored_hubs
      else
        available ← get_inventory h;
        match_score ← calculate_match_score requested_items available;
        if Qeq_bool match_score 0 then
          scoring_loop victim_location requested_items rest scored_hubs
        else
          distance_score ← float_truediv 100 (1 + distance);
          let combined_score := combine match_score distance_score in
          scoring_loop victim_location requested_items rest
            (scored_hubs ++ [scored h distance match_score combined_score])
  end.

Definition find_best_hub_for_request (victim_location : Q * Q)
    (requested_items : inventory) (hubs : list hub) : result (option hub) :=
  scored_hubs ← scoring_loop victim_location requested_items hubs [];
  sorted ← list_sort (field_key "combined_score") true scored_hubs;
  Ok (head sorted).

End Finders.

End Hubs.

Import Hubs.

(** ** Hub records in a store

    The same two functions with the hub dicts held in a store, to follow
    which objects are written.  An address is an index of the store;
    [hub.copy()] and a dict literal allocate a new object, an item assignment
    overwrites the object at its address.  The lists [nearby] and
    [scored_hubs] are local to a call and hold addresses. *)

Module Store.

Abbreviation addr := nat.
Abbreviation store := (list hub).

Definition st (A : Type) : Type := store -> result A * store.

#[global] Instance st_ret : MRet st := fun A a s => (Ok a, s).
#[global] Instance st_bind : MBind st := fun A B f m s =>
  match m s with
  | (Ok a, s') => f a s'
  | (Raise e, s') => (Raise e, s')
  end.

Definition lift {A} (r : result A) : st A := fun s => (r, s).

(** Reading the object at an address (an address outside the store does not
    arise from a Python reference; the model raises there). *)
Definition load (a : addr) : st hub := fun s =>
  match s !! a with
  | Some d => (Ok d, s)
  | None => (Raise TypeError, s)
  end.

(** A new object. *)
Definition alloc (d : hub) : st addr := fun s => (Ok (length s), s ++ [d]).

(** [obj[key] = v] *)
Definition setitem (a : addr) (key : string) (v : value) : st unit := fun s =>
  match s !! a with
  | Some d => (Ok tt, <[a := <[key := v]> d]> s)
  | None => (Raise TypeError, s)
  end.

(** [obj.copy()]: a new dict with the same items. *)
Definition dict_copy (a : addr) : st addr :=
  d ← load a; alloc d.

Fixpoint with_keys (key : hub -> result Q) (l : list addr)
  : st (list (Q * addr)) :=
  match l with
  | [] => mret []
  | a :: l' =>
      d ← load a;
      k ← lift (key d);
      keyed ← with_keys key l';
      mret ((k, a) :: keyed)
  end.

Definition list_sort (key : hub -> result Q) (reverse : bool) (l : list addr)
  : st (list addr) :=
  keyed ← with_keys key l;
  mret (map snd (if reverse then rev (stable_sort (rev keyed))
                 else stable_sort keyed)).

Section Finders.

Variable geodesic_km : Q * Q -> Q * Q -> Q.

Fixpoint nearby_loop (location : Q * Q) (max_distance_km : Q)
    (hubs nearby : list addr) : st (list addr) :=
  match hubs with
  | [] => mret nearby
  | hub :: rest =>
      h ← load hub;
      distance ← lift (hub_distance geodesic_km location h);
      if Qle_bool distance max_distance_km then
        hub_with_distance ← dict_copy hub;
        _ ← setitem hub_with_distance "distance_km"
              (VFloat (py_round distance 2));
        nearby_loop location max_distance_km rest (nearby ++ [hub_with_distance])
      else nearby_loop location max_distance_km rest nearby
  end.

Definition find_nearby_hubs (location : Q * Q) (hubs : list addr)
    (max_distance_km : Q) : st (list addr) :=
  nearby ← nearby_loop location max_distance_km hubs [];
  list_sort (field_key "distance_km") false nearby.

Fixpoint scoring_loop (victim_location : Q * Q) (requested_items : inventory)
    (hubs scored_hubs : list addr) : st (list addr) :=
  match hubs with
  | [] => mret scored_hubs
  | hub :: rest =>
      h ← load hub;
      distance ← lift (hub_distance geodesic_km victim_location h);
      if Qlt_bool 100 distance then
        scoring_loop victim_location requested_items rest scored_hubs
      else
        available ← lift (get_inventory h);
        match_score ← lift (calculate_match_score requested_items available);
        if Qeq_bool match_score 0 then
          scoring_loop victim_location requested_items rest scored_hubs
        else
          distance_score ← lift (float_truediv 100 (1 + distance));
          let combined_score := combine match_score distance_score in
          entry ← alloc (scored h distance match_score combined_score);
          scoring_loop victim_location requested_items rest
            (scored_hubs ++ [entry])
  end.

Definition find_best_hub_for_request (victim_location : Q * Q)
    (requested_items : inventory) (hubs : list addr) : st (option addr) :=
  scored_hubs ← scoring_loop victim_location requested_items hubs [];
  sorted ← list_sort (field_key "combined_score") true scored_hubs;
  mret (head sorted).

End Finders.

(** The objects a list of addresses refers to. *)
Definition refers (s : store) (l : list addr) (ds : list hub) : Prop :=
  Forall2 (fun a d => s !! a = Some d) l ds.

End Store.

(** ** DisasterClassifier *)

Module Text.

(** [needle in hay] on strings. *)
Fixpoint contains (needle hay : string) : bool :=
  match hay with
  | EmptyString => String.prefix needle EmptyString
  | String _ hay' => String.prefix needle hay || contains needle hay'
  end.

(** [any(word in text for word in words)] *)
Definition any_in (words : list string) (text : string) : bool :=
  existsb (fun word => contains word text) words.

(** The dict literal [keywords], in insertion order. *)
Definition keywords : list (string * list string) :=
  [ ("earthquake", ["earthquake"; "tremor"; "seismic"; "quake"]);
    ("flood", ["flood"; "flooding"; "inundation"; "deluge"]);
    ("hurricane", ["hurricane"; "cyclone"; "typhoon"; "storm"]);
    ("wildfire", ["wildfire"; "fire"; "blaze"; "burning"]);
    ("tornado", ["tornado"; "twister"]);
    ("tsunami", ["tsunami"; "tidal wave"]);
    ("landslide", ["landslide"; "mudslide"]);
    ("volcano", ["volcano"; "volcanic"; "eruption"]);
    ("drought", ["drought"; "dry"; "water shortage"]);
    ("blizzard", ["blizzard"; "snowstorm"; "winter storm"]) ]%string.

(** [for disaster_type, words in keywords.items(): ...] followed by
    [return 'unknown']. *)
Fixpoint classify_loop (table : list (string * list string))
    (tweet_lower : string) : string :=
  match table with
  | [] => "unknown"
  | (disaster_type, words) :: rest =>
      if any_in words tweet_lower then disaster_type
      else classify_loop rest tweet_lower
  end.

Definition critical_keywords : list string :=
  ["death"; "dead"; "killed"; "catastrophic"; "devastating";
   "destroyed"; "massive"; "severe"; "emergency"]%string.
Definition high_keywords : list string :=
  ["major"; "serious"; "significant"; "heavy"; "damage"]%string.
Definition medium_keywords : list string :=
  ["moderate"; "warning"; "alert"]%string.

Section Classifier.

(** [str.lower] *)
Variable lower : string -> string.

Definition classify_disaster_type (tweet_text : string) : string :=
  let tweet_lower := lower tweet_text in
  classify_loop keywords tweet_lower.

Definition assess_severity (tweet_text : string) : string :=
  let tweet_lower := lower tweet_text in
  if any_in critical_keywords tweet_lower then "critical"
  else if any_in high_keywords tweet_lower then "high"
  else if any_in medium_keywords tweet_lower then "medium"
  else "low".

End Classifier.

(** [str.lower] on texts of ASCII characters. *)
Definition lower_char (c : ascii) : ascii :=
  let n := nat_of_ascii c in
  if (65 <=? n)%nat && (n <=? 90)%nat then ascii_of_nat (n + 32) else c.

Fixpoint ascii_lower (s : string) : string :=
  match s with
  | EmptyString => EmptyString
  | String c s' => String (lower_char c) (ascii_lower s')
  end.

End Text.

Import Text.

(** ** A distance to evaluate examples with

    The geodesic itself is computed by geopy, and every general statement
    below holds for any distance function.  Concrete examples use the
    following stand-in, with hubs at the victim's location or on the
    equator: it is 0 on coincident points, and along the equator it is the
    WGS-84 arc length (111.31949079 km per degree of longitude). *)

Definition degree_km : Q := 11131949079 # 100000000.

Definition grid_km (a b : Q * Q) : Q :=
  (degree_km * (Qabs (fst a - fst b) + Qabs (snd a - snd b)))%Q.

(** ** Vocabulary of the statements *)

Section SortVocabulary.

Context {A : Type}.

Definition key_le (x y : Q * A) : Prop := (fst x <= fst y)%Q.
Definition same_key (k : Q) (x : Q * A) : bool := Qeq_bool (fst x) k.

Variable kf : A -> Q.

Definition keyed (l : list A) : list (Q * A) := map (fun a => (kf a, a)) l.

(** What [list.sort(key=kf, reverse=...)] leaves in the list. *)
Definition sorted_by (reverse : bool) (l : list A) : list A :=
  map snd (if reverse then rev (stable_sort (rev (keyed l)))
           else stable_sort (keyed l)).

Definition well_keyed (p : Q * A) : Prop := fst p = kf (snd p).

End SortVocabulary.

(** A numeric field of an output record, as the sort key reads it. *)
Definition float_field (field : string) (d : hub) : Q :=
  match d !! field with
  | Some (VFloat x) => x
  | Some (VInt n) => inject_Z n
  | _ => 0%Q
  end.

Section FinderVocabulary.

Variable geodesic_km : Q * Q -> Q * Q -> Q.

(** The distance of a hub whose coordinates can be read. *)
Definition distance_of (location : Q * Q) (h : hub) : Q :=
  match hub_distance geodesic_km location h with
  | Ok d => d
  | Raise _ => 0%Q
  end.

Definition has_coordinates (location : Q * Q) (h : hub) : Prop :=
  exists d, hub_distance geodesic_km location h = Ok d.

Definition within (location : Q * Q) (max_distance_km : Q) (h : hub) : bool :=
  Qle_bool (distance_of location h) max_distance_km.

(** The copy of a hub with [distance_km] attached. *)
Definition with_distance (location : Q * Q) (h : hub) : hub :=
  <["distance_km" := VFloat (py_round (distance_of location h) 2)]> h.

Definition in_range (location : Q * Q) (max_distance_km : Q)
    (hubs : list hub) : list hub :=
  map (with_distance location) (List.filter (within location max_distance_km) hubs).

Section ScoringVocabulary.

Variable victim_location : Q * Q.
Variable requested_items : inventory.

(** A hub the loop skips: too far, or nothing of the request in stock. *)
Definition excluded (h : hub) : Prop :=
  exists d, hub_distance geodesic_km victim_location h = Ok d /\
    ((100 < d)%Q \/
     exists available m,
       get_inventory h = Ok available /\
       calculate_match_score requested_items available = Ok m /\ (m == 0)%Q).

(** A hub the loop keeps, with the values of the locals [distance],
    [match_score] and [combined_score] of its iteration. *)
Definition kept (h : hub) (distance match_score combined_score : Q) : Prop :=
  exists available distance_score,
    hub_distance geodesic_km victim_location h = Ok distance /\
    (distance <= 100)%Q /\
    get_inventory h = Ok available /\
    calculate_match_score requested_items available = Ok match_score /\
    ~ (match_score == 0)%Q /\
    float_truediv 100 (1 + distance) = Ok distance_score /\
    combined_score = combine match_score distance_score.

(** [entry] is what the loop appends for the hub [h]. *)
Definition survivor (h entry : hub) : Prop :=
  exists distance match_score combined_score,
    kept h distance match_score combined_score /\
    entry = scored h distance match_score combined_score.

(** [scored_hubs] after the loop over [hubs]. *)
Inductive Scored : list hub -> list hub -> Prop :=
| Scored_nil : Scored [] []
| Scored_skip h hubs entries :
    excluded h -> Scored hubs entries -> Scored (h :: hubs) entries
| Scored_keep h entry hubs entries :
    survivor h entry -> Scored hubs entries ->
    Scored (h :: hubs) (entry :: entries).

End ScoringVocabulary.

End FinderVocabulary.

(** [safe n m post]: run from a store of at least [n] objects, [m] only adds
    objects to the store, and a value it returns satisfies [post]. *)
Definition safe {A : Type} (n : nat) (m : Store.st A) (post : A -> Prop) : Prop :=
  forall s : Store.store,
    (n <= length s)%nat ->
    (exists new, snd (m s) = s ++ new)
    /\ (forall a, fst (m s) = Ok a -> post a).

(** Two keyed lists with equal keys and related elements. *)
Definition key_rel {A B : Type} (R : A -> B -> Prop)
    (p : Q * A) (q : Q * B) : Prop :=
  fst p = fst q /\ R (snd p) (snd q).

(** No keyword of a table entry is in the text. *)
Definition no_match (text : string) (entry : string * list string) : Prop :=
  any_in (snd entry) text = false.

(** ** Concrete inputs *)

Definition make_hub (id : Z) (latitude longitude : Q) (stock : inventory) : hub :=
  <["id" := VInt id]>
    (<["latitude" := VFloat latitude]>
       (<["longitude" := VFloat longitude]>
          (<["inventory" := VDict stock]> ∅))).

Definition origin : Q * Q := (0, 0)%Q.

(** Two hubs at the victim's location, stocking 1000 and 1001 units. *)
Definition hub_a : hub := make_hub 1 0 0 {["water" := 1000]}.
Definition hub_b : hub := make_hub 2 0 0 {["water" := 1001]}.
Definition request_water : inventory := {["water" := 2000]}.

(** A hub on the equator, 0.44914 degrees east: 49.998 km away. *)
Definition hub_east : hub := make_hub 3 0 (44914 # 100000) {["water" := 10]}.

(** A request whose only quantity is zero. *)
Definition request_zero : inventory := {["water" := 0]}.

(** The record returned for [hub_a] on the request for 2000 units. *)
Definition best_of_a_b : hub := scored hub_a 0 50 65.

(** A hub on the equator at exactly 100 km. *)
Definition hub_at_100_km : hub :=
  make_hub 7 0 (100 / degree_km) {["water" := 1000]}.

(** A hub at the victim's location that stocks 4 units. *)
Definition hub_few : hub := make_hub 8 0 0 {["water" := 4]}.

(** A store that holds two hubs. *)
Definition two_hubs : Store.store := [hub_east; hub_a].

(** The text of scenario 6. *)
Definition tweet_quake : string :=
  "Massive earthquake destroys city, several killed".

(** ** More vocabulary: what one requested item contributes to a match *)

(** The quantity [match_items] writes for [item], 0 when it writes none. *)
Definition matched_quantity (available : inventory) (item : string)
    (quantity : Z) : Z :=
  match available !! item with
  | Some stock => if bool_decide (stock > 0) then Z.min quantity stock else 0
  | None => 0
  end.

(** [available'] stocks at least what [available] stocks. *)
Definition stocks_at_least (available available' : inventory) : Prop :=
  forall item stock,
    available !! item = Some stock ->
    exists stock', available' !! item = Some stock' /\ stock <= stock'.

(** Every requested item is in stock in the quantity requested. *)
Definition fully_covered (requested available : inventory) : Prop :=
  forall item quantity,
    requested !! item = Some quantity -> 0 < quantity ->
    exists stock, available !! item = Some stock /\ quantity <= stock.

(** No requested item is in stock. *)
Definition nothing_in_stock (requested available : inventory) : Prop :=
  forall item quantity stock,
    requested !! item = Some quantity -> available !! item = Some stock ->
    stock > 0 -> quantity = 0.

(** A hub whose coordinates can be read and whose [inventory], if any, is a
    dict: what [Hub.to_dict] produces. *)
Definition well_formed_hub (geodesic_km : Q * Q -> Q * Q -> Q)
    (location : Q * Q) (h : hub) : Prop :=
  has_coordinates geodesic_km location h
  /\ exists available, get_inventory h = Ok available.

(** The test [distance > 100] of the scoring loop fails for the hub. *)
Definition within_reach (geodesic_km : Q * Q -> Q * Q -> Q)
    (victim_location : Q * Q) (h : hub) : bool :=
  negb (Qlt_bool 100 (distance_of geodesic_km victim_location h)).

(** ** More vocabulary for the classifier *)

(** The table without the keywords that contain another keyword of their
    own category or, for the blizzard category, a keyword of the hurricane
    category, which is checked before. *)
Definition essential_keywords : list (string * list string) :=
  [ ("earthquake", ["tremor"; "seismic"; "quake"]);
    ("flood", ["flood"; "inundation"; "deluge"]);
    ("hurricane", ["hurricane"; "cyclone"; "typhoon"; "storm"]);
    ("wildfire", ["fire"; "blaze"; "burning"]);
    ("tornado", ["tornado"; "twister"]);
    ("tsunami", ["tsunami"; "tidal wave"]);
    ("landslide", ["landslide"; "mudslide"]);
    ("volcano", ["volcano"; "volcanic"; "eruption"]);
    ("drought", ["drought"; "dry"; "water shortage"]);
    ("blizzard", ["blizzard"]) ]%string.

(** The position of the first entry of a table with a keyword in the text;
    the length of the table when there is none. *)
Fixpoint first_match_index (table : list (string * list string))
    (text : string) : nat :=
  match table with
  | [] => 0%nat
  | (_, words) :: rest =>
      if any_in words text then 0%nat else S (first_match_index rest text)
  end.

(** The severity tiers, from the lowest. *)
Definition severity_rank (severity : string) : nat :=
  if String.eqb severity "critical" then 3%nat
  else if String.eqb severity "high" then 2%nat
  else if String.eqb severity "medium" then 1%nat
  else 0%nat.

(** [models.py]: [disaster_type = Column(String(100))],
    [severity = Column(String(20))]. *)
Definition disaster_type_column_length : nat := 100.
Definition severity_column_length : nat := 20.

(** ** Location extraction

    [nlp(tweet_text).ents] is the list of entities the spaCy model finds,
    each with its [text] and [label_]; the model is a parameter. *)

Module Extraction.

(** [ent.label_ in ["LOC", "GPE"]] *)
Definition is_location_label (label : string) : bool :=
  existsb (String.eqb label) ["LOC"; "GPE"]%string.

Section Extraction.

Variable nlp : string -> result (list (string * string)).

(** [extract_location_from_tweet] *)
Definition extract_location_from_tweet (tweet_text : string)
  : result (option string) :=
  ents ← nlp tweet_text;
  let locations :=
    map fst (List.filter (fun ent => is_location_label (snd ent)) ents) in
  Ok (head locations).

(** [geolocator.geocode(location_name, timeout=10)]: a location with its
    [latitude] and [longitude], [None], or an exception.  The callers pass
    what [data.get('location_name')] gives, which may be [None]. *)
Variable geocode : option string -> result (option (Q * Q)).

(** [geocode_location]: the exception is printed and [None] is returned. *)
Definition geocode_location (location_name : option string) : option (Q * Q) :=
  match geocode location_name with
  | Ok (Some location) => Some (fst location, snd location)
  | Ok None => None
  | Raise _ => None
  end.

End Extraction.

End Extraction.

Import Extraction.

(** An entity that [extract_location_from_tweet] passes over. *)
Definition not_a_location (ent : string * string) : Prop :=
  is_location_label (snd ent) = false.

(** Entities as a model could list them for a tweet. *)
Definition sample_nlp (tweet_text : string) : result (list (string * string)) :=
  Ok [("Red Cross", "ORG"); ("Tokyo", "GPE"); ("Japan", "GPE")]%string.

(** ** The callers: the hub table of [models.py] and two handlers of [app.py]

    The database session, like the model and the geocoder, is a parameter,
    one operation per statement that can fail on its own: [query_hubs] is
    [db.query(Hub).all()] (after [get_db()] in [predict_location]);
    [commit_event] and [commit_request] are [db.add(row); db.commit()],
    which give the new state of the database or raise and store nothing;
    [refresh_event] is [db.refresh(disaster_event)] with the read of
    [disaster_event.id], [refresh_request] is [db.refresh(victim_request)],
    giving the row as stored; [close_session] is [db.close()].  What was
    committed stays: [predict_location] has no rollback, and the
    [db.rollback()] of [manage_victim_requests] undoes nothing after a
    commit.  The [db.close()] of the [finally] clause of
    [manage_victim_requests] is left out.  A request body is a
    record of the members the handler reads, with the types of the API
    ([tweet] and the names are strings, the coordinates numbers,
    [requested_items] a dict of integers) and [None] for a member that is
    absent, so that [data.get(k, d)] is [default d].  A response is the
    tuple of [jsonify(...)] and the status code, as a constructor per shape
    of the body. *)

Module App.

(** A row of the table [hubs]; [latitude] and [longitude] are not nullable,
    the timestamp is kept as its ISO text. *)
Record hub_row : Type := {
  hub_id : Z;
  hub_name : string;
  hub_location_name : string;
  hub_latitude : Q;
  hub_longitude : Q;
  hub_inventory : option inventory;
  hub_contact : option string;
  hub_created_at : option string
}.

(** A string or [None] as a field of a dict. *)
Definition optional (o : option string) : value :=
  match o with
  | Some s => VStr s
  | None => VNone
  end.

(** [Hub.to_dict]; [self.inventory or {}] is [{}] for [NULL]. *)
Definition hub_to_dict (r : hub_row) : hub :=
  <["id" := VInt (hub_id r)]>
    (<["name" := VStr (hub_name r)]>
       (<["location_name" := VStr (hub_location_name r)]>
          (<["latitude" := VFloat (hub_latitude r)]>
             (<["longitude" := VFloat (hub_longitude r)]>
                (<["inventory" := VDict (default ∅ (hub_inventory r))]>
                   (<["contact" := optional (hub_contact r)]>
                      (<["created_at" := optional (hub_created_at r)]> ∅))))))).

(** The arguments of [DisasterEvent(...)] in [predict_location]. *)
Record event_args : Type := {
  ev_tweet_text : string;
  ev_detected_location : string;
  ev_latitude : Q;
  ev_longitude : Q;
  ev_disaster_type : string;
  ev_severity : string;
  ev_nearby_hubs_count : nat
}.

(** The arguments of [VictimRequest(...)] in [manage_victim_requests]. *)
Record request_args : Type := {
  ra_victim_name : option string;
  ra_victim_phone : string;
  ra_location_name : option string;
  ra_latitude : option Q;
  ra_longitude : option Q;
  ra_requested_items : inventory;
  ra_urgency : string;
  ra_notes : string
}.

(** The body of a POST to [/api/victim-requests]. *)
Record victim_post : Type := {
  vp_victim_name : option string;
  vp_victim_phone : option string;
  vp_location_name : option string;
  vp_latitude : option Q;
  vp_longitude : option Q;
  vp_requested_items : option inventory;
  vp_urgency : option string;
  vp_notes : option string
}.

(** The responses of [predict_location]. *)
Inductive predict_response : Type :=
| TweetRequired
| NoLocation (tweet : string)
| NotGeocoded (detected_location tweet : string)
| Predicted (detected_location : string) (latitude longitude : Q)
    (disaster_type severity : string) (nearby_hubs : list hub)
    (tweet : string) (event_id : Z)
| PredictFailed (e : exn).

Definition predict_status (r : predict_response) : Z :=
  match r with
  | TweetRequired => 400
  | NoLocation _ | NotGeocoded _ _ | Predicted _ _ _ _ _ _ _ _ => 200
  | PredictFailed _ => 500
  end.

(** [not x] for a number or [None]: true for [None], [0] and [0.0]. *)
Definition falsy (x : option Q) : bool :=
  match x with
  | None => true
  | Some q => Qeq_bool q 0
  end.

(** [not s] for a string or [None]. *)
Definition falsy_text (s : option string) : bool :=
  match s with
  | None => true
  | Some s' => String.eqb s' ""
  end.

Section Handlers.

Variable DB : Type.
Variable row : Type.
Variable query_hubs : DB -> result (list hub_row).
Variable commit_event : DB -> event_args -> result DB.
Variable refresh_event : DB -> event_args -> result Z.
Variable close_session : DB -> result unit.
Variable commit_request : DB -> request_args -> result DB.
Variable refresh_request : DB -> request_args -> result row.
Variable nlp : string -> result (list (string * string)).
Variable geocode : option string -> result (option (Q * Q)).
Variable geodesic_km : Q * Q -> Q * Q -> Q.
Variable lower : string -> string.

(** [predict_location]; [tweet] is [data.get('tweet', '')].  An exception
    anywhere in the body gives the response 500, also after the commit:
    the event is then stored all the same. *)
Definition predict_location (tweet : option string) (db : DB)
  : predict_response * DB :=
  if falsy_text tweet then (TweetRequired, db)
  else
    let tweet := default EmptyString tweet in
    match extract_location_from_tweet nlp tweet with
    | Raise e => (PredictFailed e, db)
    | Ok location =>
        if falsy_text location then (NoLocation tweet, db)
        else
          let location := default EmptyString location in
          match geocode_location geocode (Some location) with
          | None => (NotGeocoded location tweet, db)
          | Some (latitude, longitude) =>
              match query_hubs db with
              | Raise e => (PredictFailed e, db)
              | Ok all_hubs =>
                  let hubs_list := map hub_to_dict all_hubs in
                  match find_nearby_hubs geodesic_km (latitude, longitude)
                          hubs_list 100 with
                  | Raise e => (PredictFailed e, db)
                  | Ok nearby_hubs =>
                      let disaster_type := classify_disaster_type lower tweet in
                      let severity := assess_severity lower tweet in
                      let disaster_event :=
                        {| ev_tweet_text := tweet;
                           ev_detected_location := location;
                           ev_latitude := latitude;
                           ev_longitude := longitude;
                           ev_disaster_type := disaster_type;
                           ev_severity := severity;
                           ev_nearby_hubs_count := length nearby_hubs |} in
                      match commit_event db disaster_event with
                      | Raise e => (PredictFailed e, db)
                      | Ok db' =>
                          match refresh_event db' disaster_event with
                          | Raise e => (PredictFailed e, db')
                          | Ok event_id =>
                              match close_session db' with
                              | Raise e => (PredictFailed e, db')
                              | Ok _ =>
                                  (Predicted location latitude longitude
                                     disaster_type severity nearby_hubs tweet
                                     event_id, db')
                              end
                          end
                      end
                  end
              end
          end
    end.

(** The responses of the POST branch of [manage_victim_requests]. *)
Inductive victim_response : Type :=
| Created (request : row) (matched_hub : option hub)
| VictimFailed (e : exn).

Definition victim_status (r : victim_response) : Z :=
  match r with
  | Created _ _ => 201
  | VictimFailed _ => 500
  end.

(** The coordinates after the geocoding step. *)
Definition resolve_coordinates (data : victim_post) : option Q * option Q :=
  let latitude := vp_latitude data in
  let longitude := vp_longitude data in
  if falsy latitude || falsy longitude then
    match geocode_location geocode (vp_location_name data) with
    | Some (lat, lon) => (Some lat, Some lon)
    | None => (latitude, longitude)
    end
  else (latitude, longitude).

(** [float(x) if x else None] *)
Definition float_or_none (x : option Q) : option Q :=
  if falsy x then None else x.

(** [VictimRequest(...)] as the handler builds it. *)
Definition victim_request_of (data : victim_post) : request_args :=
  let '(latitude, longitude) := resolve_coordinates data in
  {| ra_victim_name := vp_victim_name data;
     ra_victim_phone := default EmptyString (vp_victim_phone data);
     ra_location_name := vp_location_name data;
     ra_latitude := float_or_none latitude;
     ra_longitude := float_or_none longitude;
     ra_requested_items := default ∅ (vp_requested_items data);
     ra_urgency := default "medium" (vp_urgency data);
     ra_notes := default EmptyString (vp_notes data) |}.

(** The POST branch of [manage_victim_requests].  The request is committed
    before it is refreshed and before the hubs are read; [db.rollback()]
    after an exception undoes nothing that was committed. *)
Definition manage_victim_requests_post (data : victim_post) (db : DB)
  : victim_response * DB :=
  let '(latitude, longitude) := resolve_coordinates data in
  let victim_request := victim_request_of data in
  match commit_request db victim_request with
  | Raise e => (VictimFailed e, db)
  | Ok db' =>
      match refresh_request db' victim_request with
      | Raise e => (VictimFailed e, db')
      | Ok stored =>
          if negb (falsy latitude) && negb (falsy longitude) then
            match latitude, longitude with
            | Some lat, Some lon =>
                match query_hubs db' with
                | Raise e => (VictimFailed e, db')
                | Ok all_hubs =>
                    let hubs_list := map hub_to_dict all_hubs in
                    match find_best_hub_for_request geodesic_km (lat, lon)
                            (default ∅ (vp_requested_items data)) hubs_list with
                    | Raise e => (VictimFailed e, db')
                    | Ok best_hub => (Created stored best_hub, db')
                    end
                end
            | _, _ => (Created stored None, db')
            end
          else (Created stored None, db')
      end
  end.

End Handlers.

Arguments Created {row} request matched_hub.
Arguments VictimFailed {row} e.

(** *** A database in memory, to evaluate examples with *)

Record memory_db : Type := {
  db_hubs : list hub_row;
  db_events : list event_args;
  db_requests : list request_args
}.

Definition memory_query_hubs (db : memory_db) : result (list hub_row) :=
  Ok (db_hubs db).

Definition memory_commit_event (db : memory_db) (e : event_args)
  : result memory_db :=
  Ok {| db_hubs := db_hubs db;
        db_events := db_events db ++ [e];
        db_requests := db_requests db |}.

(** The [id] of the event added last. *)
Definition memory_refresh_event (db : memory_db) (e : event_args) : result Z :=
  Ok (Z.of_nat (length (db_events db))).

Definition memory_close_session (db : memory_db) : result unit := Ok tt.

Definition memory_commit_request (db : memory_db) (r : request_args)
  : result memory_db :=
  Ok {| db_hubs := db_hubs db;
        db_events := db_events db;
        db_requests := db_requests db ++ [r] |}.

Definition memory_refresh_request (db : memory_db) (r : request_args)
  : result request_args :=
  Ok r.

#[global] Instance hub_row_eq_dec : EqDecision hub_row.
Proof. solve_decision. Defined.

#[global] Instance event_args_eq_dec : EqDecision event_args.
Proof. solve_decision. Defined.

#[global] Instance request_args_eq_dec : EqDecision request_args.
Proof. solve_decision. Defined.

#[global] Instance predict_response_eq_dec : EqDecision predict_response.
Proof. solve_decision. Defined.

#[global] Instance victim_response_eq_dec {row} `{EqDecision row} :
  EqDecision (victim_response row).
Proof. solve_decision. Defined.

#[global] Instance memory_db_eq_dec : EqDecision memory_db.
Proof. solve_decision. Defined.

End App.

Import App.

(** The distance of a row of the hub table from a point. *)
Definition row_distance (geodesic_km : Q * Q -> Q * Q -> Q) (location : Q * Q)
    (r : hub_row) : Q :=
  geodesic_km location (hub_latitude r, hub_longitude r).

Definition row_within (geodesic_km : Q * Q -> Q * Q -> Q) (location : Q * Q)
    (max_distance_km : Q) (r : hub_row) : bool :=
  Qle_bool (row_distance geodesic_km location r) max_distance_km.

(** A latitude that [geodesic] accepts: it raises [ValueError] for a
    latitude outside [-90, 90], while a longitude is taken modulo 360.
    [geodesic_km] stands for it on such points. *)
Definition valid_latitude (latitude : Q) : Prop :=
  (-90 <= latitude <= 90)%Q.

(** Rows and bodies for the examples. *)
Definition row_a : hub_row :=
  {| hub_id := 1; hub_name := "Depot A"; hub_location_name := "Quito";
     hub_latitude := 0; hub_longitude := 0;
     hub_inventory := Some {["water" := 1000]};
     hub_contact := None; hub_created_at := None |}.

Definition row_far : hub_row :=
  {| hub_id := 2; hub_name := "Depot B"; hub_location_name := "Macapa";
     hub_latitude := 0; hub_longitude := 27;
     hub_inventory := None;
     hub_contact := Some "depot-b"; hub_created_at := None |}.

Definition sample_db : memory_db :=
  {| db_hubs := [row_far; row_a]; db_events := []; db_requests := [] |}.

(** A geocoder that knows one place, on the equator. *)
Definition sample_geocode (name : option string) : result (option (Q * Q)) :=
  match name with
  | Some "Tokyo" => Ok (Some (0, 1 # 10)%Q)
  | Some _ => Ok None
  | None => Raise TypeError
  end.

(** A request for nothing but zero quantities, at a point near [row_a]. *)
Definition post_zero : victim_post :=
  {| vp_victim_name := Some "A. Victim"; vp_victim_phone := None;
     vp_location_name := Some "Quito";
     vp_latitude := Some (1 # 10)%Q; vp_longitude := Some (1 # 10)%Q;
     vp_requested_items := Some {["water" := 0]};
     vp_urgency := None; vp_notes := None |}.

(** A request located on the equator, with a name the geocoder does not
    know. *)
Definition post_equator : victim_post :=
  {| vp_victim_name := Some "B. Victim"; vp_victim_phone := None;
     vp_location_name := Some "Quito";
     vp_latitude := Some 0%Q; vp_longitude := Some (1 # 10)%Q;
     vp_requested_items := Some {["water" := 5]};
     vp_urgency := None; vp_notes := None |}.

(** A request for water at a point near [row_a]. *)
Definition post_water : victim_post :=
  {| vp_victim_name := Some "C. Victim"; vp_victim_phone := None;
     vp_location_name := Some "Quito";
     vp_latitude := Some (1 # 10)%Q; vp_longitude := Some (1 # 10)%Q;
     vp_requested_items := Some {["water" := 5]};
     vp_urgency := Some "high"; vp_notes := None |}.

Definition tweet_tokyo : string :=
  "Earthquake hits Tokyo, Red Cross on site".

(** ** Facts about the inventory matcher *)

Section InventoryFacts.

Implicit Types requested available d : inventory.

Lemma sum_values_empty : sum_values ∅ = 0.
Proof. unfold sum_values. apply map_fold_empty. Qed.

Lemma sum_values_insert d item quantity :
  d !! item = None ->
  sum_values (<[item := quantity]> d) = quantity + sum_values d.
Proof.
  intros Hfresh. unfold sum_values.
  rewrite map_fold_insert_L; [reflexivity | | assumption].
  intros; lia.
Qed.

Lemma sum_values_nonneg d : nonneg d -> 0 <= sum_values d.
Proof.
  induction d as [| item quantity d Hfresh IH] using map_ind; intros Hd.
  - rewrite sum_values_empty. lia.
  - rewrite sum_values_insert by assumption.
    apply map_Forall_insert in Hd as [Hq Hd]; [| assumption].
    specialize (IH Hd). lia.
Qed.

Lemma match_items_lookup requested available item :
  match_items requested available !! item =
    match requested !! item, available !! item with
    | Some quantity, Some stock =>
        if bool_decide (stock > 0) then Some (Z.min quantity stock) else None
    | _, _ => None
    end.
Proof.
  unfold match_items. rewrite map_lookup_imap.
  destruct (requested !! item) as [quantity|]; simpl; [| reflexivity].
  destruct (available !! item) as [stock|]; reflexivity.
Qed.

Lemma match_items_empty_l available : match_items ∅ available = ∅.
Proof. apply map_eq. intros i. rewrite match_items_lookup, !lookup_empty. reflexivity. Qed.

Lemma match_items_empty_r requested : match_items requested ∅ = ∅.
Proof.
  apply map_eq. intros i. rewrite match_items_lookup, !lookup_empty.
  destruct (requested !! i); reflexivity.
Qed.

Lemma match_items_insert requested available item quantity :
  requested !! item = None ->
  match_items (<[item := quantity]> requested) available =
    match available !! item with
    | Some stock =>
        if bool_decide (stock > 0)
        then <[item := Z.min quantity stock]> (match_items requested available)
        else match_items requested available
    | None => match_items requested available
    end.
Proof.
  intros Hfresh. apply map_eq. intros i.
  rewrite match_items_lookup.
  destruct (decide (i = item)) as [->|Hne].
  - rewrite lookup_insert_eq.
    destruct (available !! item) as [stock|] eqn:Hst.
    + destruct (bool_decide (stock > 0)) eqn:Hpos.
      * rewrite lookup_insert_eq. reflexivity.
      * rewrite match_items_lookup, Hfresh. reflexivity.
    + rewrite match_items_lookup, Hfresh. reflexivity.
  - rewrite lookup_insert_ne by congruence.
    destruct (available !! item) as [stock|] eqn:Hst.
    + destruct (bool_decide (stock > 0)) eqn:Hpos.
      * rewrite lookup_insert_ne by congruence.
        rewrite match_items_lookup. reflexivity.
      * rewrite match_items_lookup. reflexivity.
    + rewrite match_items_lookup. reflexivity.
Qed.

(** The matched total lies between 0 and the requested total. *)
Lemma sum_matched_bounds requested available :
  nonneg requested ->
  0 <= sum_values (match_items requested available) <= sum_values requested.
Proof.
  induction requested as [| item quantity requested Hfresh IH] using map_ind;
    intros Hreq.
  - rewrite match_items_empty_l, sum_values_empty. lia.
  - apply map_Forall_insert in Hreq as [Hq Hreq]; [| assumption].
    specialize (IH Hreq).
    rewrite match_items_insert, sum_values_insert by assumption.
    destruct (available !! item) as [stock|]; [| lia].
    destruct (bool_decide (stock > 0)) eqn:Hpos; [| lia].
    apply bool_decide_eq_true in Hpos.
    rewrite sum_values_insert.
    + lia.
    + rewrite match_items_lookup, Hfresh. reflexivity.
Qed.

Lemma calculate_match_score_empty available :
  calculate_match_score ∅ available = Ok 0%Q.
Proof. reflexivity. Qed.

(** The only exception of [calculate_match_score]: a non-empty request whose
    quantities sum to zero. *)
Lemma calculate_match_score_raises requested available :
  raises (calculate_match_score requested available) <->
  requested <> ∅ /\ sum_values requested = 0.
Proof.
  unfold calculate_match_score, int_truediv.
  destruct (bool_decide (requested = ∅)) eqn:He.
  - apply bool_decide_eq_true in He. simpl. tauto.
  - apply bool_decide_eq_false in He.
    destruct (bool_decide (sum_values requested = 0)) eqn:Hs; simpl.
    + apply bool_decide_eq_true in Hs. tauto.
    + apply bool_decide_eq_false in Hs. tauto.
Qed.

Lemma calculate_match_score_ok requested available :
  requested <> ∅ -> sum_values requested <> 0 ->
  calculate_match_score requested available =
    Ok (inject_Z (sum_values (match_items requested available))
        / inject_Z (sum_values requested) * 100)%Q.
Proof.
  intros He Hs. unfold calculate_match_score, int_truediv.
  rewrite bool_decide_eq_false_2 by assumption.
  rewrite bool_decide_eq_false_2 by assumption.
  reflexivity.
Qed.

Lemma ratio_bounds (m t : Z) :
  0 <= m <= t -> 0 < t ->
  (0 <= inject_Z m / inject_Z t * 100 <= 100)%Q.
Proof.
  intros [Hm Hmt] Ht.
  assert (Htq : (0 < inject_Z t)%Q) by (rewrite <- (Zlt_Qlt 0); assumption).
  assert (Hmq : (0 <= inject_Z m)%Q) by (rewrite <- (Zle_Qle 0); assumption).
  assert (Hle : (inject_Z m <= inject_Z t)%Q) by (rewrite <- Zle_Qle; assumption).
  assert (H0 : (0 <= inject_Z m / inject_Z t)%Q).
  { apply Qle_shift_div_l; [assumption | lra]. }
  assert (H1 : (inject_Z m / inject_Z t <= 1)%Q).
  { apply Qle_shift_div_r; [assumption | lra]. }
  split; lra.
Qed.

(** Where the score is defined, it lies in [0, 100]. *)
Lemma calculate_match_score_bounds requested available score :
  nonneg requested ->
  calculate_match_score requested available = Ok score ->
  (0 <= score <= 100)%Q.
Proof.
  intros Hreq. unfold calculate_match_score, int_truediv.
  destruct (bool_decide (requested = ∅)); [intros [= <-]; lra |].
  destruct (bool_decide (sum_values requested = 0)) eqn:Hs; [discriminate |].
  apply bool_decide_eq_false in Hs.
  simpl. intros [= <-].
  pose proof (sum_values_nonneg _ Hreq).
  apply ratio_bounds; [apply sum_matched_bounds; assumption | lia].
Qed.

End InventoryFacts.

(** ** Facts about rounding *)

Section RoundingFacts.

Lemma Qlt_bool_iff (x y : Q) : Qlt_bool x y = true <-> (x < y)%Q.
Proof.
  unfold Qlt_bool. rewrite negb_true_iff.
  destruct (Qle_bool y x) eqn:Hle.
  - apply Qle_bool_iff in Hle. split; [discriminate | intros; lra].
  - split; [| reflexivity]. intros _.
    destruct (Qlt_le_dec x y) as [Hlt|Hge]; [assumption |].
    apply Qle_bool_iff in Hge. congruence.
Qed.

Lemma Qlt_bool_false_iff (x y : Q) : Qlt_bool x y = false <-> (y <= x)%Q.
Proof.
  unfold Qlt_bool. rewrite negb_false_iff. apply Qle_bool_iff.
Qed.

Lemma Qle_bool_false_iff (x y : Q) : Qle_bool x y = false <-> (y < x)%Q.
Proof.
  rewrite <- Qlt_bool_iff. unfold Qlt_bool.
  destruct (Qle_bool x y); simpl; split; congruence.
Qed.

Lemma round_half_even_range (x : Q) :
  Qfloor x <= round_half_even x <= Qfloor x + 1.
Proof.
  unfold round_half_even.
  destruct (x - inject_Z (Qfloor x) ?= 1 # 2)%Q; [| lia | lia].
  destruct (Z.even (Qfloor x)); lia.
Qed.

Lemma floor_frac (x : Q) :
  (0 <= x - inject_Z (Qfloor x) < 1)%Q.
Proof.
  pose proof (Qfloor_le x) as Hlo.
  pose proof (Qlt_floor x) as Hhi.
  rewrite inject_Z_plus in Hhi. change (inject_Z 1) with 1%Q in Hhi. split; lra.
Qed.

(** The rounded value is at most one half away. *)
Lemma round_half_even_close (x : Q) :
  (inject_Z (round_half_even x) - (1 # 2) <= x
   <= inject_Z (round_half_even x) + (1 # 2))%Q.
Proof.
  pose proof (floor_frac x) as [Hlo Hhi].
  unfold round_half_even.
  destruct (x - inject_Z (Qfloor x) ?= 1 # 2)%Q eqn:Hc.
  - apply Qeq_alt in Hc.
    destruct (Z.even (Qfloor x)).
    + split; lra.
    + rewrite inject_Z_plus. change (inject_Z 1) with 1%Q. split; lra.
  - apply Qlt_alt in Hc. split; lra.
  - apply Qgt_alt in Hc. rewrite inject_Z_plus. change (inject_Z 1) with 1%Q. split; lra.
Qed.

Lemma round_half_even_mono (x y : Q) :
  (x <= y)%Q -> round_half_even x <= round_half_even y.
Proof.
  intros Hxy.
  pose proof (Qfloor_resp_le _ _ Hxy) as Hf.
  destruct (Z.eq_dec (Qfloor x) (Qfloor y)) as [Heq|Hne].
  - unfold round_half_even. rewrite <- Heq.
    destruct (Qcompare_spec (x - inject_Z (Qfloor x)) (1 # 2)) as [Hx|Hx|Hx];
      destruct (Qcompare_spec (y - inject_Z (Qfloor x)) (1 # 2)) as [Hy|Hy|Hy];
      destruct (Z.even (Qfloor x)); try lia; exfalso; lra.
  - pose proof (round_half_even_range x).
    pose proof (round_half_even_range y). lia.
Qed.

Lemma round_half_even_Z (n : Z) : round_half_even (inject_Z n) = n.
Proof.
  unfold round_half_even. rewrite Qfloor_Z.
  destruct (inject_Z n - inject_Z n ?= 1 # 2)%Q eqn:Hc; [| reflexivity |].
  - apply Qeq_alt in Hc. exfalso. lra.
  - apply Qgt_alt in Hc. exfalso. lra.
Qed.

Lemma pow10_pos (ndigits : nat) : (0 < pow10 ndigits)%Q.
Proof.
  unfold pow10. rewrite <- (Zlt_Qlt 0). apply Z.pow_pos_nonneg; lia.
Qed.

Lemma py_round_eq (x : Q) (ndigits : nat) :
  (py_round x ndigits ==
   inject_Z (round_half_even (x * pow10 ndigits)) / pow10 ndigits)%Q.
Proof. unfold py_round. apply Qred_correct. Qed.

(** Rounding is monotone. *)
Lemma py_round_mono (x y : Q) (ndigits : nat) :
  (x <= y)%Q -> (py_round x ndigits <= py_round y ndigits)%Q.
Proof.
  intros Hxy. rewrite !py_round_eq.
  pose proof (pow10_pos ndigits) as Hp.
  apply Qmult_le_compat_r; [| apply Qlt_le_weak, Qinv_lt_0_compat, Hp].
  rewrite <- Zle_Qle. apply round_half_even_mono.
  apply Qmult_le_compat_r; [assumption | lra].
Qed.

(** A number with at most [ndigits] decimals is its own rounding. *)
Lemma py_round_decimal (k : Z) (ndigits : nat) :
  (py_round (inject_Z k / pow10 ndigits) ndigits
   == inject_Z k / pow10 ndigits)%Q.
Proof.
  rewrite py_round_eq.
  pose proof (pow10_pos ndigits) as Hp.
  assert (Hk : (inject_Z k / pow10 ndigits * pow10 ndigits == inject_Z k)%Q).
  { field. lra. }
  assert (Hr : round_half_even (inject_Z k / pow10 ndigits * pow10 ndigits) = k).
  { rewrite <- (round_half_even_Z k) at 2.
    apply Z.le_antisymm; apply round_half_even_mono; rewrite Hk; lra. }
  rewrite Hr. reflexivity.
Qed.

Lemma py_round_le_decimal (x : Q) (k : Z) (ndigits : nat) :
  (x <= inject_Z k / pow10 ndigits)%Q ->
  (py_round x ndigits <= inject_Z k / pow10 ndigits)%Q.
Proof.
  intros Hx. rewrite <- (py_round_decimal k ndigits).
  apply py_round_mono. assumption.
Qed.

Lemma py_round_le_100 (x : Q) (ndigits : nat) :
  (x <= 100)%Q -> (py_round x ndigits <= 100)%Q.
Proof.
  intros Hx.
  assert (H100 : (100 == inject_Z (100 * 10 ^ Z.of_nat ndigits) / pow10 ndigits)%Q).
  { pose proof (pow10_pos ndigits). unfold pow10 in *.
    rewrite inject_Z_mult. field. lra. }
  rewrite H100. apply py_round_le_decimal. rewrite <- H100. assumption.
Qed.

(** The rounded value is within half a unit of the last decimal. *)
Lemma py_round_close (x : Q) (ndigits : nat) :
  (Qabs (py_round x ndigits - x) <= (1 # 2) / pow10 ndigits)%Q.
Proof.
  rewrite py_round_eq.
  pose proof (pow10_pos ndigits) as Hp.
  pose proof (round_half_even_close (x * pow10 ndigits)) as [Hlo Hhi].
  set (r := inject_Z (round_half_even (x * pow10 ndigits))) in *.
  assert (Hd : (r / pow10 ndigits - x == (r - x * pow10 ndigits) / pow10 ndigits)%Q).
  { field. lra. }
  rewrite Hd. apply Qabs_Qle_condition. split.
  - apply Qle_shift_div_l; [assumption |].
    assert (Hm : (- ((1 # 2) / pow10 ndigits) * pow10 ndigits == - (1 # 2))%Q)
      by (field; lra).
    rewrite Hm. lra.
  - apply Qle_shift_div_r; [assumption |].
    assert (Hm : ((1 # 2) / pow10 ndigits * pow10 ndigits == 1 # 2)%Q)
      by (field; lra).
    rewrite Hm. lra.
Qed.

End RoundingFacts.

(** ** Facts about [list.sort] *)

Section SortFacts.

Context {A : Type}.

Implicit Types (x y : Q * A) (l : list (Q * A)).

Lemma insert_by_key_perm x l : Permutation (insert_by_key x l) (x :: l).
Proof.
  induction l as [| y l IH]; simpl; [reflexivity |].
  destruct (Qlt_bool (fst y) (fst x)); [| reflexivity].
  rewrite IH. apply perm_swap.
Qed.

Lemma stable_sort_perm l : Permutation (stable_sort l) l.
Proof.
  induction l as [| x l IH]; simpl; [reflexivity |].
  rewrite insert_by_key_perm. apply perm_skip, IH.
Qed.

Lemma insert_by_key_sorted x l :
  StronglySorted key_le l -> StronglySorted key_le (insert_by_key x l).
Proof.
  induction l as [| y l IH]; simpl; intros Hs.
  - repeat constructor.
  - apply StronglySorted_inv in Hs as [Hs Hy].
    destruct (Qlt_bool (fst y) (fst x)) eqn:Hc.
    + apply Qlt_bool_iff in Hc.
      constructor; [apply IH, Hs |].
      eapply Permutation_Forall.
      * symmetry. apply insert_by_key_perm.
      * constructor; [unfold key_le; lra | exact Hy].
    + apply Qlt_bool_false_iff in Hc.
      constructor; [constructor; assumption |].
      constructor; [exact Hc |].
      eapply List.Forall_impl; [| exact Hy].
      intros z Hz. unfold key_le in *. simpl in *. lra.
Qed.

Lemma stable_sort_sorted l : StronglySorted key_le (stable_sort l).
Proof.
  induction l as [| x l IH]; simpl; [constructor |].
  apply insert_by_key_sorted, IH.
Qed.

(** Stability: the elements of one key keep their order. *)
Lemma insert_by_key_stable (k : Q) x l :
  List.filter (same_key k) (insert_by_key x l)
  = List.filter (same_key k) (x :: l).
Proof.
  induction l as [| y l IH]; [reflexivity |].
  simpl insert_by_key.
  destruct (Qlt_bool (fst y) (fst x)) eqn:Hc; [| reflexivity].
  apply Qlt_bool_iff in Hc.
  cbn [List.filter]. rewrite IH. cbn [List.filter].
  destruct (same_key k y) eqn:Hy, (same_key k x) eqn:Hx; try reflexivity.
  unfold same_key in *.
  apply Qeq_bool_iff in Hy. apply Qeq_bool_iff in Hx. exfalso. lra.
Qed.

Lemma stable_sort_stable (k : Q) l :
  List.filter (same_key k) (stable_sort l) = List.filter (same_key k) l.
Proof.
  induction l as [| x l IH]; [reflexivity |].
  simpl stable_sort. rewrite insert_by_key_stable.
  cbn [List.filter]. rewrite IH. reflexivity.
Qed.

Lemma StronglySorted_rev_flip (R : Q * A -> Q * A -> Prop) l :
  StronglySorted R l -> StronglySorted (fun a b => R b a) (rev l).
Proof.
  induction 1 as [| x l Hs IH Hx]; simpl; [constructor |].
  apply StronglySorted_app_2; [| exact IH | repeat constructor].
  intros a b Ha Hb. apply list_elem_of_In in Ha, Hb.
  destruct Hb as [<- | []].
  apply in_rev in Ha. rewrite List.Forall_forall in Hx. apply Hx, Ha.
Qed.

(** *** Sorting by a total key *)

Variable kf : A -> Q.

Lemma with_keys_total (key : A -> result Q) (l : list A) :
  List.Forall (fun a => key a = Ok (kf a)) l ->
  with_keys key l = Ok (keyed kf l).
Proof.
  induction 1 as [| a l Ha _ IH]; [reflexivity |].
  simpl. rewrite Ha. simpl. rewrite IH. reflexivity.
Qed.

Lemma list_sort_total (key : A -> result Q) (reverse : bool) (l : list A) :
  List.Forall (fun a => key a = Ok (kf a)) l ->
  list_sort key reverse l = Ok (sorted_by kf reverse l).
Proof.
  intros Hk. unfold list_sort. rewrite (with_keys_total _ _ Hk). reflexivity.
Qed.

Lemma keyed_well_keyed (l : list A) : List.Forall (well_keyed kf) (keyed kf l).
Proof. induction l; constructor; [reflexivity | assumption]. Qed.

Lemma map_snd_keyed (l : list A) : map snd (keyed kf l) = l.
Proof. induction l as [| a l IH]; simpl; [| rewrite IH]; reflexivity. Qed.

Lemma sorted_core_perm (reverse : bool) (l : list A) :
  Permutation (if reverse then rev (stable_sort (rev (keyed kf l)))
               else stable_sort (keyed kf l)) (keyed kf l).
Proof.
  destruct reverse.
  - rewrite <- Permutation_rev, stable_sort_perm, <- Permutation_rev. reflexivity.
  - apply stable_sort_perm.
Qed.

Lemma sorted_by_perm (reverse : bool) (l : list A) :
  Permutation (sorted_by kf reverse l) l.
Proof.
  unfold sorted_by. rewrite sorted_core_perm, map_snd_keyed. reflexivity.
Qed.

Lemma filter_map_snd (k : Q) (kl : list (Q * A)) :
  List.Forall (well_keyed kf) kl ->
  List.filter (fun a => Qeq_bool (kf a) k) (map snd kl)
  = map snd (List.filter (same_key k) kl).
Proof.
  induction 1 as [| p kl Hp _ IH]; [reflexivity |].
  simpl. unfold same_key at 1. rewrite Hp.
  destruct (Qeq_bool (kf (snd p)) k); simpl; rewrite IH; reflexivity.
Qed.

(** Elements with equal keys come out in their input order. *)
Lemma sorted_by_stable (reverse : bool) (k : Q) (l : list A) :
  List.filter (fun a => Qeq_bool (kf a) k) (sorted_by kf reverse l)
  = List.filter (fun a => Qeq_bool (kf a) k) l.
Proof.
  assert (Hl : List.filter (fun a => Qeq_bool (kf a) k) l
               = map snd (List.filter (same_key k) (keyed kf l))).
  { rewrite <- (filter_map_snd k (keyed kf l)) by apply keyed_well_keyed.
    rewrite map_snd_keyed. reflexivity. }
  rewrite Hl. unfold sorted_by.
  rewrite filter_map_snd.
  - f_equal. destruct reverse.
    + rewrite List.filter_rev, stable_sort_stable, List.filter_rev, rev_involutive.
      reflexivity.
    + apply stable_sort_stable.
  - eapply Permutation_Forall; [symmetry; apply sorted_core_perm |].
    apply keyed_well_keyed.
Qed.

Lemma sorted_map_snd (R : Q -> Q -> Prop) (kl : list (Q * A)) :
  List.Forall (well_keyed kf) kl ->
  StronglySorted (fun p q => R (fst p) (fst q)) kl ->
  StronglySorted (fun a b => R (kf a) (kf b)) (map snd kl).
Proof.
  intros Hwk Hs. induction Hs as [| p kl Hs IH Hp]; simpl; [constructor |].
  apply List.Forall_cons_iff in Hwk as [Hwp Hwk].
  constructor; [apply IH, Hwk |].
  rewrite List.Forall_forall in *. intros b Hb.
  apply in_map_iff in Hb as [q [<- Hq]].
  rewrite <- Hwp, <- (Hwk q Hq). apply Hp, Hq.
Qed.

Lemma sorted_by_ascending (l : list A) :
  StronglySorted (fun a b => (kf a <= kf b)%Q) (sorted_by kf false l).
Proof.
  unfold sorted_by. apply (sorted_map_snd Qle).
  - eapply Permutation_Forall; [symmetry; apply (sorted_core_perm false) |].
    apply keyed_well_keyed.
  - apply stable_sort_sorted.
Qed.

Lemma sorted_by_descending (l : list A) :
  StronglySorted (fun a b => (kf b <= kf a)%Q) (sorted_by kf true l).
Proof.
  unfold sorted_by. apply (sorted_map_snd (fun u v => (v <= u)%Q)).
  - eapply Permutation_Forall; [symmetry; apply (sorted_core_perm true) |].
    apply keyed_well_keyed.
  - apply (StronglySorted_rev_flip key_le), stable_sort_sorted.
Qed.

(** The first element of a filtered list splits the list. *)
Lemma filter_head_split (P : A -> bool) (l : list A) (a : A) (t : list A) :
  List.filter P l = a :: t ->
  exists pre post, l = pre ++ a :: post
    /\ List.Forall (fun b => P b = false) pre /\ P a = true.
Proof.
  induction l as [| b l IH]; simpl; [discriminate |].
  destruct (P b) eqn:Hb.
  - intros [= -> _]. exists [], l. repeat split; [constructor | assumption].
  - intros Hf. destruct (IH Hf) as (pre & post & -> & Hpre & Ha).
    exists (b :: pre), post. repeat split; [constructor |]; assumption.
Qed.

(** [sorted(l, key=kf, reverse=True)[0]] is the first element of [l] whose
    key is maximal. *)
Lemma head_sorted_descending (l : list A) (a : A) :
  head (sorted_by kf true l) = Some a ->
  exists pre post, l = pre ++ a :: post
    /\ List.Forall (fun b => (kf b < kf a)%Q) pre
    /\ List.Forall (fun b => (kf b <= kf a)%Q) post.
Proof.
  intros Hh.
  destruct (sorted_by kf true l) as [| a' t] eqn:Hs; [discriminate |].
  injection Hh as ->.
  pose proof (sorted_by_descending l) as Hd. rewrite Hs in Hd.
  apply StronglySorted_inv in Hd as [_ Hmax].
  assert (Hall : List.Forall (fun b => (kf b <= kf a)%Q) l).
  { eapply Permutation_Forall; [apply (sorted_by_perm true) |].
    rewrite Hs. constructor; [lra | exact Hmax]. }
  pose proof (sorted_by_stable true (kf a) l) as Hst.
  rewrite Hs in Hst. simpl in Hst. rewrite Qeq_bool_refl in Hst.
  symmetry in Hst.
  destruct (filter_head_split _ _ _ _ Hst) as (pre & post & -> & Hpre & _).
  exists pre, post. split; [reflexivity |].
  apply List.Forall_app in Hall as [Hlpre Hlpost].
  apply List.Forall_cons_iff in Hlpost as [_ Hlpost].
  split; [| exact Hlpost].
  rewrite List.Forall_forall in *. intros b Hb.
  specialize (Hpre b Hb). specialize (Hlpre b Hb). simpl in *.
  apply Qeq_bool_neq in Hpre.
  destruct (Qlt_le_dec (kf b) (kf a)) as [Hlt|Hge]; [exact Hlt |].
  exfalso. apply Hpre. lra.
Qed.

Lemma head_sorted_none (reverse : bool) (l : list A) :
  head (sorted_by kf reverse l) = None <-> l = [].
Proof.
  split.
  - intros Hh. destruct (sorted_by kf reverse l) eqn:Hs; [| discriminate].
    pose proof (sorted_by_perm reverse l) as Hp. rewrite Hs in Hp.
    apply Permutation_nil in Hp. exact Hp.
  - intros ->. destruct reverse; reflexivity.
Qed.

End SortFacts.

(** ** Facts about the hub finders *)

Lemma field_key_float_field (field : string) (d : hub) (x : Q) :
  d !! field = Some (VFloat x) ->
  field_key field d = Ok (float_field field d).
Proof.
  intros Hd. unfold field_key, getitem, float_field. rewrite Hd. reflexivity.
Qed.

Section FinderFacts.

Variable geodesic_km : Q * Q -> Q * Q -> Q.

Abbreviation hub_distance := (hub_distance geodesic_km).

(** *** [find_nearby_hubs] *)

Lemma distance_of_ok location h d :
  hub_distance location h = Ok d -> distance_of geodesic_km location h = d.
Proof. intros Hd. unfold distance_of. rewrite Hd. reflexivity. Qed.

Lemma nearby_loop_ok location max_distance_km hubs nearby :
  List.Forall (has_coordinates geodesic_km location) hubs ->
  nearby_loop geodesic_km location max_distance_km hubs nearby
  = Ok (nearby ++ in_range geodesic_km location max_distance_km hubs).
Proof.
  intros Hwf. revert nearby.
  induction Hwf as [| h hubs [d Hd] _ IH]; intros nearby.
  - simpl. rewrite app_nil_r. reflexivity.
  - cbn [nearby_loop]. rewrite Hd. cbn [mbind result_bind].
    unfold in_range. cbn [List.filter].
    replace (within geodesic_km location max_distance_km h)
      with (Qle_bool d max_distance_km)
      by (unfold within; rewrite (distance_of_ok _ _ _ Hd); reflexivity).
    destruct (Qle_bool d max_distance_km).
    + rewrite IH. rewrite <- app_assoc. cbn [map app].
      unfold in_range, with_distance. rewrite (distance_of_ok _ _ _ Hd). reflexivity.
    + apply IH.
Qed.

Lemma nearby_loop_inv location max_distance_km hubs nearby out :
  nearby_loop geodesic_km location max_distance_km hubs nearby = Ok out ->
  List.Forall (has_coordinates geodesic_km location) hubs.
Proof.
  revert nearby. induction hubs as [| h hubs IH]; intros nearby; [constructor |].
  cbn [nearby_loop].
  destruct (hub_distance location h) as [d|e] eqn:Hd; [| discriminate].
  cbn [mbind result_bind]. intros Hloop.
  constructor; [exists d; exact Hd |].
  destruct (Qle_bool d max_distance_km); eapply IH; exact Hloop.
Qed.

Lemma in_range_distance_km location max_distance_km hubs :
  List.Forall (fun o => field_key "distance_km" o = Ok (float_field "distance_km" o))
    (in_range geodesic_km location max_distance_km hubs).
Proof.
  unfold in_range. apply List.Forall_forall. intros o Ho.
  apply in_map_iff in Ho as [h [<- _]].
  eapply field_key_float_field. unfold with_distance. apply lookup_insert_eq.
Qed.

(** [find_nearby_hubs] returns exactly when every hub has coordinates, and
    then returns the hubs in range sorted by the attached [distance_km]. *)
Lemma find_nearby_hubs_ok location hubs max_distance_km :
  List.Forall (has_coordinates geodesic_km location) hubs ->
  find_nearby_hubs geodesic_km location hubs max_distance_km
  = Ok (sorted_by (float_field "distance_km") false
          (in_range geodesic_km location max_distance_km hubs)).
Proof.
  intros Hwf. unfold find_nearby_hubs.
  rewrite (nearby_loop_ok _ _ _ _ Hwf). simpl.
  apply list_sort_total, in_range_distance_km.
Qed.

Lemma find_nearby_hubs_inv location hubs max_distance_km out :
  find_nearby_hubs geodesic_km location hubs max_distance_km = Ok out ->
  List.Forall (has_coordinates geodesic_km location) hubs.
Proof.
  unfold find_nearby_hubs.
  destruct (nearby_loop geodesic_km location max_distance_km hubs [])
    as [nearby|e] eqn:Hloop; [| discriminate].
  intros _. eapply nearby_loop_inv. exact Hloop.
Qed.

Lemma with_distance_field location h :
  float_field "distance_km" (with_distance geodesic_km location h)
  = py_round (distance_of geodesic_km location h) 2.
Proof.
  unfold float_field, with_distance. rewrite lookup_insert_eq. reflexivity.
Qed.

(** The attached field leaves every other field of the hub as it was. *)
Lemma with_distance_other location h field :
  field <> "distance_km" ->
  with_distance geodesic_km location h !! field = h !! field.
Proof.
  intros Hne. unfold with_distance. apply lookup_insert_ne. congruence.
Qed.

(** *** [find_best_hub_for_request] *)

Section Scoring.

Variable victim_location : Q * Q.
Variable requested_items : inventory.

Lemma scoring_loop_complete hubs entries :
  (Scored geodesic_km victim_location requested_items) hubs entries ->
  forall scored_hubs,
    scoring_loop geodesic_km victim_location requested_items hubs scored_hubs
    = Ok (scored_hubs ++ entries).
Proof.
  induction 1 as [| h hubs entries Hex _ IH | h entry hubs entries Hsv _ IH];
    intros scored_hubs.
  - simpl. rewrite app_nil_r. reflexivity.
  - cbn [scoring_loop].
    destruct Hex as (d & Hd & [Hfar | (available & m & Hinv & Hm & Hz)]);
      rewrite Hd; cbn [mbind result_bind].
    + apply Qlt_bool_iff in Hfar. rewrite Hfar. apply IH.
    + destruct (Qlt_bool 100 d); [apply IH |].
      rewrite Hinv. cbn [mbind result_bind]. rewrite Hm. cbn [mbind result_bind].
      apply Qeq_bool_iff in Hz. rewrite Hz. apply IH.
  - cbn [scoring_loop].
    destruct Hsv as (d & m & c & (available & ds & Hd & Hnear & Hinv & Hm & Hnz & Hds & ->) & ->).
    rewrite Hd. cbn [mbind result_bind].
    apply Qlt_bool_false_iff in Hnear. rewrite Hnear.
    rewrite Hinv. cbn [mbind result_bind]. rewrite Hm. cbn [mbind result_bind].
    destruct (Qeq_bool m 0) eqn:Hz; [apply Qeq_bool_iff in Hz; contradiction |].
    rewrite Hds. cbn [mbind result_bind].
    rewrite IH, <- app_assoc. reflexivity.
Qed.

Lemma scoring_loop_sound hubs :
  forall scored_hubs out,
    scoring_loop geodesic_km victim_location requested_items hubs scored_hubs
    = Ok out ->
    exists entries, (Scored geodesic_km victim_location requested_items) hubs entries /\ out = scored_hubs ++ entries.
Proof.
  induction hubs as [| h hubs IH]; intros scored_hubs out.
  - simpl. intros [= <-]. exists []. split; [constructor | now rewrite app_nil_r].
  - cbn [scoring_loop].
    destruct (hub_distance victim_location h) as [d|e] eqn:Hd; [| discriminate].
    cbn [mbind result_bind].
    destruct (Qlt_bool 100 d) eqn:Hfar.
    { intros Hloop. destruct (IH _ _ Hloop) as (entries & Hsc & ->).
      exists entries. split; [| reflexivity].
      apply Scored_skip; [| exact Hsc].
      exists d. split; [exact Hd |]. left. apply Qlt_bool_iff, Hfar. }
    destruct (get_inventory h) as [available|e] eqn:Hinv; [| discriminate].
    cbn [mbind result_bind].
    destruct (calculate_match_score requested_items available) as [m|e] eqn:Hm;
      [| discriminate].
    cbn [mbind result_bind].
    destruct (Qeq_bool m 0) eqn:Hz.
    { intros Hloop. destruct (IH _ _ Hloop) as (entries & Hsc & ->).
      exists entries. split; [| reflexivity].
      apply Scored_skip; [| exact Hsc].
      exists d. split; [exact Hd |]. right. exists available, m.
      repeat split; try assumption. apply Qeq_bool_iff, Hz. }
    destruct (float_truediv 100 (1 + d)) as [ds|e] eqn:Hds; [| discriminate].
    cbn [mbind result_bind].
    intros Hloop. destruct (IH _ _ Hloop) as (entries & Hsc & ->).
    exists (scored h d m (combine m ds) :: entries).
    split; [| now rewrite <- app_assoc].
    apply Scored_keep; [| exact Hsc].
    exists d, m, (combine m ds). split; [| reflexivity].
    exists available, ds. repeat split; try assumption.
    + apply Qlt_bool_false_iff, Hfar.
    + apply Qeq_bool_neq, Hz.
Qed.

Lemma Scored_functional hubs l1 l2 : (Scored geodesic_km victim_location requested_items) hubs l1 -> (Scored geodesic_km victim_location requested_items) hubs l2 -> l1 = l2.
Proof.
  intros H1 H2.
  pose proof (scoring_loop_complete _ _ H1 []) as E1.
  pose proof (scoring_loop_complete _ _ H2 []) as E2.
  simpl in *. congruence.
Qed.

Lemma Scored_all_excluded hubs : (Scored geodesic_km victim_location requested_items) hubs [] <-> List.Forall (excluded geodesic_km victim_location requested_items) hubs.
Proof.
  split.
  - remember [] as entries eqn:He. induction 1; try discriminate; constructor; auto.
  - induction 1; constructor; assumption.
Qed.

(** Every entry comes from a hub of the input. *)
Lemma Scored_entries hubs entries :
  (Scored geodesic_km victim_location requested_items) hubs entries ->
  List.Forall (fun entry => exists h, In h hubs /\ (survivor geodesic_km victim_location requested_items) h entry) entries.
Proof.
  induction 1 as [| h hubs entries _ _ IH | h entry hubs entries Hsv _ IH].
  - constructor.
  - eapply List.Forall_impl; [| exact IH].
    intros entry (h' & Hin & Hs). exists h'. split; [right |]; assumption.
  - constructor.
    + exists h. split; [left; reflexivity | exact Hsv].
    + eapply List.Forall_impl; [| exact IH].
      intros entry' (h' & Hin & Hs). exists h'. split; [right |]; assumption.
Qed.

Lemma scored_combined_score h d m c :
  float_field "combined_score" (scored h d m c) = py_round c 1.
Proof. unfold float_field, scored. rewrite lookup_insert_eq. reflexivity. Qed.

Lemma scored_match_score h d m c :
  float_field "match_score" (scored h d m c) = py_round m 1.
Proof.
  unfold float_field, scored.
  rewrite lookup_insert_ne by discriminate.
  rewrite lookup_insert_eq. reflexivity.
Qed.

Lemma scored_distance_km h d m c :
  float_field "distance_km" (scored h d m c) = py_round d 2.
Proof.
  unfold float_field, scored.
  rewrite !lookup_insert_ne by discriminate.
  rewrite lookup_insert_eq. reflexivity.
Qed.

(** The three derived fields are the only ones that differ from the hub. *)
Lemma scored_other h d m c field :
  field <> "distance_km" -> field <> "match_score" ->
  field <> "combined_score" ->
  scored h d m c !! field = h !! field.
Proof.
  intros H1 H2 H3. unfold scored.
  rewrite !lookup_insert_ne by congruence. reflexivity.
Qed.

Lemma Scored_sort_keys hubs entries :
  (Scored geodesic_km victim_location requested_items) hubs entries ->
  List.Forall (fun entry => field_key "combined_score" entry
                            = Ok (float_field "combined_score" entry)) entries.
Proof.
  intros Hsc. eapply List.Forall_impl; [| apply (Scored_entries _ _ Hsc)].
  intros entry (h & _ & d & m & c & _ & ->).
  eapply field_key_float_field. unfold scored. apply lookup_insert_eq.
Qed.

(** The result of [find_best_hub_for_request] in terms of the loop's list. *)
Lemma find_best_hub_complete hubs entries :
  (Scored geodesic_km victim_location requested_items) hubs entries ->
  find_best_hub_for_request geodesic_km victim_location requested_items hubs
  = Ok (head (sorted_by (float_field "combined_score") true entries)).
Proof.
  intros Hsc. unfold find_best_hub_for_request.
  rewrite (scoring_loop_complete _ _ Hsc []). cbn [mbind result_bind app].
  rewrite (list_sort_total (float_field "combined_score"))
    by (apply (Scored_sort_keys hubs), Hsc).
  reflexivity.
Qed.

Lemma find_best_hub_sound hubs r :
  find_best_hub_for_request geodesic_km victim_location requested_items hubs
  = Ok r ->
  exists entries, (Scored geodesic_km victim_location requested_items) hubs entries /\
    r = head (sorted_by (float_field "combined_score") true entries).
Proof.
  intros Hr.
  destruct (scoring_loop geodesic_km victim_location requested_items hubs [])
    as [out|e] eqn:Hloop.
  - destruct (scoring_loop_sound _ _ _ Hloop) as (entries & Hsc & ->).
    exists entries. split; [exact Hsc |].
    rewrite (find_best_hub_complete _ _ Hsc) in Hr. congruence.
  - unfold find_best_hub_for_request in Hr. rewrite Hloop in Hr. discriminate.
Qed.

End Scoring.

End FinderFacts.

(** ** The inventory matcher: main results *)

(** C5. [match_items] maps every item of [requested] that is in
    [available] with a positive quantity to the minimum of the two
    quantities; a matched quantity is at most the requested and at most the
    available one; an item that is absent from [available], or present with
    quantity 0, is absent from the result. *)
Theorem match_items_min (requested available : inventory) (item : string) :
  (forall quantity stock,
      requested !! item = Some quantity -> available !! item = Some stock ->
      stock > 0 ->
      match_items requested available !! item = Some (Z.min quantity stock))
  /\ (forall matched,
      match_items requested available !! item = Some matched ->
      exists quantity stock,
        requested !! item = Some quantity /\ available !! item = Some stock
        /\ stock > 0 /\ matched = Z.min quantity stock
        /\ matched <= quantity /\ matched <= stock)
  /\ (available !! item = None \/ available !! item = Some 0 ->
      match_items requested available !! item = None).
Proof.
  rewrite match_items_lookup. split; [| split].
  - intros quantity stock -> -> Hpos.
    rewrite bool_decide_eq_true_2 by assumption. reflexivity.
  - intros matched.
    destruct (requested !! item) as [quantity|]; [| discriminate].
    destruct (available !! item) as [stock|]; [| discriminate].
    destruct (bool_decide (stock > 0)) eqn:Hpos; [| discriminate].
    apply bool_decide_eq_true in Hpos. intros [= <-].
    exists quantity, stock. repeat split; try assumption; lia.
  - intros [-> | ->]; destruct (requested !! item); reflexivity.
Qed.

Lemma match_items_min_witness :
  match_items {["water" := 50; "blankets" := 20]} {["water" := 25]} !! "water"
  = Some (Z.min 50 25).
Proof.
  apply (proj1 (match_items_min {["water" := 50; "blankets" := 20]}
                  {["water" := 25]} "water") 50 25).
  - reflexivity.
  - reflexivity.
  - lia.
Defined.

(** C2. Evaluation at a request whose quantities sum to zero: the request
    is not empty, so the guard does not apply, and the division raises
    [ZeroDivisionError]. *)
Theorem calculate_match_score_zero_request :
  request_zero <> ∅ /\ nonneg request_zero
  /\ calculate_match_score request_zero ∅ = Raise ZeroDivisionError.
Proof.
  split; [| split].
  - intros He. apply (f_equal (fun m => m !! "water")) in He. discriminate.
  - unfold nonneg, request_zero. apply map_Forall_singleton. lia.
  - reflexivity.
Qed.

(** C6. Evaluation at a non-empty request of quantity zero against any
    inventory: no score is returned, in particular not 0 for the empty
    inventory. *)
Theorem calculate_match_score_no_score (available : inventory) (score : Q) :
  calculate_match_score request_zero available <> Ok score.
Proof.
  assert (Hr : raises (calculate_match_score request_zero available)).
  { apply calculate_match_score_raises. split.
    - intros He. apply (f_equal (fun m => m !! "water")) in He. discriminate.
    - reflexivity. }
  intros Hok. rewrite Hok in Hr. exact Hr.
Qed.

(** Outside that case the score is returned and behaves as documented. *)
Lemma calculate_match_score_total (requested available : inventory) :
  requested = ∅ \/ sum_values requested <> 0 ->
  exists score, calculate_match_score requested available = Ok score.
Proof.
  intros Hq.
  destruct (calculate_match_score requested available) as [score|e] eqn:Hs;
    [exists score; reflexivity |].
  assert (Hr : raises (calculate_match_score requested available))
    by (rewrite Hs; exact I).
  apply calculate_match_score_raises in Hr as [Hne Hz].
  destruct Hq; contradiction.
Qed.

Lemma calculate_match_score_empty_available (requested : inventory) :
  sum_values requested <> 0 ->
  exists score,
    calculate_match_score requested ∅ = Ok score /\ (score == 0)%Q.
Proof.
  intros Hs.
  assert (Hne : requested <> ∅).
  { intros ->. rewrite sum_values_empty in Hs. contradiction. }
  rewrite (calculate_match_score_ok _ _ Hne Hs).
  eexists. split; [reflexivity |].
  rewrite match_items_empty_r, sum_values_empty.
  unfold Qdiv. rewrite Qmult_0_l, Qmult_0_l. reflexivity.
Qed.

(** Scenarios 1 and 2 of the specification. *)
Example scenario_full_match :
  match_items {["water" := 50]} {["water" := 100]} = {["water" := 50]}
  /\ exists score, calculate_match_score {["water" := 50]} {["water" := 100]} = Ok score
                   /\ (score == 100)%Q.
Proof. split; [reflexivity |]. eexists. split; reflexivity. Qed.

Example scenario_partial_match :
  match_items {["water" := 50; "blankets" := 20]} {["water" := 25]}
  = {["water" := 25]}
  /\ exists score,
      calculate_match_score {["water" := 50; "blankets" := 20]} {["water" := 25]}
      = Ok score
      /\ (score == (25 # 70) * 100)%Q /\ py_round score 1 = 35.7%Q.
Proof. split; [reflexivity |]. eexists. repeat split; reflexivity. Qed.

(** ** The hub finders: main results *)

Section FinderResults.

Variable geodesic_km : Q * Q -> Q * Q -> Q.

Lemma hub_distance_with_distance location h :
  hub_distance geodesic_km location (with_distance geodesic_km location h)
  = hub_distance geodesic_km location h.
Proof.
  unfold hub_distance, getitem.
  rewrite !with_distance_other by discriminate. reflexivity.
Qed.

Lemma distance_of_with_distance location h :
  distance_of geodesic_km location (with_distance geodesic_km location h)
  = distance_of geodesic_km location h.
Proof. unfold distance_of. rewrite hub_distance_with_distance. reflexivity. Qed.

Lemma in_in_range location max_distance_km hubs o :
  In o (in_range geodesic_km location max_distance_km hubs) <->
  exists h, In h hubs /\ o = with_distance geodesic_km location h
            /\ (distance_of geodesic_km location h <= max_distance_km)%Q.
Proof.
  unfold in_range. rewrite in_map_iff. split.
  - intros (h & <- & Hh). apply List.filter_In in Hh as [Hin Hw].
    exists h. repeat split; [assumption |]. apply Qle_bool_iff, Hw.
  - intros (h & Hin & -> & Hle). exists h. split; [reflexivity |].
    apply List.filter_In. split; [assumption |]. apply Qle_bool_iff, Hle.
Qed.

(** C4, amended.  On hubs whose coordinates can be read, [find_nearby_hubs]
    returns a list [out] (never an error) that holds, up to order, the copies
    with [distance_km] attached of the hubs whose distance is
    [<= max_distance_km]; [out] is ascending in [distance_km], records of
    equal [distance_km] are in input order; every [distance_km] is the
    distance rounded to 2 decimals, is [<= round(max_distance_km, 2)], and is
    [<= max_distance_km] when [max_distance_km] has at most 2 decimals; the
    result is empty when [hubs] is empty or no hub is in range. *)
Theorem find_nearby_hubs_sorted_within
    (location : Q * Q) (hubs : list hub) (max_distance_km : Q) :
  List.Forall (has_coordinates geodesic_km location) hubs ->
  exists out,
    find_nearby_hubs geodesic_km location hubs max_distance_km = Ok out
    /\ Permutation out (in_range geodesic_km location max_distance_km hubs)
    /\ (forall h, In h hubs ->
          (In (with_distance geodesic_km location h) out <->
           (distance_of geodesic_km location h <= max_distance_km)%Q))
    /\ StronglySorted
         (fun a b => (float_field "distance_km" a <= float_field "distance_km" b)%Q)
         out
    /\ (forall k,
          List.filter (fun o => Qeq_bool (float_field "distance_km" o) k) out
          = List.filter (fun o => Qeq_bool (float_field "distance_km" o) k)
              (in_range geodesic_km location max_distance_km hubs))
    /\ List.Forall
         (fun o => exists h,
              In h hubs /\ o = with_distance geodesic_km location h
              /\ (distance_of geodesic_km location h <= max_distance_km)%Q
              /\ float_field "distance_km" o
                 = py_round (distance_of geodesic_km location h) 2
              /\ (float_field "distance_km" o <= py_round max_distance_km 2)%Q)
         out
    /\ (forall cents : Z,
          (max_distance_km == inject_Z cents / pow10 2)%Q ->
          List.Forall (fun o => (float_field "distance_km" o <= max_distance_km)%Q)
            out)
    /\ (List.Forall
          (fun h => (max_distance_km < distance_of geodesic_km location h)%Q) hubs ->
        out = []).
Proof.
  intros Hwf.
  set (out := sorted_by (float_field "distance_km") false
                (in_range geodesic_km location max_distance_km hubs)).
  assert (Hperm : Permutation out
                    (in_range geodesic_km location max_distance_km hubs))
    by apply sorted_by_perm.
  assert (Hall : List.Forall
         (fun o => exists h,
              In h hubs /\ o = with_distance geodesic_km location h
              /\ (distance_of geodesic_km location h <= max_distance_km)%Q
              /\ float_field "distance_km" o
                 = py_round (distance_of geodesic_km location h) 2
              /\ (float_field "distance_km" o <= py_round max_distance_km 2)%Q)
         out).
  { apply List.Forall_forall. intros o Ho.
    apply (Permutation_in _ Hperm) in Ho.
    apply in_in_range in Ho as (h & Hin & -> & Hle).
    exists h. rewrite with_distance_field.
    repeat split; try assumption. apply py_round_mono, Hle. }
  exists out. split; [apply find_nearby_hubs_ok, Hwf |].
  split; [exact Hperm |].
  split.
  { intros h Hin. split.
    - intros Ho. apply (Permutation_in _ Hperm) in Ho.
      apply in_in_range in Ho as (h' & _ & Heq & Hle).
      rewrite <- (distance_of_with_distance location h), Heq,
        distance_of_with_distance. exact Hle.
    - intros Hle. apply (Permutation_in _ (Permutation_sym Hperm)).
      apply in_in_range. exists h. repeat split; assumption. }
  split; [apply sorted_by_ascending |].
  split; [intros k; apply sorted_by_stable |].
  split; [exact Hall |].
  split.
  { intros cents Hmax. eapply List.Forall_impl; [| exact Hall].
    intros o (h & _ & _ & Hle & Hf & _). rewrite Hf, Hmax.
    apply py_round_le_decimal. rewrite <- Hmax. exact Hle. }
  intros Hfar.
  assert (Hnone : in_range geodesic_km location max_distance_km hubs = []).
  { unfold in_range.
    replace (List.filter (within geodesic_km location max_distance_km) hubs)
      with (@nil hub); [reflexivity |].
    symmetry. clear -Hfar.
    induction Hfar as [| h hubs Hh _ IH]; [reflexivity |].
    simpl. unfold within at 1.
    apply Qle_bool_false_iff in Hh. rewrite Hh. exact IH. }
  rewrite Hnone in Hperm. apply Permutation_nil, Permutation_sym, Hperm.
Qed.

Section BestHub.

Variable victim_location : Q * Q.
Variable requested_items : inventory.

Abbreviation find_best := (find_best_hub_for_request geodesic_km victim_location requested_items).
Abbreviation Scored' := (Scored geodesic_km victim_location requested_items).
Abbreviation kept' := (kept geodesic_km victim_location requested_items).
Abbreviation excluded' := (excluded geodesic_km victim_location requested_items).

Lemma survivor_fields h entry :
  survivor geodesic_km victim_location requested_items h entry ->
  exists d m c,
    kept' h d m c /\ entry = scored h d m c
    /\ float_field "distance_km" entry = py_round d 2
    /\ float_field "match_score" entry = py_round m 1
    /\ float_field "combined_score" entry = py_round c 1.
Proof.
  intros (d & m & c & Hk & ->). exists d, m, c.
  rewrite scored_distance_km, scored_match_score, scored_combined_score.
  repeat split. exact Hk.
Qed.

(** C1, amended.  The hub returned is the first, in input order, among the
    surviving hubs whose [combined_score] rounded to 1 decimal is maximal:
    every earlier survivor has a strictly smaller rounded score, every later
    one a smaller or equal rounded score.  The comparison reads the stored
    field, which is [round(combined_score, 1)]; the returned record carries
    [round(distance, 2)], [round(match_score, 1)] and
    [round(combined_score, 1)]. *)
Theorem find_best_hub_first_max_rounded (hubs : list hub) (best : hub) :
  find_best hubs = Ok (Some best) ->
  exists entries before after,
    Scored' hubs entries
    /\ entries = before ++ best :: after
    /\ List.Forall
         (fun e => (float_field "combined_score" e
                    < float_field "combined_score" best)%Q) before
    /\ List.Forall
         (fun e => (float_field "combined_score" e
                    <= float_field "combined_score" best)%Q) after
    /\ List.Forall
         (fun e => exists h d m c,
              In h hubs /\ kept' h d m c /\ e = scored h d m c
              /\ float_field "distance_km" e = py_round d 2
              /\ float_field "match_score" e = py_round m 1
              /\ float_field "combined_score" e = py_round c 1) entries.
Proof.
  intros Hbest.
  destruct (find_best_hub_sound _ _ _ _ _ Hbest) as (entries & Hsc & Hhead).
  symmetry in Hhead.
  destruct (head_sorted_descending _ _ _ Hhead)
    as (before & after & -> & Hbefore & Hafter).
  exists (before ++ best :: after), before, after.
  repeat split; try assumption.
  eapply List.Forall_impl; [| apply (Scored_entries _ _ _ _ _ Hsc)].
  intros e (h & Hin & Hsv).
  destruct (survivor_fields _ _ Hsv) as (d & m & c & Hk & He & Hd & Hm & Hc).
  exists h, d, m, c. repeat split; assumption.
Qed.


End BestHub.

End FinderResults.

(** ** The hub finders on concrete inputs *)

Lemma has_coordinates_east : has_coordinates grid_km origin hub_east.
Proof. eexists. vm_compute. reflexivity. Qed.

Lemma has_coordinates_a : has_coordinates grid_km origin hub_a.
Proof. eexists. vm_compute. reflexivity. Qed.

Lemma find_nearby_hubs_sorted_within_witness :
  exists out,
    find_nearby_hubs grid_km origin [hub_east; hub_a] 50 = Ok out
    /\ Permutation out (in_range grid_km origin 50 [hub_east; hub_a])
    /\ List.Forall (fun o => (float_field "distance_km" o <= 50)%Q) out.
Proof.
  destruct (find_nearby_hubs_sorted_within grid_km origin [hub_east; hub_a] 50)
    as (out & Hout & Hperm & _ & _ & _ & _ & Hmax & _).
  - repeat constructor; [apply has_coordinates_east | apply has_coordinates_a].
  - exists out. repeat split; try assumption.
    apply (Hmax 5000). reflexivity.
Defined.

(** C4, the claim as stated fails: with [max_distance_km = 49.999] the hub
    49.998 km away is returned, and its [distance_km], rounded to 2 decimals,
    is 50.0, which is greater than [max_distance_km]. *)
Lemma find_nearby_hubs_rounds_past_radius :
  (distance_of grid_km origin hub_east <= 49999 # 1000)%Q
  /\ find_nearby_hubs grid_km origin [hub_east] (49999 # 1000)
     = Ok [with_distance grid_km origin hub_east]
  /\ float_field "distance_km" (with_distance grid_km origin hub_east) = 50%Q
  /\ ~ (float_field "distance_km" (with_distance grid_km origin hub_east)
        <= 49999 # 1000)%Q.
Proof.
  split; [vm_compute; discriminate |].
  split; [by_evaluation |].
  split; [vm_compute; reflexivity |].
  vm_compute. intros H. apply H. reflexivity.
Qed.

Lemma find_best_hub_a_b :
  find_best_hub_for_request grid_km origin request_water [hub_a; hub_b]
  = Ok (Some best_of_a_b).
Proof. by_evaluation. Qed.

Lemma find_best_hub_first_max_rounded_witness :
  exists entries before after,
    Scored grid_km origin request_water [hub_a; hub_b] entries
    /\ entries = before ++ best_of_a_b :: after
    /\ List.Forall
         (fun e => (float_field "combined_score" e
                    < float_field "combined_score" best_of_a_b)%Q) before
    /\ List.Forall
         (fun e => (float_field "combined_score" e
                    <= float_field "combined_score" best_of_a_b)%Q) after.
Proof.
  destruct (find_best_hub_first_max_rounded grid_km origin request_water
              [hub_a; hub_b] best_of_a_b find_best_hub_a_b)
    as (entries & before & after & H1 & H2 & H3 & H4 & _).
  exists entries, before, after. repeat split; assumption.
Defined.

(** C1, the claim as stated fails: both hubs survive, [hub_b] has the larger
    unrounded combined score (65.035 against 65.0), both round to 65.0, and
    the hub returned is [hub_a], the first of the two. *)
Lemma find_best_hub_ranks_rounded_scores :
  exists da ma ca db mb cb,
    kept grid_km origin request_water hub_a da ma ca
    /\ kept grid_km origin request_water hub_b db mb cb
    /\ (ca == 65)%Q /\ (cb == 65035 # 1000)%Q /\ (ca < cb)%Q
    /\ py_round ca 1 = py_round cb 1
    /\ find_best_hub_for_request grid_km origin request_water [hub_a; hub_b]
       = Ok (Some (scored hub_a da ma ca))
    /\ scored hub_a da ma ca !! "id" = Some (VInt 1)
    /\ scored hub_a da ma ca <> scored hub_b db mb cb.
Proof.
  eexists _, _, _, _, _, _.
  split.
  { eexists _, _.
    split; [vm_compute; reflexivity |].
    split; [vm_compute; discriminate |].
    split; [vm_compute; reflexivity |].
    split; [vm_compute; reflexivity |].
    split; [vm_compute; discriminate |].
    split; [vm_compute; reflexivity | reflexivity]. }
  split.
  { eexists _, _.
    split; [vm_compute; reflexivity |].
    split; [vm_compute; discriminate |].
    split; [vm_compute; reflexivity |].
    split; [vm_compute; reflexivity |].
    split; [vm_compute; discriminate |].
    split; [vm_compute; reflexivity | reflexivity]. }
  split; [vm_compute; reflexivity |].
  split; [vm_compute; reflexivity |].
  split; [vm_compute; reflexivity |].
  split; [vm_compute; reflexivity |].
  split; [by_evaluation |].
  split; [vm_compute; reflexivity |].
  intros Heq. apply (f_equal (fun d => d !! "id")) in Heq.
  vm_compute in Heq. discriminate.
Qed.


(** Scenario 5: hubs that are too far away or stock nothing requested. *)
Example find_best_hub_no_survivor :
  find_best_hub_for_request grid_km origin request_water
    [make_hub 4 1 0 {["water" := 500]}; make_hub 5 0 0 {["blankets" := 7]};
     make_hub 6 0 0 ∅]
  = Ok None.
Proof. by_evaluation. Qed.

(** A hub at exactly 100 km is not excluded. *)
Example find_best_hub_at_100_km :
  (distance_of grid_km origin hub_at_100_km == 100)%Q
  /\ find_best_hub_for_request grid_km origin request_water [hub_at_100_km]
     = Ok (Some (scored hub_at_100_km 100 50 (353 # 10)))
  /\ float_field "distance_km" (scored hub_at_100_km 100 50 (353 # 10)) = 100%Q.
Proof.
  split; [vm_compute; reflexivity |].
  split; [by_evaluation | vm_compute; reflexivity].
Qed.

(** The [match_score] of a returned record is the match score rounded to 1
    decimal: 4 units against 10000 requested is a match score of 0.04, the
    hub is kept, and the record shows 0.0. *)
Example find_best_hub_shows_rounded_match_score :
  find_best_hub_for_request grid_km origin {["water" := 10000]} [hub_few]
  = Ok (Some (scored hub_few 0 (4 # 100) (30028 # 1000)))
  /\ float_field "match_score" (scored hub_few 0 (4 # 100) (30028 # 1000)) = 0%Q.
Proof. split; [by_evaluation | vm_compute; reflexivity]. Qed.

(** Scenarios 3 and 4: the combined score at 10 km with match score 80. *)
Example scenario_combined_score :
  float_truediv 100 (1 + 10) = Ok (100 / 11)%Q
  /\ py_round (combine 80 (100 / 11)) 1 = 58.7%Q.
Proof. split; vm_compute; reflexivity. Qed.

(** ** The hub finders in the store: which objects are written *)

Section StoreFacts.

Import Store.

Lemma safe_ret {A} n (a : A) (post : A -> Prop) :
  post a -> safe n (mret a) post.
Proof.
  intros Ha s _. split.
  - exists []. simpl. rewrite app_nil_r. reflexivity.
  - simpl. intros a' [= <-]. exact Ha.
Qed.

Lemma safe_bind {A B} n (m : st A) (f : A -> st B)
    (mid : A -> Prop) (post : B -> Prop) :
  safe n m mid -> (forall a, mid a -> safe n (f a) post) ->
  safe n (m ≫= f) post.
Proof.
  intros Hm Hf s Hn.
  destruct (Hm s Hn) as [[new Hnew] Hmid].
  unfold mbind, st_bind.
  destruct (m s) as [[a|e] s'] eqn:Hrun; simpl in *; subst s'.
  - assert (Hn' : (n <= length (s ++ new))%nat)
      by (rewrite length_app; lia).
    destruct (Hf a (Hmid a eq_refl) (s ++ new) Hn') as [[new' Hnew'] Hpost].
    split; [| exact Hpost].
    exists (new ++ new'). rewrite Hnew', app_assoc. reflexivity.
  - split; [exists new; reflexivity | discriminate].
Qed.

Lemma safe_lift {A} n (r : result A) (post : A -> Prop) :
  (forall a, r = Ok a -> post a) -> safe n (lift r) post.
Proof.
  intros Hr s _. split.
  - exists []. simpl. rewrite app_nil_r. reflexivity.
  - exact Hr.
Qed.

Lemma safe_load n (a : addr) : safe n (load a) (fun _ => True).
Proof.
  intros s _. unfold load. split.
  - exists []. destruct (s !! a); simpl; rewrite app_nil_r; reflexivity.
  - trivial.
Qed.

Lemma safe_alloc n (d : hub) : safe n (alloc d) (fun a => (n <= a)%nat).
Proof.
  intros s Hn. unfold alloc. simpl. split.
  - exists [d]. reflexivity.
  - intros a [= <-]. exact Hn.
Qed.

(** An item assignment on the copy just made writes the new object only. *)
Lemma safe_copy_setitem {B} n (hub : addr) (key : string) (v : value)
    (f : addr -> st B) (post : B -> Prop) :
  (forall a, (n <= a)%nat -> safe n (f a) post) ->
  safe n (a ← dict_copy hub; _ ← setitem a key v; f a) post.
Proof.
  intros Hf s Hn.
  unfold dict_copy, mbind, st_bind, load, alloc, setitem.
  destruct (s !! hub) as [d|] eqn:Hd; simpl.
  - rewrite lookup_app_r by lia. rewrite Nat.sub_diag. simpl.
    assert (Hs : <[length s := <[key := v]> d]> (s ++ [d])
                 = s ++ [<[key := v]> d]).
    { rewrite insert_app_r_alt by lia. rewrite Nat.sub_diag. reflexivity. }
    rewrite Hs.
    assert (Hn' : (n <= length (s ++ [<[key := v]> d]))%nat)
      by (rewrite length_app; lia).
    destruct (Hf (length s) Hn _ Hn') as [[new Hnew] Hpost].
    split; [| exact Hpost].
    exists ([<[key := v]> d] ++ new). rewrite Hnew, app_assoc. reflexivity.
  - split; [| discriminate]. exists []. rewrite app_nil_r. reflexivity.
Qed.

Lemma safe_with_keys n (key : hub -> result Q) (l : list addr) :
  safe n (Store.with_keys key l) (fun keyed => map snd keyed = l).
Proof.
  induction l as [| a l IH]; cbn [Store.with_keys].
  - apply safe_ret. reflexivity.
  - eapply safe_bind; [apply safe_load |]. intros d _.
    eapply safe_bind; [apply (safe_lift _ _ (fun _ => True)); trivial |].
    intros k _.
    eapply safe_bind; [exact IH |]. intros keyed Hk.
    apply safe_ret. simpl. rewrite Hk. reflexivity.
Qed.

Lemma safe_list_sort n (key : hub -> result Q) (reverse : bool)
    (l : list addr) (P : addr -> Prop) :
  List.Forall P l ->
  safe n (Store.list_sort key reverse l) (List.Forall P).
Proof.
  intros Hl. unfold Store.list_sort.
  eapply safe_bind; [apply safe_with_keys |]. intros keyed Hk.
  apply safe_ret.
  eapply Permutation_Forall; [| exact Hl].
  rewrite <- Hk. apply Permutation_map. symmetry.
  destruct reverse.
  - rewrite <- Permutation_rev, stable_sort_perm, <- Permutation_rev. reflexivity.
  - apply stable_sort_perm.
Qed.

Variable geodesic_km : Q * Q -> Q * Q -> Q.

Lemma safe_nearby_loop n location max_distance_km hubs nearby :
  List.Forall (fun a => (n <= a)%nat) nearby ->
  safe n (Store.nearby_loop geodesic_km location max_distance_km hubs nearby)
    (List.Forall (fun a => (n <= a)%nat)).
Proof.
  revert nearby. induction hubs as [| hub rest IH]; intros nearby Hfresh;
    cbn [Store.nearby_loop].
  - apply safe_ret, Hfresh.
  - eapply safe_bind; [apply safe_load |]. intros h _.
    eapply safe_bind; [apply (safe_lift _ _ (fun _ => True)); trivial |].
    intros distance _.
    destruct (Qle_bool distance max_distance_km).
    + apply safe_copy_setitem. intros a Ha. apply IH.
      apply List.Forall_app. split; [exact Hfresh | repeat constructor; exact Ha].
    + apply IH, Hfresh.
Qed.

Lemma safe_find_nearby_hubs n location hubs max_distance_km :
  safe n (Store.find_nearby_hubs geodesic_km location hubs max_distance_km)
    (List.Forall (fun a => (n <= a)%nat)).
Proof.
  unfold Store.find_nearby_hubs.
  eapply safe_bind; [apply safe_nearby_loop; constructor |].
  intros nearby Hfresh. apply safe_list_sort, Hfresh.
Qed.

Lemma safe_scoring_loop n victim_location requested_items hubs scored_hubs :
  List.Forall (fun a => (n <= a)%nat) scored_hubs ->
  safe n (Store.scoring_loop geodesic_km victim_location requested_items
            hubs scored_hubs)
    (List.Forall (fun a => (n <= a)%nat)).
Proof.
  revert scored_hubs. induction hubs as [| hub rest IH];
    intros scored_hubs Hfresh; cbn [Store.scoring_loop].
  - apply safe_ret, Hfresh.
  - eapply safe_bind; [apply safe_load |]. intros h _.
    eapply safe_bind; [apply (safe_lift _ _ (fun _ => True)); trivial |].
    intros distance _.
    destruct (Qlt_bool 100 distance); [apply IH, Hfresh |].
    eapply safe_bind; [apply (safe_lift _ _ (fun _ => True)); trivial |].
    intros available _.
    eapply safe_bind; [apply (safe_lift _ _ (fun _ => True)); trivial |].
    intros match_score _.
    destruct (Qeq_bool match_score 0); [apply IH, Hfresh |].
    eapply safe_bind; [apply (safe_lift _ _ (fun _ => True)); trivial |].
    intros distance_score _.
    eapply safe_bind; [apply safe_alloc |]. intros entry Hentry.
    apply IH. apply List.Forall_app.
    split; [exact Hfresh | repeat constructor; exact Hentry].
Qed.

Lemma safe_find_best_hub n victim_location requested_items hubs :
  safe n (Store.find_best_hub_for_request geodesic_km victim_location
            requested_items hubs)
    (fun r => forall a, r = Some a -> (n <= a)%nat).
Proof.
  unfold Store.find_best_hub_for_request.
  eapply safe_bind; [apply safe_scoring_loop; constructor |].
  intros scored_hubs Hfresh.
  eapply safe_bind; [apply safe_list_sort, Hfresh |].
  intros sorted Hsorted. apply safe_ret.
  intros a Ha. destruct sorted as [| a' t]; [discriminate |].
  injection Ha as ->. apply List.Forall_cons_iff in Hsorted as [Hfst _]. exact Hfst.
Qed.

Lemma safe_frame {A} (m : st A) (post : A -> Prop) (s : store) :
  safe (length s) m post ->
  (forall (a : addr) (d : hub), s !! a = Some d -> snd (m s) !! a = Some d)
  /\ (forall r, fst (m s) = Ok r -> post r).
Proof.
  intros Hsafe. destruct (Hsafe s (le_n _)) as [[new Hnew] Hpost].
  split; [| exact Hpost].
  intros a d Ha. rewrite Hnew. apply lookup_app_l_Some, Ha.
Qed.

(** C9.  A call of [find_nearby_hubs] or [find_best_hub_for_request],
    returning or raising, leaves every object of the store it starts from
    as it was, so the input list refers to the same hub records after the
    call as before; the records it returns, which carry the derived fields,
    are objects made during the call. *)
Theorem finders_leave_hubs_unchanged
    (location : Q * Q) (requested_items : inventory) (max_distance_km : Q)
    (hubs : list addr) (s : store) :
  let nearby := Store.find_nearby_hubs geodesic_km location hubs max_distance_km s in
  let best :=
    Store.find_best_hub_for_request geodesic_km location requested_items hubs s in
  (forall (a : addr) (h : hub), s !! a = Some h -> snd nearby !! a = Some h)
  /\ (forall hs, refers s hubs hs -> refers (snd nearby) hubs hs)
  /\ (forall out, fst nearby = Ok out ->
        List.Forall (fun a => (length s <= a)%nat) out)
  /\ (forall (a : addr) (h : hub), s !! a = Some h -> snd best !! a = Some h)
  /\ (forall hs, refers s hubs hs -> refers (snd best) hubs hs)
  /\ (forall a, fst best = Ok (Some a) -> (length s <= a)%nat).
Proof.
  intros nearby best.
  destruct (safe_frame _ _ s
              (safe_find_nearby_hubs (length s) location hubs max_distance_km))
    as [Hn1 Hn2].
  destruct (safe_frame _ _ s
              (safe_find_best_hub (length s) location requested_items hubs))
    as [Hb1 Hb2].
  split; [exact Hn1 |].
  split; [intros hs Hhs; eapply Forall2_impl; [exact Hhs | exact Hn1] |].
  split; [exact Hn2 |].
  split; [exact Hb1 |].
  split; [intros hs Hhs; eapply Forall2_impl; [exact Hhs | exact Hb1] |].
  intros a Ha. apply (Hb2 _ Ha). reflexivity.
Qed.

(** *** The store model computes what the value model computes *)

Section SortRel.

Context {A B : Type} (R : A -> B -> Prop).

Lemma insert_by_key_rel p q l k :
  key_rel R p q -> Forall2 (key_rel R) l k ->
  Forall2 (key_rel R) (insert_by_key p l) (insert_by_key q k).
Proof.
  intros Hpq Hlk. induction Hlk as [| p' q' l k Hpq' Hlk IH]; simpl.
  - constructor; [exact Hpq | constructor].
  - destruct Hpq as [Hk HR]. destruct Hpq' as [Hk' HR'].
    rewrite Hk, Hk'.
    destruct (Qlt_bool (fst q') (fst q)).
    + constructor; [split; assumption | exact IH].
    + constructor; [split; assumption |].
      constructor; [split; assumption | exact Hlk].
Qed.

Lemma stable_sort_rel l k :
  Forall2 (key_rel R) l k -> Forall2 (key_rel R) (stable_sort l) (stable_sort k).
Proof.
  induction 1 as [| p q l k Hpq _ IH]; simpl; [constructor |].
  apply insert_by_key_rel; assumption.
Qed.

Lemma Forall2_rev_rel (l : list (Q * A)) (k : list (Q * B)) :
  Forall2 (key_rel R) l k -> Forall2 (key_rel R) (rev l) (rev k).
Proof.
  induction 1 as [| p q l k Hpq _ IH]; simpl; [constructor |].
  apply Forall2_app; [exact IH | constructor; [exact Hpq | constructor]].
Qed.

Lemma sorted_core_rel (reverse : bool) l k :
  Forall2 (key_rel R) l k ->
  Forall2 R
    (map snd (if reverse then rev (stable_sort (rev l)) else stable_sort l))
    (map snd (if reverse then rev (stable_sort (rev k)) else stable_sort k)).
Proof.
  intros Hlk.
  assert (Hs : Forall2 (key_rel R)
                 (if reverse then rev (stable_sort (rev l)) else stable_sort l)
                 (if reverse then rev (stable_sort (rev k)) else stable_sort k)).
  { destruct reverse; [| apply stable_sort_rel, Hlk].
    apply Forall2_rev_rel, stable_sort_rel, Forall2_rev_rel, Hlk. }
  induction Hs as [| p q l' k' [_ HR] _ IH]; simpl; constructor; assumption.
Qed.

End SortRel.

Lemma refers_nil s : refers s [] [].
Proof. constructor. Qed.

Lemma refers_grow s new l ds : refers s l ds -> refers (s ++ new) l ds.
Proof.
  unfold refers. intros H. eapply Forall2_impl; [exact H |].
  intros a d Ha. apply lookup_app_l_Some, Ha.
Qed.

Lemma result_bind_ok {A B} (a : A) (f : A -> result B) : (Ok a ≫= f) = f a.
Proof. reflexivity. Qed.

Lemma result_bind_raise {A B} (e : exn) (f : A -> result B) :
  (Raise e ≫= f) = Raise e.
Proof. reflexivity. Qed.

Lemma run_bind {A B} (m : st A) (f : A -> st B) (s : store) :
  (m ≫= f) s = match m s with
               | (Ok a, s') => f a s'
               | (Raise e, s') => (Raise e, s')
               end.
Proof. reflexivity. Qed.

Lemma run_load_bind {B} (a : addr) (d : hub) (f : hub -> st B) (s : store) :
  s !! a = Some d -> (load a ≫= f) s = f d s.
Proof. intros Ha. rewrite run_bind. unfold load. rewrite Ha. reflexivity. Qed.

Lemma run_lift_ok {A B} (a : A) (f : A -> st B) (s : store) :
  (lift (Ok a) ≫= f) s = f a s.
Proof. reflexivity. Qed.

Lemma run_lift_raise {A B} (e : exn) (f : A -> st B) (s : store) :
  (lift (Raise e) ≫= f) s = (Raise e, s).
Proof. reflexivity. Qed.

Lemma run_copy_setitem {B} (src : addr) (h : hub) (key : string) (v : value)
    (f : addr -> st B) (s : store) :
  s !! src = Some h ->
  (a ← dict_copy src; _ ← setitem a key v; f a) s
  = f (length s) (s ++ [<[key := v]> h]).
Proof.
  intros Hh. unfold dict_copy. rewrite !run_bind. unfold load. rewrite Hh.
  unfold alloc, setitem. rewrite run_bind.
  rewrite lookup_app_r by lia. rewrite Nat.sub_diag. cbn [lookup list_lookup].
  rewrite insert_app_r_alt by lia. rewrite Nat.sub_diag. reflexivity.
Qed.

Lemma with_keys_refines (key : hub -> result Q) s l ds :
  refers s l ds ->
  match Hubs.with_keys key ds with
  | Ok keyed =>
      exists keyed_addrs,
        Store.with_keys key l s = (Ok keyed_addrs, s)
        /\ Forall2 (key_rel (fun a d => s !! a = Some d)) keyed_addrs keyed
  | Raise e => Store.with_keys key l s = (Raise e, s)
  end.
Proof.
  induction 1 as [| a d l ds Ha _ IH]; cbn [Hubs.with_keys Store.with_keys].
  - exists []. split; [reflexivity | constructor].
  - rewrite (run_load_bind _ _ _ _ Ha).
    destruct (key d) as [k|e];
      [rewrite result_bind_ok, run_lift_ok
      | rewrite result_bind_raise, run_lift_raise; reflexivity].
    rewrite run_bind.
    destruct (Hubs.with_keys key ds) as [keyed|e].
    + destruct IH as (keyed_addrs & -> & Hrel). rewrite result_bind_ok.
      exists ((k, a) :: keyed_addrs). split; [reflexivity |].
      constructor; [split; [reflexivity | exact Ha] | exact Hrel].
    + rewrite IH, result_bind_raise. reflexivity.
Qed.

Lemma list_sort_refines (key : hub -> result Q) (reverse : bool) s l ds :
  refers s l ds ->
  match Hubs.list_sort key reverse ds with
  | Ok out =>
      exists addrs,
        Store.list_sort key reverse l s = (Ok addrs, s) /\ refers s addrs out
  | Raise e => Store.list_sort key reverse l s = (Raise e, s)
  end.
Proof.
  intros Hl. pose proof (with_keys_refines key _ _ _ Hl) as Hk.
  unfold Hubs.list_sort, Store.list_sort. rewrite run_bind.
  destruct (Hubs.with_keys key ds) as [keyed|e].
  - destruct Hk as (keyed_addrs & -> & Hrel). rewrite result_bind_ok.
    eexists. split; [reflexivity |].
    apply (sorted_core_rel (fun a d => s !! a = Some d)), Hrel.
  - rewrite Hk, result_bind_raise. reflexivity.
Qed.

Lemma refers_snoc s l ds (d : hub) :
  refers s l ds -> refers (s ++ [d]) (l ++ [length s]) (ds ++ [d]).
Proof.
  intros Hl. apply Forall2_app; [apply refers_grow, Hl |].
  constructor; [| constructor]. apply list_lookup_middle. reflexivity.
Qed.

Lemma nearby_loop_refines location max_distance_km hubs :
  forall hs nearby ns s,
    refers s hubs hs -> refers s nearby ns ->
    match Hubs.nearby_loop geodesic_km location max_distance_km hs ns with
    | Ok out =>
        exists addrs new,
          Store.nearby_loop geodesic_km location max_distance_km hubs nearby s
          = (Ok addrs, s ++ new)
          /\ refers (s ++ new) addrs out
    | Raise e =>
        exists new,
          Store.nearby_loop geodesic_km location max_distance_km hubs nearby s
          = (Raise e, s ++ new)
    end.
Proof.
  induction hubs as [| hub rest IH]; intros hs nearby ns s Hhubs Hnearby.
  - apply Forall2_nil_inv_l in Hhubs as ->. simpl.
    exists nearby, []. rewrite app_nil_r. split; [reflexivity | exact Hnearby].
  - apply Forall2_cons_inv_l in Hhubs as (h & hs' & Hh & Hrest & ->).
    cbn [Hubs.nearby_loop Store.nearby_loop].
    rewrite (run_load_bind _ _ _ _ Hh).
    destruct (hub_distance geodesic_km location h) as [distance|e];
      [rewrite result_bind_ok, run_lift_ok
      | rewrite result_bind_raise, run_lift_raise;
        exists []; rewrite app_nil_r; reflexivity].
    destruct (Qle_bool distance max_distance_km); [| apply IH; assumption].
    rewrite (run_copy_setitem _ _ _ _ _ _ Hh).
    set (copy := <["distance_km" := VFloat (py_round distance 2)]> h).
    specialize (IH hs' (nearby ++ [length s]) (ns ++ [copy]) (s ++ [copy])
                  (refers_grow _ _ _ _ Hrest) (refers_snoc _ _ _ _ Hnearby)).
    destruct (Hubs.nearby_loop geodesic_km location max_distance_km hs'
                (ns ++ [copy])) as [out|e].
    + destruct IH as (addrs & new & Hrun & Hout).
      exists addrs, ([copy] ++ new). rewrite app_assoc.
      split; [exact Hrun | exact Hout].
    + destruct IH as (new & Hrun).
      exists ([copy] ++ new). rewrite app_assoc. exact Hrun.
Qed.

Lemma scoring_loop_refines victim_location requested_items hubs :
  forall hs scored_hubs entries s,
    refers s hubs hs -> refers s scored_hubs entries ->
    match Hubs.scoring_loop geodesic_km victim_location requested_items
            hs entries with
    | Ok out =>
        exists addrs new,
          Store.scoring_loop geodesic_km victim_location requested_items
            hubs scored_hubs s
          = (Ok addrs, s ++ new)
          /\ refers (s ++ new) addrs out
    | Raise e =>
        exists new,
          Store.scoring_loop geodesic_km victim_location requested_items
            hubs scored_hubs s
          = (Raise e, s ++ new)
    end.
Proof.
  induction hubs as [| hub rest IH]; intros hs scored_hubs entries s Hhubs Hsc.
  - apply Forall2_nil_inv_l in Hhubs as ->. simpl.
    exists scored_hubs, []. rewrite app_nil_r. split; [reflexivity | exact Hsc].
  - apply Forall2_cons_inv_l in Hhubs as (h & hs' & Hh & Hrest & ->).
    cbn [Hubs.scoring_loop Store.scoring_loop].
    rewrite (run_load_bind _ _ _ _ Hh).
    destruct (hub_distance geodesic_km victim_location h) as [distance|e];
      [rewrite result_bind_ok, run_lift_ok
      | rewrite result_bind_raise, run_lift_raise;
        exists []; rewrite app_nil_r; reflexivity].
    destruct (Qlt_bool 100 distance); [apply IH; assumption |].
    destruct (get_inventory h) as [available|e];
      [rewrite result_bind_ok, run_lift_ok
      | rewrite result_bind_raise, run_lift_raise;
        exists []; rewrite app_nil_r; reflexivity].
    destruct (calculate_match_score requested_items available) as [match_score|e];
      [rewrite result_bind_ok, run_lift_ok
      | rewrite result_bind_raise, run_lift_raise;
        exists []; rewrite app_nil_r; reflexivity].
    destruct (Qeq_bool match_score 0); [apply IH; assumption |].
    destruct (float_truediv 100 (1 + distance)) as [distance_score|e];
      [rewrite result_bind_ok, run_lift_ok
      | rewrite result_bind_raise, run_lift_raise;
        exists []; rewrite app_nil_r; reflexivity].
    rewrite run_bind. unfold alloc at 1.
    set (entry := scored h distance match_score
                    (combine match_score distance_score)).
    specialize (IH hs' (scored_hubs ++ [length s]) (entries ++ [entry])
                  (s ++ [entry])
                  (refers_grow _ _ _ _ Hrest) (refers_snoc _ _ _ _ Hsc)).
    destruct (Hubs.scoring_loop geodesic_km victim_location requested_items hs'
                (entries ++ [entry])) as [out|e].
    + destruct IH as (addrs & new & Hrun & Hout).
      exists addrs, ([entry] ++ new). rewrite app_assoc.
      split; [exact Hrun | exact Hout].
    + destruct IH as (new & Hrun).
      exists ([entry] ++ new). rewrite app_assoc. exact Hrun.
Qed.

(** On the hubs a list of addresses refers to, the store model returns
    addresses of the records the value model returns, and raises what it
    raises. *)
Lemma find_nearby_hubs_refines location hubs hs max_distance_km s :
  refers s hubs hs ->
  match Hubs.find_nearby_hubs geodesic_km location hs max_distance_km with
  | Ok out =>
      exists addrs s',
        Store.find_nearby_hubs geodesic_km location hubs max_distance_km s
        = (Ok addrs, s')
        /\ refers s' addrs out
  | Raise e =>
      exists s',
        Store.find_nearby_hubs geodesic_km location hubs max_distance_km s
        = (Raise e, s')
  end.
Proof.
  intros Hhubs.
  pose proof (nearby_loop_refines location max_distance_km hubs hs [] [] s
                Hhubs (refers_nil s)) as Hloop.
  unfold Hubs.find_nearby_hubs, Store.find_nearby_hubs.
  rewrite run_bind.
  destruct (Hubs.nearby_loop geodesic_km location max_distance_km hs [])
    as [nearby|e]; [rewrite result_bind_ok | rewrite result_bind_raise].
  - destruct Hloop as (addrs & new & -> & Hrefers).
    pose proof (list_sort_refines (field_key "distance_km") false _ _ _ Hrefers)
      as Hsort.
    destruct (Hubs.list_sort (field_key "distance_km") false nearby) as [out|e].
    + destruct Hsort as (sorted & -> & Hsorted). eauto.
    + rewrite Hsort. eauto.
  - destruct Hloop as (new & ->). eauto.
Qed.

Lemma find_best_hub_refines victim_location requested_items hubs hs s :
  refers s hubs hs ->
  match Hubs.find_best_hub_for_request geodesic_km victim_location
          requested_items hs with
  | Ok None =>
      exists s',
        Store.find_best_hub_for_request geodesic_km victim_location
          requested_items hubs s
        = (Ok None, s')
  | Ok (Some best) =>
      exists a s',
        Store.find_best_hub_for_request geodesic_km victim_location
          requested_items hubs s
        = (Ok (Some a), s')
        /\ s' !! a = Some best
  | Raise e =>
      exists s',
        Store.find_best_hub_for_request geodesic_km victim_location
          requested_items hubs s
        = (Raise e, s')
  end.
Proof.
  intros Hhubs.
  pose proof (scoring_loop_refines victim_location requested_items hubs hs [] [] s
                Hhubs (refers_nil s)) as Hloop.
  unfold Hubs.find_best_hub_for_request, Store.find_best_hub_for_request.
  rewrite run_bind.
  destruct (Hubs.scoring_loop geodesic_km victim_location requested_items hs [])
    as [entries|e]; [rewrite result_bind_ok | rewrite result_bind_raise].
  - destruct Hloop as (addrs & new & -> & Hrefers).
    pose proof (list_sort_refines (field_key "combined_score") true _ _ _ Hrefers)
      as Hsort.
    rewrite run_bind.
    destruct (Hubs.list_sort (field_key "combined_score") true entries)
      as [sorted|e]; [rewrite result_bind_ok | rewrite result_bind_raise].
    + destruct Hsort as (sorted_addrs & -> & Hsorted).
      destruct Hsorted as [| a best sorted_addrs sorted Ha _]; simpl; eauto.
    + rewrite Hsort. eauto.
  - destruct Hloop as (new & ->). eauto.
Qed.

End StoreFacts.

(** ** Facts about substrings *)

Section SubstringFacts.

Implicit Types needle hay text : string.

Lemma prefix_iff needle hay :
  String.prefix needle hay = true <-> exists post, hay = needle +:+ post.
Proof.
  revert hay. induction needle as [| c needle IH]; intros hay.
  - split; [intros _; exists hay; reflexivity |].
    intros _. destruct hay; reflexivity.
  - destruct hay as [| c' hay]; simpl.
    + split; [discriminate | intros [post Hp]; discriminate].
    + destruct (Ascii.ascii_dec c c') as [<- | Hne].
      * rewrite IH. split.
        -- intros [post ->]. exists post. reflexivity.
        -- intros [post [= ->]]. exists post. reflexivity.
      * split; [discriminate |]. intros [post [= Hc _]]. congruence.
Qed.

(** [contains] is the substring test. *)
Lemma contains_iff needle hay :
  contains needle hay = true <->
  exists pre post, hay = pre +:+ needle +:+ post.
Proof.
  induction hay as [| c hay IH]; cbn [contains].
  - rewrite prefix_iff. split.
    + intros [post Hp]. exists EmptyString, post. exact Hp.
    + intros (pre & post & Hp). destruct pre; [| discriminate].
      exists post. exact Hp.
  - rewrite orb_true_iff, IH, prefix_iff. split.
    + intros [[post Hp] | (pre & post & ->)].
      * exists EmptyString, post. exact Hp.
      * exists (String c pre), post. reflexivity.
    + intros (pre & post & Hp). destruct pre as [| c' pre].
      * left. exists post. exact Hp.
      * right. injection Hp as _ ->. exists pre, post. reflexivity.
Qed.

Lemma append_assoc (a b c : string) : (a +:+ b) +:+ c = a +:+ (b +:+ c).
Proof.
  induction a as [| x a IH]; [reflexivity |].
  change (String x ((a +:+ b) +:+ c) = String x (a +:+ (b +:+ c))).
  rewrite IH. reflexivity.
Qed.

(** A text that contains [outer] contains every substring of [outer]. *)
Lemma contains_trans inner outer text :
  contains inner outer = true -> contains outer text = true ->
  contains inner text = true.
Proof.
  rewrite !contains_iff.
  intros (p1 & q1 & ->) (p2 & q2 & ->).
  exists (p2 +:+ p1), (q1 +:+ q2).
  rewrite !append_assoc. reflexivity.
Qed.

Lemma any_in_iff (words : list string) text :
  any_in words text = true <->
  exists word, In word words /\ exists pre post, text = pre +:+ word +:+ post.
Proof.
  unfold any_in. rewrite existsb_exists.
  split; intros (word & Hin & Hc); exists word; (split; [exact Hin |]);
    apply contains_iff, Hc.
Qed.

Lemma any_in_false (words : list string) text word :
  any_in words text = false -> In word words -> contains word text = false.
Proof.
  intros Hnone Hin. destruct (contains word text) eqn:Hc; [| reflexivity].
  assert (Hany : any_in words text = true)
    by (apply existsb_exists; exists word; split; assumption).
  congruence.
Qed.

End SubstringFacts.

(** ** Facts about the keyword scan *)

Section ScanFacts.

(** The scan returns the label of the first entry with a keyword in the
    text, and ["unknown"] when there is none. *)
Lemma classify_loop_first (table : list (string * list string)) (text : string) :
  (exists before label words after,
      table = before ++ (label, words) :: after
      /\ List.Forall (no_match text) before
      /\ any_in words text = true
      /\ classify_loop table text = label)
  \/ (List.Forall (no_match text) table
      /\ classify_loop table text = "unknown").
Proof.
  induction table as [| [label words] table IH]; simpl.
  - right. split; [constructor | reflexivity].
  - destruct (any_in words text) eqn:Hany.
    + left. exists [], label, words, table.
      repeat split; [constructor | assumption].
    + destruct IH as [(before & l & w & after & -> & Hb & Hw & Hr) | [Hnone Hr]].
      * left. exists ((label, words) :: before), l, w, after.
        repeat split; try assumption. constructor; assumption.
      * right. split; [constructor; assumption | exact Hr].
Qed.

(** Splitting a list at one of its elements in two ways. *)
Lemma first_match_unique (table before before' after after' : list (string * list string))
    (e e' : string * list string) (text : string) :
  table = before ++ e :: after -> table = before' ++ e' :: after' ->
  List.Forall (no_match text) before -> ~ no_match text e ->
  ~ no_match text e' ->
  before = before' /\ e = e' \/ exists rest, before' = before ++ e :: rest.
Proof.
  revert table before'. induction before as [| b before IH];
    intros table before' -> Heq Hb He He'.
  - destruct before' as [| b' before'].
    + left. injection Heq as -> _. split; reflexivity.
    + right. injection Heq as -> _. exists before'. reflexivity.
  - apply List.Forall_cons_iff in Hb as [Hb0 Hb].
    destruct before' as [| b' before'].
    + injection Heq as <- _. contradiction.
    + injection Heq as <- Heq.
      destruct (IH _ before' eq_refl Heq Hb He He') as [[-> ->] | [rest ->]].
      * left. split; reflexivity.
      * right. exists rest. reflexivity.
Qed.

End ScanFacts.

(** ** The classifier: main results *)

Section ClassifierResults.

Variable lower : string -> string.

Abbreviation classify := (classify_disaster_type lower).

Lemma keywords_labels :
  map fst keywords =
  ["earthquake"; "flood"; "hurricane"; "wildfire"; "tornado"; "tsunami";
   "landslide"; "volcano"; "drought"; "blizzard"].
Proof. reflexivity. Qed.

Lemma unknown_not_a_label : ~ In "unknown" (map fst keywords).
Proof. rewrite keywords_labels. simpl. intuition discriminate. Qed.

(** C7.  The table is scanned in the order earthquake, flood, hurricane,
    wildfire, tornado, tsunami, landslide, volcano, drought, blizzard; the
    result is the label of the first category one of whose keywords is a
    substring of the lower-cased text, and ["unknown"] exactly when no
    keyword of any category is; a category that matches is beaten only by a
    category checked before it. *)
Theorem classify_disaster_type_first_match (tweet_text : string) :
  map fst keywords =
    ["earthquake"; "flood"; "hurricane"; "wildfire"; "tornado"; "tsunami";
     "landslide"; "volcano"; "drought"; "blizzard"]
  /\ (forall words,
        any_in words (lower tweet_text) = true <->
        exists word, In word words
          /\ exists pre post, lower tweet_text = pre +:+ word +:+ post)
  /\ (forall before label words after,
        keywords = before ++ (label, words) :: after ->
        List.Forall (no_match (lower tweet_text)) before ->
        any_in words (lower tweet_text) = true ->
        classify tweet_text = label)
  /\ (classify tweet_text = "unknown" <->
      List.Forall (no_match (lower tweet_text)) keywords)
  /\ (forall before label words after,
        keywords = before ++ (label, words) :: after ->
        any_in words (lower tweet_text) = true ->
        classify tweet_text = label
        \/ In (classify tweet_text) (map fst before)).
Proof.
  set (text := lower tweet_text).
  assert (Hfirst := classify_loop_first keywords text).
  fold (classify tweet_text) in Hfirst.
  change (classify_loop keywords text) with (classify tweet_text) in Hfirst.
  split; [reflexivity |].
  split; [intros words; apply any_in_iff |].
  split; [| split].
  - intros before label words after Hsplit Hbefore Hany.
    destruct Hfirst as [(b & l & w & a & Hsplit' & Hb & Hw & Hr) | [Hnone _]].
    + rewrite Hr.
      destruct (first_match_unique _ _ _ _ _ _ _ text Hsplit Hsplit' Hbefore)
        as [[_ He] | [rest ->]].
      * unfold no_match. simpl. congruence.
      * unfold no_match. simpl. congruence.
      * congruence.
      * apply List.Forall_app in Hb as [_ Hb].
        apply List.Forall_cons_iff in Hb as [Hb _].
        unfold no_match in Hb. simpl in Hb. congruence.
    + rewrite Hsplit in Hnone. apply List.Forall_app in Hnone as [_ Hnone].
      apply List.Forall_cons_iff in Hnone as [Hnone _].
      unfold no_match in Hnone. simpl in Hnone. congruence.
  - split.
    + intros Hu.
      destruct Hfirst as [(b & l & w & a & Hsplit & _ & _ & Hr) | [Hnone _]];
        [| exact Hnone].
      exfalso. apply unknown_not_a_label.
      rewrite Hsplit, map_app. apply in_or_app. right. left.
      simpl. congruence.
    + intros Hnone.
      destruct Hfirst as [(b & l & w & a & Hsplit & _ & Hw & _) | [_ Hr]];
        [| exact Hr].
      rewrite Hsplit in Hnone. apply List.Forall_app in Hnone as [_ Hnone].
      apply List.Forall_cons_iff in Hnone as [Hnone _].
      unfold no_match in Hnone. simpl in Hnone. congruence.
  - intros before label words after Hsplit Hany.
    destruct Hfirst as [(b & l & w & a & Hsplit' & Hb & Hw & Hr) | [Hnone _]].
    + rewrite Hr.
      destruct (first_match_unique _ _ _ _ _ _ _ text Hsplit' Hsplit Hb)
        as [[_ He] | [rest ->]].
      * unfold no_match. simpl. congruence.
      * unfold no_match. simpl. congruence.
      * left. congruence.
      * right. rewrite map_app. apply in_or_app. right. left. reflexivity.
    + rewrite Hsplit in Hnone. apply List.Forall_app in Hnone as [_ Hnone].
      apply List.Forall_cons_iff in Hnone as [Hnone _].
      unfold no_match in Hnone. simpl in Hnone. congruence.
Qed.

(** C8.  The tiers are tested in the order critical, high, medium: the
    result is the highest tier one of whose keywords is a substring of the
    lower-cased text, ["low"] when there is none; the function returns one
    of the four labels on every text, the empty one included. *)
Theorem assess_severity_highest_tier (tweet_text : string) :
  (any_in critical_keywords (lower tweet_text) = true ->
   assess_severity lower tweet_text = "critical")
  /\ (any_in critical_keywords (lower tweet_text) = false ->
      any_in high_keywords (lower tweet_text) = true ->
      assess_severity lower tweet_text = "high")
  /\ (any_in critical_keywords (lower tweet_text) = false ->
      any_in high_keywords (lower tweet_text) = false ->
      any_in medium_keywords (lower tweet_text) = true ->
      assess_severity lower tweet_text = "medium")
  /\ (any_in critical_keywords (lower tweet_text) = false ->
      any_in high_keywords (lower tweet_text) = false ->
      any_in medium_keywords (lower tweet_text) = false ->
      assess_severity lower tweet_text = "low")
  /\ (forall words,
        any_in words (lower tweet_text) = true <->
        exists word, In word words
          /\ exists pre post, lower tweet_text = pre +:+ word +:+ post)
  /\ In (assess_severity lower tweet_text) ["critical"; "high"; "medium"; "low"]
  /\ (lower "" = "" ->
      assess_severity lower "" = "low" /\ classify "" = "unknown").
Proof.
  unfold assess_severity.
  split; [intros ->; reflexivity |].
  split; [intros -> ->; reflexivity |].
  split; [intros -> -> ->; reflexivity |].
  split; [intros -> -> ->; reflexivity |].
  split; [intros words; apply any_in_iff |].
  split.
  - destruct (any_in critical_keywords (lower tweet_text));
      [simpl; tauto |].
    destruct (any_in high_keywords (lower tweet_text)); [simpl; tauto |].
    destruct (any_in medium_keywords (lower tweet_text)); simpl; tauto.
  - intros Hempty. unfold classify_disaster_type. rewrite Hempty.
    split; reflexivity.
Qed.

Lemma storm_in_snowstorm : contains "storm" "snowstorm" = true.
Proof. reflexivity. Qed.

Lemma storm_in_winter_storm : contains "storm" "winter storm" = true.
Proof. reflexivity. Qed.

(** The other two keywords of the blizzard category bring a keyword of the
    hurricane category with them. *)
Lemma blizzard_keywords_match_hurricane (text : string) :
  contains "snowstorm" text = true \/ contains "winter storm" text = true ->
  any_in ["hurricane"; "cyclone"; "typhoon"; "storm"] text = true.
Proof.
  intros Hb.
  assert (Hstorm : contains "storm" text = true).
  { destruct Hb as [Hb | Hb].
    - exact (contains_trans _ _ _ storm_in_snowstorm Hb).
    - exact (contains_trans _ _ _ storm_in_winter_storm Hb). }
  apply existsb_exists. exists "storm". split; [| exact Hstorm].
  simpl. tauto.
Qed.

(** C10, amended.  [classify_disaster_type] returns ["blizzard"] only if
    the lower-cased text contains ["blizzard"]: a text that contains
    ["snowstorm"] or ["winter storm"] contains ["storm"], a keyword of the
    hurricane category, and is classified ["hurricane"], unless a keyword of
    the earthquake or flood category, which are checked before, is in the
    text; then it is classified as that category: ["earthquake"] with an
    earthquake keyword, ["flood"] with a flood keyword and no earthquake
    keyword. *)
Theorem classify_blizzard_only_on_blizzard (tweet_text : string) :
  (classify tweet_text = "blizzard" ->
   contains "blizzard" (lower tweet_text) = true)
  /\ (contains "snowstorm" (lower tweet_text) = true
      \/ contains "winter storm" (lower tweet_text) = true ->
      contains "storm" (lower tweet_text) = true
      /\ (any_in ["earthquake"; "tremor"; "seismic"; "quake"] (lower tweet_text) = true ->
          classify tweet_text = "earthquake")
      /\ (any_in ["earthquake"; "tremor"; "seismic"; "quake"] (lower tweet_text) = false ->
          any_in ["flood"; "flooding"; "inundation"; "deluge"] (lower tweet_text) = true ->
          classify tweet_text = "flood")
      /\ (any_in ["earthquake"; "tremor"; "seismic"; "quake"] (lower tweet_text) = false ->
          any_in ["flood"; "flooding"; "inundation"; "deluge"] (lower tweet_text) = false ->
          classify tweet_text = "hurricane")).
Proof.
  set (text := lower tweet_text).
  assert (Hstorm : contains "snowstorm" text = true
                   \/ contains "winter storm" text = true ->
                   any_in ["hurricane"; "cyclone"; "typhoon"; "storm"] text = true)
    by apply blizzard_keywords_match_hurricane.
  unfold classify_disaster_type, keywords. fold text. cbn [classify_loop].
  split.
  - destruct (any_in ["earthquake"; "tremor"; "seismic"; "quake"] text);
      [discriminate |].
    destruct (any_in ["flood"; "flooding"; "inundation"; "deluge"] text);
      [discriminate |].
    destruct (any_in ["hurricane"; "cyclone"; "typhoon"; "storm"] text) eqn:Hh;
      [discriminate |].
    destruct (any_in ["wildfire"; "fire"; "blaze"; "burning"] text);
      [discriminate |].
    destruct (any_in ["tornado"; "twister"] text); [discriminate |].
    destruct (any_in ["tsunami"; "tidal wave"] text); [discriminate |].
    destruct (any_in ["landslide"; "mudslide"] text); [discriminate |].
    destruct (any_in ["volcano"; "volcanic"; "eruption"] text); [discriminate |].
    destruct (any_in ["drought"; "dry"; "water shortage"] text); [discriminate |].
    destruct (any_in ["blizzard"; "snowstorm"; "winter storm"] text) eqn:Hb;
      [| discriminate].
    intros _. unfold any_in in Hb. cbn [existsb] in Hb.
    apply orb_true_iff in Hb as [Hb | Hb]; [exact Hb |].
    apply orb_true_iff in Hb as [Hb | Hb];
      [specialize (Hstorm (or_introl Hb)); discriminate |].
    apply orb_true_iff in Hb as [Hb | Hb];
      [specialize (Hstorm (or_intror Hb)); discriminate | discriminate].
  - intros Hb. specialize (Hstorm Hb). rewrite Hstorm.
    split.
    { destruct Hb as [Hb | Hb].
      - exact (contains_trans _ _ _ storm_in_snowstorm Hb).
      - exact (contains_trans _ _ _ storm_in_winter_storm Hb). }
    split; [intros ->; reflexivity |].
    split; intros -> ->; reflexivity.
Qed.

End ClassifierResults.

(** ** The classifier on concrete inputs *)

(** Scenario 6 of the specification. *)
Example scenario_classification :
  classify_disaster_type ascii_lower tweet_quake = "earthquake"
  /\ assess_severity ascii_lower tweet_quake = "critical".
Proof. split; reflexivity. Qed.

Lemma classify_disaster_type_first_match_witness :
  classify_disaster_type ascii_lower "Twister and tidal wave warning" = "tornado".
Proof.
  apply (proj1 (proj2 (proj2 (classify_disaster_type_first_match ascii_lower
                                "Twister and tidal wave warning")))
           (firstn 4 keywords) "tornado" ["tornado"; "twister"] (skipn 5 keywords)).
  - reflexivity.
  - repeat constructor.
  - reflexivity.
Defined.

Lemma assess_severity_highest_tier_witness :
  assess_severity ascii_lower "Flood warning: catastrophic damage" = "critical".
Proof.
  apply (proj1 (assess_severity_highest_tier ascii_lower
                  "Flood warning: catastrophic damage")).
  reflexivity.
Defined.

Lemma classify_blizzard_only_on_blizzard_witness :
  classify_disaster_type ascii_lower "Winter Storm closes the pass" = "hurricane"
  /\ classify_disaster_type ascii_lower "Snowstorm after the flood" = "flood".
Proof.
  split.
  - apply (proj2 (proj2 (proj2 (proj2 (classify_blizzard_only_on_blizzard
                                        ascii_lower "Winter Storm closes the pass")
                                 (or_intror eq_refl))))).
    + reflexivity.
    + reflexivity.
  - apply (proj1 (proj2 (proj2 (proj2 (classify_blizzard_only_on_blizzard
                                        ascii_lower "Snowstorm after the flood")
                                 (or_introl eq_refl))))).
    + reflexivity.
    + reflexivity.
Defined.

(** C10, the claim as stated fails: a text with ["snowstorm"] and a flood
    keyword is classified ["flood"], not ["hurricane"]. *)
Lemma snowstorm_with_flood_is_flood :
  contains "snowstorm" (ascii_lower "Snowstorm after the flood") = true
  /\ classify_disaster_type ascii_lower "Snowstorm after the flood" = "flood"
  /\ classify_disaster_type ascii_lower "Snowstorm after the flood" <> "hurricane".
Proof. repeat split. discriminate. Qed.

(** ** The store model on concrete inputs *)

Lemma finders_leave_hubs_unchanged_witness :
  snd (Store.find_nearby_hubs grid_km origin [0%nat; 1%nat] 50 two_hubs) !! 0%nat
  = Some hub_east.
Proof.
  apply (proj1 (finders_leave_hubs_unchanged grid_km origin request_water 50
                  [0%nat; 1%nat] two_hubs)).
  reflexivity.
Defined.

(** The call returns two new objects, nearest first, and the two hubs are
    still in the store as they were. *)
Example find_nearby_hubs_in_store :
  Store.find_nearby_hubs grid_km origin [0%nat; 1%nat] 50 two_hubs
  = (Ok [3%nat; 2%nat],
     [hub_east; hub_a;
      with_distance grid_km origin hub_east; with_distance grid_km origin hub_a]).
Proof. by_evaluation. Qed.

(** ** More facts about the inventory matcher *)

Section MatchTotals.

Implicit Types requested available : inventory.

Lemma matched_quantity_bounds available item quantity :
  0 <= quantity -> 0 <= matched_quantity available item quantity <= quantity.
Proof.
  intros Hq. unfold matched_quantity.
  destruct (available !! item) as [stock|]; [| lia].
  destruct (bool_decide (stock > 0)) eqn:Hs; [| lia].
  apply bool_decide_eq_true in Hs. lia.
Qed.

(** The matched total, item by item. *)
Lemma sum_matched_insert requested available item quantity :
  requested !! item = None ->
  sum_values (match_items (<[item := quantity]> requested) available)
  = matched_quantity available item quantity
    + sum_values (match_items requested available).
Proof.
  intros Hfresh. rewrite match_items_insert by assumption.
  unfold matched_quantity.
  destruct (available !! item) as [stock|]; [| lia].
  destruct (bool_decide (stock > 0)); [| lia].
  apply sum_values_insert.
  rewrite match_items_lookup, Hfresh. reflexivity.
Qed.

Lemma sum_values_pointwise_le (m1 m2 : inventory) :
  nonneg m2 ->
  (forall item v, m1 !! item = Some v ->
                  exists w, m2 !! item = Some w /\ v <= w) ->
  sum_values m1 <= sum_values m2.
Proof.
  revert m2. induction m1 as [| item v m1 Hfresh IH] using map_ind;
    intros m2 Hm2 Hle.
  - rewrite sum_values_empty. apply sum_values_nonneg, Hm2.
  - destruct (Hle item v) as (w & Hw & Hvw); [apply lookup_insert_eq |].
    rewrite sum_values_insert by assumption.
    rewrite <- (insert_delete_id m2 item w Hw).
    rewrite sum_values_insert by apply lookup_delete_eq.
    assert (sum_values m1 <= sum_values (delete item m2)); [| lia].
    apply IH.
    + unfold nonneg in *. apply map_Forall_delete, Hm2.
    + intros item' v' Hv'.
      assert (item' <> item) by congruence.
      destruct (Hle item' v') as (w' & Hw' & Hvw');
        [rewrite lookup_insert_ne by congruence; exact Hv' |].
      exists w'. split; [| exact Hvw'].
      rewrite lookup_delete_ne by congruence. exact Hw'.
Qed.

Lemma sum_values_zero_iff (d : inventory) :
  nonneg d -> (sum_values d = 0 <-> forall item q, d !! item = Some q -> q = 0).
Proof.
  induction d as [| item q d Hfresh IH] using map_ind; intros Hd.
  - rewrite sum_values_empty. split; [| reflexivity].
    intros _ item q. rewrite lookup_empty. discriminate.
  - apply map_Forall_insert in Hd as [Hq Hd]; [| assumption].
    rewrite sum_values_insert by assumption.
    pose proof (sum_values_nonneg _ Hd) as Hs.
    specialize (IH Hd). split.
    + intros Hz item' q' Hq'.
      apply lookup_insert_Some in Hq' as [[_ <-] | [_ Hq']]; [lia |].
      exact (proj1 IH ltac:(lia) item' q' Hq').
    + intros Hall.
      assert (q = 0) by (apply (Hall item); apply lookup_insert_eq).
      assert (sum_values d = 0); [| lia].
      apply IH. intros item' q' Hq'. apply (Hall item').
      rewrite lookup_insert_ne by congruence. exact Hq'.
Qed.

Lemma sum_matched_full_iff requested available :
  nonneg requested ->
  (sum_values (match_items requested available) = sum_values requested
   <-> fully_covered requested available).
Proof.
  induction requested as [| item q requested Hfresh IH] using map_ind;
    intros Hreq.
  - rewrite match_items_empty_l. split; [| reflexivity].
    intros _ item q. rewrite lookup_empty. discriminate.
  - apply map_Forall_insert in Hreq as [Hq Hreq]; [| assumption].
    rewrite sum_matched_insert, sum_values_insert by assumption.
    pose proof (sum_matched_bounds requested available Hreq) as Hb.
    pose proof (matched_quantity_bounds available item q Hq) as Hm.
    specialize (IH Hreq). split.
    + intros Heq item' q' Hq' Hpos.
      apply lookup_insert_Some in Hq' as [[<- <-] | [Hne Hq']].
      * assert (Hfull : matched_quantity available item q = q) by lia.
        unfold matched_quantity in Hfull.
        destruct (available !! item) as [stock|]; [| lia].
        destruct (bool_decide (stock > 0)); [| lia].
        exists stock. split; [reflexivity | lia].
      * exact (proj1 IH ltac:(lia) item' q' Hq' Hpos).
    + intros Hcov.
      assert (Hrest : sum_values (match_items requested available)
                      = sum_values requested).
      { apply IH. intros item' q' Hq' Hpos. apply (Hcov item' q'); [| exact Hpos].
        rewrite lookup_insert_ne by congruence. exact Hq'. }
      assert (Hitem : matched_quantity available item q = q); [| lia].
      destruct (Z.eq_dec q 0) as [-> | Hnz]; [lia |].
      destruct (Hcov item q) as (stock & Hst & Hle);
        [apply lookup_insert_eq | lia |].
      unfold matched_quantity. rewrite Hst.
      rewrite bool_decide_eq_true_2 by lia. lia.
Qed.

Lemma sum_matched_zero_iff requested available :
  nonneg requested ->
  (sum_values (match_items requested available) = 0
   <-> nothing_in_stock requested available).
Proof.
  induction requested as [| item q requested Hfresh IH] using map_ind;
    intros Hreq.
  - rewrite match_items_empty_l, sum_values_empty. split; [| reflexivity].
    intros _ item q stock. rewrite lookup_empty. discriminate.
  - apply map_Forall_insert in Hreq as [Hq Hreq]; [| assumption].
    rewrite sum_matched_insert by assumption.
    pose proof (sum_matched_bounds requested available Hreq) as Hb.
    pose proof (matched_quantity_bounds available item q Hq) as Hm.
    specialize (IH Hreq). split.
    + intros Hz item' q' stock Hq' Hst Hpos.
      apply lookup_insert_Some in Hq' as [[<- <-] | [Hne Hq']].
      * assert (Hnone : matched_quantity available item q = 0) by lia.
        unfold matched_quantity in Hnone. rewrite Hst in Hnone.
        rewrite bool_decide_eq_true_2 in Hnone by assumption. lia.
      * exact (proj1 IH ltac:(lia) item' q' stock Hq' Hst Hpos).
    + intros Hnone.
      assert (Hrest : sum_values (match_items requested available) = 0).
      { apply IH. intros item' q' stock Hq' Hst Hpos.
        apply (Hnone item' q' stock); [| assumption ..].
        rewrite lookup_insert_ne by congruence. exact Hq'. }
      assert (Hitem : matched_quantity available item q = 0); [| lia].
      unfold matched_quantity.
      destruct (available !! item) as [stock|] eqn:Hst; [| reflexivity].
      destruct (bool_decide (stock > 0)) eqn:Hpos; [| reflexivity].
      apply bool_decide_eq_true in Hpos.
      rewrite (Hnone item q stock); [lia | apply lookup_insert_eq | assumption ..].
Qed.

Lemma matched_quantity_mono available available' item quantity :
  0 <= quantity -> nonneg available' ->
  stocks_at_least available available' ->
  matched_quantity available item quantity
  <= matched_quantity available' item quantity.
Proof.
  intros Hq Hnn Hmore. unfold matched_quantity.
  destruct (available !! item) as [stock|] eqn:Hst.
  - destruct (Hmore item stock Hst) as (stock' & -> & Hle).
    destruct (bool_decide (stock > 0)) eqn:Hpos.
    + apply bool_decide_eq_true in Hpos.
      rewrite bool_decide_eq_true_2 by lia. lia.
    + destruct (bool_decide (stock' > 0)) eqn:Hpos'; [| lia].
      apply bool_decide_eq_true in Hpos'. lia.
  - destruct (available' !! item) as [stock'|]; [| lia].
    destruct (bool_decide (stock' > 0)) eqn:Hpos'; [| lia].
    apply bool_decide_eq_true in Hpos'. lia.
Qed.

Lemma sum_matched_mono requested available available' :
  nonneg requested -> nonneg available' ->
  stocks_at_least available available' ->
  sum_values (match_items requested available)
  <= sum_values (match_items requested available').
Proof.
  intros Hreq Hnn Hmore.
  induction requested as [| item q requested Hfresh IH] using map_ind.
  - rewrite !match_items_empty_l. lia.
  - apply map_Forall_insert in Hreq as [Hq Hreq]; [| assumption].
    rewrite !sum_matched_insert by assumption.
    pose proof (matched_quantity_mono available available' item q Hq Hnn Hmore).
    specialize (IH Hreq). lia.
Qed.

End MatchTotals.

(** ** The inventory matcher: further results *)

(** X1.  On non-negative quantities the matched total is at least 0, at most
    the requested total and at most the total in stock. *)
Theorem match_total_within_request_and_stock (requested available : inventory) :
  nonneg requested -> nonneg available ->
  0 <= sum_values (match_items requested available)
  /\ sum_values (match_items requested available) <= sum_values requested
  /\ sum_values (match_items requested available) <= sum_values available.
Proof.
  intros Hreq Hav.
  pose proof (sum_matched_bounds requested available Hreq) as [H0 Hr].
  repeat split; try assumption.
  apply sum_values_pointwise_le; [exact Hav |].
  intros item v Hv. rewrite match_items_lookup in Hv.
  destruct (requested !! item) as [q|]; [| discriminate].
  destruct (available !! item) as [stock|]; [| discriminate].
  destruct (bool_decide (stock > 0)); [| discriminate].
  injection Hv as <-. exists stock. split; [reflexivity | lia].
Qed.

Lemma nonneg_singleton (item : string) (quantity : Z) :
  0 <= quantity -> nonneg {[item := quantity]}.
Proof. intros Hq. unfold nonneg. apply map_Forall_singleton. exact Hq. Qed.

Lemma nonneg_two (i1 i2 : string) (q1 q2 : Z) :
  0 <= q1 -> 0 <= q2 -> nonneg (<[i1 := q1]> {[i2 := q2]}).
Proof.
  intros H1 H2. unfold nonneg. apply map_Forall_insert_2; [exact H1 |].
  apply map_Forall_singleton. exact H2.
Qed.

Lemma match_total_within_request_and_stock_witness :
  0 <= sum_values (match_items {["water" := 50; "blankets" := 20]} {["water" := 25]})
  /\ sum_values (match_items {["water" := 50; "blankets" := 20]} {["water" := 25]})
     <= sum_values ({["water" := 50; "blankets" := 20]} : inventory)
  /\ sum_values (match_items {["water" := 50; "blankets" := 20]} {["water" := 25]})
     <= sum_values ({["water" := 25]} : inventory).
Proof.
  apply (match_total_within_request_and_stock
           {["water" := 50; "blankets" := 20]} {["water" := 25]}).
  - apply nonneg_two; lia.
  - apply nonneg_singleton; lia.
Defined.

(** X2.  For a request of non-negative quantities the matched total equals
    the requested total exactly when every item requested in a positive
    quantity is in stock in at least that quantity, and the score is then
    100.  The equivalence is on the integer totals: the score is a float,
    whose quotient is rounded, so that a score of 100 does not tell that
    the request is covered. *)
Theorem full_match_iff_fully_covered (requested available : inventory) :
  nonneg requested ->
  (sum_values (match_items requested available) = sum_values requested
   <-> fully_covered requested available)
  /\ (fully_covered requested available -> sum_values requested <> 0 ->
      exists score,
        calculate_match_score requested available = Ok score
        /\ (score == 100)%Q).
Proof.
  intros Hreq. split; [apply sum_matched_full_iff, Hreq |].
  intros Hfull Hsum.
  assert (Hne : requested <> ∅).
  { intros ->. rewrite sum_values_empty in Hsum. contradiction. }
  pose proof (sum_values_nonneg _ Hreq) as Hnn.
  rewrite (calculate_match_score_ok _ _ Hne Hsum).
  eexists. split; [reflexivity |].
  apply (sum_matched_full_iff _ _ Hreq) in Hfull. rewrite Hfull.
  assert (Htq : (0 < inject_Z (sum_values requested))%Q)
    by (rewrite <- (Zlt_Qlt 0); lia).
  field. lra.
Qed.

Lemma full_match_iff_fully_covered_witness :
  exists score,
    calculate_match_score {["water" := 50]} {["water" := 100]} = Ok score
    /\ (score == 100)%Q.
Proof.
  apply (proj2 (full_match_iff_fully_covered {["water" := 50]} {["water" := 100]}
                  (nonneg_singleton "water" 50 ltac:(lia)))).
  - intros item quantity Hq Hpos.
    apply lookup_singleton_Some in Hq as [<- <-].
    exists 100. split; [reflexivity | lia].
  - intros H. vm_compute in H. discriminate.
Defined.

(** X3.  For a request of non-negative quantities the matched total is 0
    exactly when no item requested in a positive quantity is in stock, and
    the score is then 0.  The equivalence is on the integer totals: the
    float quotient of a small matched total by a large requested total can
    be 0 as well. *)
Theorem no_match_iff_nothing_in_stock (requested available : inventory) :
  nonneg requested ->
  (sum_values (match_items requested available) = 0
   <-> nothing_in_stock requested available)
  /\ (nothing_in_stock requested available -> sum_values requested <> 0 ->
      exists score,
        calculate_match_score requested available = Ok score
        /\ (score == 0)%Q).
Proof.
  intros Hreq. split; [apply sum_matched_zero_iff, Hreq |].
  intros Hnone Hsum.
  assert (Hne : requested <> ∅).
  { intros ->. rewrite sum_values_empty in Hsum. contradiction. }
  pose proof (sum_values_nonneg _ Hreq) as Hnn.
  rewrite (calculate_match_score_ok _ _ Hne Hsum).
  eexists. split; [reflexivity |].
  apply (sum_matched_zero_iff _ _ Hreq) in Hnone. rewrite Hnone.
  assert (Htq : (0 < inject_Z (sum_values requested))%Q)
    by (rewrite <- (Zlt_Qlt 0); lia).
  change (inject_Z 0) with 0%Q. field. lra.
Qed.

Lemma no_match_iff_nothing_in_stock_witness :
  exists score,
    calculate_match_score {["water" := 50]} {["blankets" := 7]} = Ok score
    /\ (score == 0)%Q.
Proof.
  apply (proj2 (no_match_iff_nothing_in_stock {["water" := 50]} {["blankets" := 7]}
                  (nonneg_singleton "water" 50 ltac:(lia)))).
  - intros item quantity stock Hq Hst.
    apply lookup_singleton_Some in Hq as [<- <-].
    apply lookup_singleton_Some in Hst as [Hitem _]. discriminate.
  - intros H. vm_compute in H. discriminate.
Defined.

(** X4.  More stock never lowers the score: when [available'] stocks every
    item of [available] in at least the same quantity, the score against
    [available'] is at least the score against [available]. *)
Theorem match_score_monotone_in_stock
    (requested available available' : inventory) (score score' : Q) :
  nonneg requested -> nonneg available' ->
  stocks_at_least available available' ->
  calculate_match_score requested available = Ok score ->
  calculate_match_score requested available' = Ok score' ->
  (score <= score')%Q.
Proof.
  intros Hreq Hnn Hmore.
  unfold calculate_match_score, int_truediv.
  destruct (bool_decide (requested = ∅)); [intros [= <-] [= <-]; lra |].
  destruct (bool_decide (sum_values requested = 0)) eqn:Hs; [discriminate |].
  apply bool_decide_eq_false in Hs.
  simpl. intros [= <-] [= <-].
  pose proof (sum_values_nonneg _ Hreq) as Ht.
  pose proof (sum_matched_mono requested available available' Hreq Hnn Hmore) as Hm.
  assert (Htq : (0 < inject_Z (sum_values requested))%Q)
    by (rewrite <- (Zlt_Qlt 0); lia).
  apply Qmult_le_compat_r; [| lra].
  apply Qmult_le_compat_r; [rewrite <- Zle_Qle; exact Hm |].
  apply Qlt_le_weak, Qinv_lt_0_compat, Htq.
Qed.

Lemma match_score_monotone_in_stock_witness :
  ((2500 # 70) <= (5000 # 70))%Q.
Proof.
  apply (match_score_monotone_in_stock
           {["water" := 50; "blankets" := 20]} {["water" := 25]} {["water" := 60]}).
  - apply nonneg_two; lia.
  - apply nonneg_singleton; lia.
  - intros item stock Hst.
    apply lookup_singleton_Some in Hst as [<- <-].
    exists 60. split; [reflexivity | lia].
  - reflexivity.
  - reflexivity.
Defined.

(** X5.  Matching what was matched against the same inventory changes
    nothing. *)
Theorem match_items_idempotent (requested available : inventory) :
  match_items (match_items requested available) available
  = match_items requested available.
Proof.
  apply map_eq. intros item. rewrite !match_items_lookup.
  destruct (requested !! item) as [q|]; [| reflexivity].
  destruct (available !! item) as [stock|]; [| reflexivity].
  destruct (bool_decide (stock > 0)) eqn:Hpos; [| reflexivity].
  f_equal. lia.
Qed.

(** X6.  On non-negative quantities [calculate_match_score] raises exactly
    when the request is not empty and every quantity in it is 0, and what it
    raises is [ZeroDivisionError]. *)
Theorem calculate_match_score_raises_iff_all_zero
    (requested available : inventory) :
  nonneg requested ->
  (raises (calculate_match_score requested available) <->
   requested <> ∅ /\ forall item q, requested !! item = Some q -> q = 0)
  /\ (forall e, calculate_match_score requested available = Raise e ->
                e = ZeroDivisionError).
Proof.
  intros Hreq. split.
  - rewrite calculate_match_score_raises, sum_values_zero_iff by assumption.
    reflexivity.
  - unfold calculate_match_score, int_truediv.
    destruct (bool_decide (requested = ∅)); [discriminate |].
    destruct (bool_decide (sum_values requested = 0)); [| discriminate].
    intros e [= <-]. reflexivity.
Qed.

Lemma calculate_match_score_raises_iff_all_zero_witness :
  raises (calculate_match_score {["water" := 0; "blankets" := 0]} {["water" := 9]}).
Proof.
  apply (proj1 (calculate_match_score_raises_iff_all_zero
                  {["water" := 0; "blankets" := 0]} {["water" := 9]}
                  (nonneg_two _ _ _ _ (Z.le_refl 0) (Z.le_refl 0)))).
  split.
  - intros He. apply (f_equal (fun m => m !! "water")) in He. discriminate.
  - intros item q Hq.
    apply lookup_insert_Some in Hq as [[_ <-] | [_ Hq]]; [reflexivity |].
    apply lookup_singleton_Some in Hq as [_ <-]. reflexivity.
Defined.

(** ** More facts about [list.sort] *)

Section SortFilterFacts.

Context {A : Type}.

Lemma filter_insert_by_key (P : Q * A -> bool) (x : Q * A) (l : list (Q * A)) :
  StronglySorted key_le l ->
  List.filter P (insert_by_key x l)
  = if P x then insert_by_key x (List.filter P l) else List.filter P l.
Proof.
  induction 1 as [| y l Hs IH Hy]; simpl.
  - destruct (P x); reflexivity.
  - destruct (Qlt_bool (fst y) (fst x)) eqn:Hc; simpl.
    + rewrite IH. destruct (P y), (P x); simpl; try reflexivity.
      rewrite Hc. reflexivity.
    + destruct (P x) eqn:Hx; [| reflexivity].
      destruct (P y) eqn:Hpy; simpl; [rewrite Hc; reflexivity |].
      f_equal.
      apply Qlt_bool_false_iff in Hc.
      assert (Hall : List.Forall (fun z => (fst x <= fst z)%Q) (List.filter P l)).
      { apply List.Forall_forall. intros z Hz. apply List.filter_In in Hz as [Hz _].
        rewrite List.Forall_forall in Hy. specialize (Hy z Hz).
        unfold key_le in Hy. lra. }
      destruct (List.filter P l) as [| z t]; [reflexivity |].
      simpl. apply List.Forall_cons_iff in Hall as [Hz _].
      apply Qlt_bool_false_iff in Hz. rewrite Hz. reflexivity.
Qed.

Lemma filter_stable_sort (P : Q * A -> bool) (l : list (Q * A)) :
  List.filter P (stable_sort l) = stable_sort (List.filter P l).
Proof.
  induction l as [| x l IH]; [reflexivity |].
  simpl. rewrite filter_insert_by_key by apply stable_sort_sorted.
  rewrite IH. destruct (P x); reflexivity.
Qed.

(** Sorting and then dropping elements is dropping them and then sorting. *)
Lemma filter_sorted_by (kf : A -> Q) (P : A -> bool) (l : list A) :
  List.filter P (sorted_by kf false l) = sorted_by kf false (List.filter P l).
Proof.
  unfold sorted_by, keyed.
  rewrite List.filter_map_swap.
  rewrite filter_stable_sort. f_equal. f_equal.
  induction l as [| a l IH]; [reflexivity |].
  simpl. destruct (P a); simpl; rewrite IH; reflexivity.
Qed.

End SortFilterFacts.

(** ** The hub finders: further results *)

Section MoreFinderResults.

Variable geodesic_km : Q * Q -> Q * Q -> Q.

Lemma in_range_cons location max_distance_km h hubs :
  in_range geodesic_km location max_distance_km (h :: hubs)
  = (if within geodesic_km location max_distance_km h
     then [with_distance geodesic_km location h] else [])
    ++ in_range geodesic_km location max_distance_km hubs.
Proof.
  unfold in_range. cbn [List.filter].
  destruct (within geodesic_km location max_distance_km h); reflexivity.
Qed.

Lemma nearby_loop_app location max_distance_km before rest nearby :
  List.Forall (has_coordinates geodesic_km location) before ->
  nearby_loop geodesic_km location max_distance_km (before ++ rest) nearby
  = nearby_loop geodesic_km location max_distance_km rest
      (nearby ++ in_range geodesic_km location max_distance_km before).
Proof.
  intros Hwf. revert nearby.
  induction Hwf as [| h before [d Hd] _ IH]; intros nearby.
  - cbn [app]. unfold in_range. cbn [List.filter map]. rewrite app_nil_r.
    reflexivity.
  - cbn [app nearby_loop]. rewrite Hd. cbn [mbind result_bind].
    rewrite in_range_cons.
    replace (within geodesic_km location max_distance_km h)
      with (Qle_bool d max_distance_km)
      by (unfold within; rewrite (distance_of_ok _ _ _ _ Hd); reflexivity).
    destruct (Qle_bool d max_distance_km).
    + rewrite IH. rewrite app_assoc.
      unfold with_distance. rewrite (distance_of_ok _ _ _ _ Hd). reflexivity.
    + apply IH.
Qed.



End MoreFinderResults.



Section MoreBestHubResults.

Variable geodesic_km : Q * Q -> Q * Q -> Q.
Variable victim_location : Q * Q.
Variable requested_items : inventory.

Abbreviation best_hub := (find_best_hub_for_request geodesic_km victim_location requested_items).
Abbreviation scoring := (Scored geodesic_km victim_location requested_items).
Abbreviation is_kept := (kept geodesic_km victim_location requested_items).
Abbreviation is_excluded := (excluded geodesic_km victim_location requested_items).
Abbreviation wf_hub := (well_formed_hub geodesic_km victim_location).

Lemma best_hub_from_entries hubs best :
  best_hub hubs = Ok (Some best) ->
  exists h d m c, In h hubs /\ is_kept h d m c /\ best = scored h d m c.
Proof.
  intros Hbest.
  destruct (find_best_hub_sound _ _ _ _ _ Hbest) as (entries & Hsc & Hhead).
  assert (Hin : In best entries).
  { apply (Permutation_in _ (sorted_by_perm (float_field "combined_score") true entries)).
    destruct (sorted_by (float_field "combined_score") true entries);
      [discriminate |].
    injection Hhead as ->. left. reflexivity. }
  pose proof (Scored_entries _ _ _ _ _ Hsc) as Hall.
  rewrite List.Forall_forall in Hall.
  destruct (Hall _ Hin) as (h & Hh & d & m & c & Hk & ->).
  exists h, d, m, c. repeat split; assumption.
Qed.

(** X9.  The record returned by a finder has the fields of the hub it was
    made from: [find_nearby_hubs] changes [distance_km] only,
    [find_best_hub_for_request] changes [distance_km], [match_score] and
    [combined_score] only, and these are set, overwriting a field of that
    name the hub may have had. *)
Theorem finders_carry_hub_fields (hubs : list hub) (max_distance_km : Q) :
  (forall out,
      find_nearby_hubs geodesic_km victim_location hubs max_distance_km = Ok out ->
      List.Forall
        (fun o => exists h,
             In h hubs
             /\ (forall field, field <> "distance_km" -> o !! field = h !! field)
             /\ exists x, o !! "distance_km" = Some (VFloat x)) out)
  /\ (forall best,
        best_hub hubs = Ok (Some best) ->
        exists h,
          In h hubs
          /\ (forall field,
                field <> "distance_km" -> field <> "match_score" ->
                field <> "combined_score" -> best !! field = h !! field)
          /\ exists x y z,
              best !! "distance_km" = Some (VFloat x)
              /\ best !! "match_score" = Some (VFloat y)
              /\ best !! "combined_score" = Some (VFloat z)).
Proof.
  split.
  - intros out Hout.
    pose proof (find_nearby_hubs_inv _ _ _ _ _ Hout) as Hwf.
    rewrite (find_nearby_hubs_ok _ _ _ _ Hwf) in Hout. injection Hout as <-.
    apply List.Forall_forall. intros o Ho.
    apply (Permutation_in _ (sorted_by_perm _ false _)) in Ho.
    apply in_in_range in Ho as (h & Hin & -> & _).
    exists h. split; [exact Hin |]. split.
    + intros field Hne. apply with_distance_other, Hne.
    + eexists. unfold with_distance. apply lookup_insert_eq.
  - intros best Hbest.
    destruct (best_hub_from_entries _ _ Hbest) as (h & d & m & c & Hin & _ & ->).
    exists h. split; [exact Hin |]. split.
    + intros field H1 H2 H3. apply scored_other; assumption.
    + exists (py_round d 2), (py_round m 1), (py_round c 1). unfold scored.
      split; [| split].
      * rewrite !lookup_insert_ne by discriminate. apply lookup_insert_eq.
      * rewrite lookup_insert_ne by discriminate. apply lookup_insert_eq.
      * apply lookup_insert_eq.
Qed.


Lemma sum_values_nonzero_exists (d : inventory) :
  sum_values d <> 0 -> exists item v, d !! item = Some v /\ v <> 0.
Proof.
  induction d as [| item v d Hfresh IH] using map_ind.
  - rewrite sum_values_empty. contradiction.
  - rewrite sum_values_insert by assumption. intros Hs.
    destruct (Z.eq_dec v 0) as [-> | Hv].
    + destruct IH as (item' & v' & Hv' & Hnz); [lia |].
      exists item', v'. split; [| exact Hnz].
      rewrite lookup_insert_ne by congruence. exact Hv'.
    + exists item, v. split; [apply lookup_insert_eq | exact Hv].
Qed.

(** A non-zero score shows an item requested and in stock. *)
Lemma nonzero_score_item (available : inventory) (m : Q) :
  nonneg requested_items ->
  calculate_match_score requested_items available = Ok m -> ~ (m == 0)%Q ->
  exists item q stock,
    requested_items !! item = Some q /\ available !! item = Some stock
    /\ 0 < q /\ 0 < stock.
Proof.
  intros Hreq. unfold calculate_match_score, int_truediv.
  destruct (bool_decide (requested_items = ∅));
    [intros [= <-] Hnz; exfalso; apply Hnz; reflexivity |].
  destruct (bool_decide (sum_values requested_items = 0)); [discriminate |].
  simpl. intros [= <-] Hnz.
  assert (Hm : sum_values (match_items requested_items available) <> 0).
  { intros Hz. apply Hnz. rewrite Hz. unfold Qdiv.
    rewrite Qmult_0_l, Qmult_0_l. reflexivity. }
  destruct (sum_values_nonzero_exists _ Hm) as (item & v & Hv & Hvnz).
  rewrite match_items_lookup in Hv.
  destruct (requested_items !! item) as [q|] eqn:Hq; [| discriminate].
  destruct (available !! item) as [stock|] eqn:Hst; [| discriminate].
  destruct (bool_decide (stock > 0)) eqn:Hpos; [| discriminate].
  apply bool_decide_eq_true in Hpos. injection Hv as <-.
  pose proof (map_Forall_lookup_1 _ _ _ _ Hreq Hq) as Hq0. cbv beta in Hq0.
  exists item, q, stock.
  split; [exact Hq |]. split; [exact Hst |]. split; lia.
Qed.

(** X11.  The hub returned for a request of non-negative quantities stocks
    a positive quantity of an item requested in a positive quantity; in
    particular it has an [inventory] field, which is a dict. *)
Theorem find_best_hub_stocks_requested_item (hubs : list hub) (best : hub) :
  nonneg requested_items ->
  best_hub hubs = Ok (Some best) ->
  exists h available item q stock,
    In h hubs
    /\ (exists d m c, best = scored h d m c)
    /\ h !! "inventory" = Some (VDict available)
    /\ requested_items !! item = Some q /\ available !! item = Some stock
    /\ 0 < q /\ 0 < stock.
Proof.
  intros Hreq Hbest.
  destruct (best_hub_from_entries _ _ Hbest) as (h & d & m & c & Hin & Hk & ->).
  destruct Hk as (available & ds & _ & _ & Hinv & Hm & Hnz & _).
  destruct (nonzero_score_item available m Hreq Hm Hnz)
    as (item & q & stock & Hq & Hst & Hqpos & Hspos).
  exists h, available, item, q, stock.
  split; [exact Hin |]. split; [eauto |].
  split; [| repeat split; assumption].
  unfold get_inventory in Hinv.
  destruct (h !! "inventory") as [[| | | | inv]|]; try discriminate.
  - injection Hinv as ->. reflexivity.
  - injection Hinv as <-. rewrite lookup_empty in Hst. discriminate.
Qed.

Hypothesis geodesic_nonneg : forall a b, (0 <= geodesic_km a b)%Q.

Lemma hub_distance_nonneg h d :
  hub_distance geodesic_km victim_location h = Ok d -> (0 <= d)%Q.
Proof.
  unfold hub_distance, calculate_distance.
  destruct (getitem h "latitude") as [lat|]; [| discriminate].
  destruct (getitem h "longitude") as [lon|]; [| discriminate].
  cbn [mbind result_bind fst snd].
  destruct (as_float lat); [| discriminate].
  destruct (as_float lon); [| discriminate].
  cbn [mbind result_bind]. intros [= <-]. apply geodesic_nonneg.
Qed.

Lemma float_truediv_score d :
  (0 <= d)%Q -> float_truediv 100 (1 + d) = Ok (100 / (1 + d))%Q.
Proof.
  intros Hd. unfold float_truediv.
  destruct (Qeq_bool (1 + d) 0) eqn:Hz; [| reflexivity].
  apply Qeq_bool_iff in Hz. exfalso. lra.
Qed.

Lemma distance_score_bounds d :
  (0 <= d)%Q -> (0 < 100 / (1 + d) <= 100)%Q.
Proof.
  intros Hd. split.
  - apply Qlt_shift_div_l; lra.
  - apply Qle_shift_div_r; lra.
Qed.

Lemma distance_score_antitone d1 d2 :
  (0 <= d2)%Q -> (d2 <= d1)%Q -> (100 / (1 + d1) <= 100 / (1 + d2))%Q.
Proof.
  intros H2 H12.
  apply Qle_shift_div_l; [lra |].
  assert (H : (100 / (1 + d1) * (1 + d2) == 100 * ((1 + d2) / (1 + d1)))%Q)
    by (field; lra).
  rewrite H.
  assert (Hr : ((1 + d2) / (1 + d1) <= 1)%Q)
    by (apply Qle_shift_div_r; lra).
  assert (H0 : (0 <= (1 + d2) / (1 + d1))%Q)
    by (apply Qle_shift_div_l; lra).
  lra.
Qed.

(** X12.  For a request of non-negative quantities, the combined score of a
    hub that is kept lies in (0, 100], and so does not exceed 100 after
    rounding. *)
Theorem combined_score_bounds (h : hub) (d m c : Q) :
  nonneg requested_items ->
  is_kept h d m c ->
  (0 < c <= 100)%Q /\ (0 <= py_round c 1 <= 100)%Q.
Proof.
  intros Hreq (available & ds & Hd & _ & _ & Hm & Hnz & Hds & ->).
  pose proof (hub_distance_nonneg _ _ Hd) as Hd0.
  rewrite (float_truediv_score _ Hd0) in Hds. injection Hds as <-.
  pose proof (distance_score_bounds d Hd0) as [Hs0 Hs1].
  pose proof (calculate_match_score_bounds _ _ _ Hreq Hm) as [Hm0 Hm1].
  assert (Hmpos : (0 < m)%Q).
  { destruct (Qlt_le_dec 0 m) as [Hlt|Hle]; [exact Hlt |].
    exfalso. apply Hnz. lra. }
  assert (Hc : (0 < combine m (100 / (1 + d)) <= 100)%Q).
  { unfold combine. split; lra. }
  split; [exact Hc |]. split.
  - change 0%Q with (py_round 0 1). apply py_round_mono. lra.
  - apply py_round_le_100. lra.
Qed.

(** X13.  A better match at no greater distance scores at least as high:
    the combined score grows with the match score and falls with the
    distance, before and after rounding. *)
Theorem combined_score_monotone (h1 h2 : hub) (d1 m1 c1 d2 m2 c2 : Q) :
  is_kept h1 d1 m1 c1 -> is_kept h2 d2 m2 c2 ->
  (m1 <= m2)%Q -> (d2 <= d1)%Q ->
  (c1 <= c2)%Q /\ (py_round c1 1 <= py_round c2 1)%Q.
Proof.
  intros (av1 & ds1 & Hd1 & _ & _ & _ & _ & Hds1 & ->)
         (av2 & ds2 & Hd2 & _ & _ & _ & _ & Hds2 & ->) Hm Hd.
  pose proof (hub_distance_nonneg _ _ Hd1) as H1.
  pose proof (hub_distance_nonneg _ _ Hd2) as H2.
  rewrite (float_truediv_score _ H1) in Hds1. injection Hds1 as <-.
  rewrite (float_truediv_score _ H2) in Hds2. injection Hds2 as <-.
  pose proof (distance_score_antitone d1 d2 H2 Hd) as Hs.
  assert (Hc : (combine m1 (100 / (1 + d1)) <= combine m2 (100 / (1 + d2)))%Q)
    by (unfold combine; lra).
  split; [exact Hc | apply py_round_mono, Hc].
Qed.

Abbreviation near := (within_reach geodesic_km victim_location).

Lemma scoring_loop_zero_request hubs scored_hubs :
  requested_items <> ∅ -> sum_values requested_items = 0 ->
  List.Forall wf_hub hubs ->
  scoring_loop geodesic_km victim_location requested_items hubs scored_hubs
  = if existsb near hubs then Raise ZeroDivisionError else Ok scored_hubs.
Proof.
  intros Hne Hz Hwf. revert scored_hubs.
  induction Hwf as [| h hubs [[d Hd] [available Hav]] _ IH]; intros scored_hubs;
    [reflexivity |].
  cbn [scoring_loop existsb]. unfold within_reach at 1.
  rewrite (distance_of_ok _ _ _ _ Hd), Hd. cbn [mbind result_bind].
  destruct (Qlt_bool 100 d); [apply IH |].
  rewrite Hav. cbn [mbind result_bind negb orb].
  unfold calculate_match_score, int_truediv.
  rewrite bool_decide_eq_false_2 by assumption.
  rewrite bool_decide_eq_true_2 by assumption. reflexivity.
Qed.

Lemma good_request_scored hubs :
  requested_items = ∅ \/ sum_values requested_items <> 0 ->
  List.Forall wf_hub hubs ->
  exists entries, scoring hubs entries.
Proof.
  intros Hgood. induction 1 as [| h hubs [[d Hd] [available Hav]] _ IH].
  - exists []. constructor.
  - destruct IH as [entries Hsc].
    destruct (calculate_match_score_total requested_items available Hgood)
      as [m Hm].
    destruct (Qlt_le_dec 100 d) as [Hfar | Hnear].
    { exists entries. apply Scored_skip; [| exact Hsc].
      exists d. split; [exact Hd | left; exact Hfar]. }
    destruct (Qeq_bool m 0) eqn:Hz.
    { exists entries. apply Scored_skip; [| exact Hsc].
      exists d. split; [exact Hd |]. right. exists available, m.
      repeat split; try assumption. apply Qeq_bool_iff, Hz. }
    exists (scored h d m (combine m (100 / (1 + d))) :: entries).
    apply Scored_keep; [| exact Hsc].
    exists d, m, (combine m (100 / (1 + d))). split; [| reflexivity].
    exists available, (100 / (1 + d))%Q.
    repeat split; try assumption.
    + apply Qeq_bool_neq, Hz.
    + apply float_truediv_score, (hub_distance_nonneg _ _ Hd).
Qed.


End MoreBestHubResults.

(** ** The further results on concrete inputs *)

Lemma grid_km_nonneg (a b : Q * Q) : (0 <= grid_km a b)%Q.
Proof.
  unfold grid_km, degree_km.
  pose proof (Qabs_nonneg (fst a - fst b)).
  pose proof (Qabs_nonneg (snd a - snd b)).
  apply Qmult_le_0_compat; [discriminate | lra].
Qed.

Lemma has_coordinates_b : has_coordinates grid_km origin hub_b.
Proof. eexists. vm_compute. reflexivity. Qed.

Lemma well_formed_a_b :
  List.Forall (well_formed_hub grid_km origin) [hub_a; hub_b].
Proof.
  repeat constructor;
    first [apply has_coordinates_a | apply has_coordinates_b
          | eexists; vm_compute; reflexivity].
Qed.

Lemma nonneg_request_water : nonneg request_water.
Proof. apply nonneg_singleton. lia. Qed.

(** The locals of the two iterations of the loop over [hub_a], [hub_b]. *)
Lemma kept_a_b :
  exists da ma ca db mb cb,
    kept grid_km origin request_water hub_a da ma ca
    /\ kept grid_km origin request_water hub_b db mb cb
    /\ (ma <= mb)%Q /\ (db <= da)%Q.
Proof.
  eexists _, _, _, _, _, _.
  split.
  { eexists _, _.
    split; [vm_compute; reflexivity |].
    split; [vm_compute; discriminate |].
    split; [vm_compute; reflexivity |].
    split; [vm_compute; reflexivity |].
    split; [vm_compute; discriminate |].
    split; [vm_compute; reflexivity | reflexivity]. }
  split.
  { eexists _, _.
    split; [vm_compute; reflexivity |].
    split; [vm_compute; discriminate |].
    split; [vm_compute; reflexivity |].
    split; [vm_compute; reflexivity |].
    split; [vm_compute; discriminate |].
    split; [vm_compute; reflexivity | reflexivity]. }
  split; vm_compute; discriminate.
Qed.

Lemma finders_carry_hub_fields_witness :
  exists h,
    In h [hub_a; hub_b]
    /\ (forall field,
          field <> "distance_km" -> field <> "match_score" ->
          field <> "combined_score" -> best_of_a_b !! field = h !! field).
Proof.
  destruct (proj2 (finders_carry_hub_fields grid_km origin request_water
                     [hub_a; hub_b] 50) best_of_a_b find_best_hub_a_b)
    as (h & Hin & Hfields & _).
  exists h. split; assumption.
Defined.


Lemma find_best_hub_stocks_requested_item_witness :
  exists h available item q stock,
    In h [hub_a; hub_b]
    /\ h !! "inventory" = Some (VDict available)
    /\ request_water !! item = Some q /\ available !! item = Some stock
    /\ 0 < q /\ 0 < stock.
Proof.
  destruct (find_best_hub_stocks_requested_item grid_km origin request_water
              [hub_a; hub_b] best_of_a_b nonneg_request_water find_best_hub_a_b)
    as (h & available & item & q & stock & Hin & _ & Hinv & Hq & Hst & Hqp & Hsp).
  exists h, available, item, q, stock. repeat split; assumption.
Defined.

Lemma combined_score_bounds_witness :
  exists c,
    (exists d m, kept grid_km origin request_water hub_a d m c)
    /\ (0 < c <= 100)%Q /\ (0 <= py_round c 1 <= 100)%Q.
Proof.
  destruct kept_a_b as (da & ma & ca & _ & _ & _ & Ha & _).
  exists ca. split; [exists da, ma; exact Ha |].
  apply (combined_score_bounds grid_km origin request_water grid_km_nonneg
           hub_a da ma ca nonneg_request_water Ha).
Defined.

Lemma combined_score_monotone_witness :
  exists ca cb,
    (exists d m, kept grid_km origin request_water hub_a d m ca)
    /\ (exists d m, kept grid_km origin request_water hub_b d m cb)
    /\ (ca <= cb)%Q /\ (py_round ca 1 <= py_round cb 1)%Q.
Proof.
  destruct kept_a_b as (da & ma & ca & db & mb & cb & Ha & Hb & Hm & Hd).
  exists ca, cb.
  split; [exists da, ma; exact Ha |]. split; [exists db, mb; exact Hb |].
  apply (combined_score_monotone grid_km origin request_water grid_km_nonneg
           hub_a hub_b da ma ca db mb cb Ha Hb Hm Hd).
Defined.


(** ** The classifier: further results *)

Section MoreClassifierResults.

Lemma any_in_cons (word : string) (words : list string) (text : string) :
  any_in (word :: words) text = contains word text || any_in words text.
Proof. reflexivity. Qed.

(** A keyword that contains another keyword of the list adds nothing. *)
Lemma any_in_redundant (word inner : string) (words : list string)
    (text : string) :
  contains inner word = true -> In inner words ->
  any_in (word :: words) text = any_in words text.
Proof.
  intros Hin Hmem. rewrite any_in_cons.
  destruct (contains word text) eqn:Hw; [| reflexivity].
  symmetry. apply existsb_exists. exists inner. split; [exact Hmem |].
  exact (contains_trans _ _ _ Hin Hw).
Qed.

Lemma any_in_flood (text : string) :
  any_in ["flood"; "flooding"; "inundation"; "deluge"] text
  = any_in ["flood"; "inundation"; "deluge"] text.
Proof.
  rewrite !any_in_cons.
  destruct (contains "flood" text) eqn:Hf; [reflexivity |].
  destruct (contains "flooding" text) eqn:Hg; [| reflexivity].
  rewrite (contains_trans "flood" "flooding" text eq_refl Hg) in Hf.
  discriminate.
Qed.

Lemma any_in_blizzard (text : string) :
  any_in ["hurricane"; "cyclone"; "typhoon"; "storm"] text = false ->
  any_in ["blizzard"; "snowstorm"; "winter storm"] text
  = any_in ["blizzard"] text.
Proof.
  intros Hh. rewrite !any_in_cons.
  destruct (contains "blizzard" text); [reflexivity |].
  destruct (contains "snowstorm" text) eqn:Hs.
  { pose proof (blizzard_keywords_match_hurricane (fun s => s) text (or_introl Hs)).
    congruence. }
  destruct (contains "winter storm" text) eqn:Hw; [| reflexivity].
  pose proof (blizzard_keywords_match_hurricane (fun s => s) text (or_intror Hw)).
  congruence.
Qed.

Variable lower : string -> string.

(** X15.  Five keywords of the table never decide: [earthquake], [flooding]
    and [wildfire] contain a keyword of their own category, [snowstorm] and
    [winter storm] one of the hurricane category.  The classification is
    the one of the table without them. *)
Theorem classify_with_essential_keywords (tweet_text : string) :
  classify_disaster_type lower tweet_text
  = classify_loop essential_keywords (lower tweet_text).
Proof.
  unfold classify_disaster_type, keywords, essential_keywords.
  set (text := lower tweet_text). cbn [classify_loop].
  rewrite (any_in_redundant "earthquake" "quake") by (simpl; tauto).
  rewrite any_in_flood.
  rewrite (any_in_redundant "wildfire" "fire") by (simpl; tauto).
  destruct (any_in ["tremor"; "seismic"; "quake"] text); [reflexivity |].
  destruct (any_in ["flood"; "inundation"; "deluge"] text); [reflexivity |].
  destruct (any_in ["hurricane"; "cyclone"; "typhoon"; "storm"] text) eqn:Hh;
    [reflexivity |].
  rewrite (any_in_blizzard text Hh). reflexivity.
Qed.

(** The result in terms of the position of the first match. *)
Lemma classify_loop_index (table : list (string * list string)) (text : string) :
  classify_loop table text
  = nth (first_match_index table text) (map fst table) "unknown".
Proof.
  induction table as [| [label words] table IH]; [reflexivity |].
  simpl. destruct (any_in words text); [reflexivity | exact IH].
Qed.

Lemma first_match_index_mono (table : list (string * list string))
    (text text' : string) :
  (forall word, contains word text = true -> contains word text' = true) ->
  (first_match_index table text' <= first_match_index table text)%nat.
Proof.
  intros Hmono. induction table as [| [label words] table IH]; [reflexivity |].
  simpl. destruct (any_in words text) eqn:Hany.
  - apply existsb_exists in Hany as (word & Hin & Hc).
    assert (Hany' : any_in words text' = true)
      by (apply existsb_exists; exists word; split; [exact Hin | apply Hmono, Hc]).
    rewrite Hany'. reflexivity.
  - destruct (any_in words text'); lia.
Qed.

Lemma contains_append_l (word a b : string) :
  contains word a = true -> contains word (a +:+ b) = true.
Proof.
  rewrite !contains_iff. intros (pre & post & ->).
  exists pre, (post +:+ b). rewrite !append_assoc. reflexivity.
Qed.

Lemma contains_append_r (word a b : string) :
  contains word b = true -> contains word (a +:+ b) = true.
Proof.
  rewrite !contains_iff. intros (pre & post & ->).
  exists (a +:+ pre), post. rewrite !append_assoc. reflexivity.
Qed.

Lemma any_in_mono (words : list string) (text text' : string) :
  (forall word, contains word text = true -> contains word text' = true) ->
  any_in words text = true -> any_in words text' = true.
Proof.
  intros Hmono Hany. apply existsb_exists in Hany as (word & Hin & Hc).
  apply existsb_exists. exists word. split; [exact Hin | apply Hmono, Hc].
Qed.

Lemma severity_rank_mono (text text' : string) :
  (forall word, contains word text = true -> contains word text' = true) ->
  (severity_rank
     (if any_in critical_keywords text then "critical"
      else if any_in high_keywords text then "high"
      else if any_in medium_keywords text then "medium" else "low")
   <= severity_rank
        (if any_in critical_keywords text' then "critical"
         else if any_in high_keywords text' then "high"
         else if any_in medium_keywords text' then "medium" else "low"))%nat.
Proof.
  intros Hmono.
  pose proof (any_in_mono critical_keywords _ _ Hmono) as Hc.
  pose proof (any_in_mono high_keywords _ _ Hmono) as Hh.
  pose proof (any_in_mono medium_keywords _ _ Hmono) as Hm.
  destruct (any_in critical_keywords text), (any_in critical_keywords text'),
    (any_in high_keywords text), (any_in high_keywords text'),
    (any_in medium_keywords text), (any_in medium_keywords text');
    try discriminate (Hc eq_refl); try discriminate (Hh eq_refl);
    try discriminate (Hm eq_refl); vm_compute; lia.
Qed.

Hypothesis lower_append :
  forall a b, lower (a +:+ b) = lower a +:+ lower b.

(** X16.  Joining two texts never lowers the severity: the severity of
    [a +:+ b] is at least the severity of [a] and of [b] in the order
    low, medium, high, critical. *)
Theorem assess_severity_of_joined_texts (a b : string) :
  (severity_rank (assess_severity lower a)
   <= severity_rank (assess_severity lower (a +:+ b)))%nat
  /\ (severity_rank (assess_severity lower b)
      <= severity_rank (assess_severity lower (a +:+ b)))%nat.
Proof.
  unfold assess_severity. rewrite lower_append. split.
  - apply severity_rank_mono. intros word. apply contains_append_l.
  - apply severity_rank_mono. intros word. apply contains_append_r.
Qed.

(** X17.  Joining two texts never moves the disaster type down the table:
    the category found for [a +:+ b] is the one found for [a] or for [b],
    or one checked before both. *)
Theorem classify_joined_texts (a b : string) :
  let position text := first_match_index keywords (lower text) in
  (position (a +:+ b) <= Nat.min (position a) (position b))%nat
  /\ (forall text,
        classify_disaster_type lower text
        = nth (position text) (map fst keywords) "unknown").
Proof.
  intros position. split.
  - unfold position. rewrite lower_append. apply Nat.min_glb.
    + apply first_match_index_mono. intros word. apply contains_append_l.
    + apply first_match_index_mono. intros word. apply contains_append_r.
  - intros text. apply classify_loop_index.
Qed.

End MoreClassifierResults.

Lemma lower_char_ascii_lower_append (a b : string) :
  ascii_lower (a +:+ b) = ascii_lower a +:+ ascii_lower b.
Proof.
  induction a as [| c a IH]; [reflexivity |].
  change (String (lower_char c) (ascii_lower (a +:+ b))
          = String (lower_char c) (ascii_lower a +:+ ascii_lower b)).
  rewrite IH. reflexivity.
Qed.

Lemma assess_severity_of_joined_texts_witness :
  (severity_rank (assess_severity ascii_lower "Flood warning")
   <= severity_rank (assess_severity ascii_lower ("Flood warning" +:+ ", many killed")))%nat.
Proof.
  apply (proj1 (assess_severity_of_joined_texts ascii_lower
                  lower_char_ascii_lower_append "Flood warning" ", many killed")).
Defined.

Lemma classify_joined_texts_witness :
  (first_match_index keywords (ascii_lower ("Tidal wave" +:+ " after the quake"))
   <= Nat.min (first_match_index keywords (ascii_lower "Tidal wave"))
              (first_match_index keywords (ascii_lower " after the quake")))%nat.
Proof.
  apply (proj1 (classify_joined_texts ascii_lower lower_char_ascii_lower_append
                  "Tidal wave" " after the quake")).
Defined.

(** X18.  The two labels fit the columns they are stored in: a disaster
    type has at most 100 characters, a severity at most 20. *)
Theorem labels_fit_columns (lower : string -> string) (tweet_text : string) :
  (String.length (classify_disaster_type lower tweet_text)
   <= disaster_type_column_length)%nat
  /\ (String.length (assess_severity lower tweet_text)
      <= severity_column_length)%nat.
Proof.
  split.
  - unfold classify_disaster_type, keywords. cbn [classify_loop].
    repeat match goal with
           | |- context [if ?c then _ else _] => destruct c
           end; vm_compute; lia.
  - unfold assess_severity.
    repeat match goal with
           | |- context [if ?c then _ else _] => destruct c
           end; vm_compute; lia.
Qed.

(** ** Location extraction: results *)

Section ExtractionResults.

Variable nlp : string -> result (list (string * string)).

Lemma head_filter_first {A} (P : A -> bool) (l : list A) :
  (exists before x after,
      l = before ++ x :: after /\ List.Forall (fun y => P y = false) before
      /\ P x = true /\ head (List.filter P l) = Some x)
  \/ (List.Forall (fun y => P y = false) l /\ List.filter P l = []).
Proof.
  induction l as [| y l IH]; [right; split; [constructor | reflexivity] |].
  simpl. destruct (P y) eqn:Hy.
  - left. exists [], y, l. repeat split; [constructor | exact Hy].
  - destruct IH as [(before & x & after & -> & Hb & Hx & Hh) | [Hall Hnil]].
    + left. exists (y :: before), x, after.
      repeat split; try assumption. constructor; assumption.
    + right. split; [constructor; assumption | exact Hnil].
Qed.

(** X19.  [extract_location_from_tweet] returns the text of the first
    entity labelled [LOC] or [GPE], in the order the model lists them, and
    [None] exactly when no entity has one of the two labels; an exception
    of the model is not caught. *)
Theorem extract_location_first_loc_or_gpe (tweet_text : string) :
  (forall e, nlp tweet_text = Raise e ->
             extract_location_from_tweet nlp tweet_text = Raise e)
  /\ (forall ents,
        nlp tweet_text = Ok ents ->
        (forall before text label after,
            ents = before ++ (text, label) :: after ->
            List.Forall not_a_location before ->
            label = "LOC" \/ label = "GPE" ->
            extract_location_from_tweet nlp tweet_text = Ok (Some text))
        /\ (extract_location_from_tweet nlp tweet_text = Ok None
            <-> List.Forall not_a_location ents)).
Proof.
  unfold extract_location_from_tweet. split.
  - intros e ->. reflexivity.
  - intros ents ->. cbn [mbind result_bind]. split.
    + intros before text label after -> Hbefore Hlabel.
      rewrite List.filter_app.
      assert (Hnone : List.filter (fun ent => is_location_label (snd ent)) before = []).
      { clear -Hbefore. induction Hbefore as [| ent before Hent _ IH];
          [reflexivity |].
        simpl. unfold not_a_location in Hent. rewrite Hent. exact IH. }
      rewrite Hnone. cbn [app List.filter snd].
      assert (Hl : is_location_label label = true)
        by (destruct Hlabel as [-> | ->]; reflexivity).
      rewrite Hl. reflexivity.
    + destruct (head_filter_first (fun ent => is_location_label (snd ent)) ents)
        as [(before & x & after & -> & Hb & Hx & Hh) | [Hall Hnil]].
      * split.
        -- intros [= Hnone]. destruct (List.filter _ _) as [| z t] eqn:Hf;
             [discriminate | discriminate].
        -- intros Hall. apply List.Forall_app in Hall as [_ Hall].
           apply List.Forall_cons_iff in Hall as [Hx' _].
           unfold not_a_location in Hx'. congruence.
      * rewrite Hnil. split; [intros _; exact Hall | reflexivity].
Qed.

End ExtractionResults.

Lemma extract_location_first_loc_or_gpe_witness :
  extract_location_from_tweet sample_nlp "Red Cross teams reach Tokyo, Japan"
  = Ok (Some "Tokyo").
Proof.
  apply (proj1 (proj2 (extract_location_first_loc_or_gpe sample_nlp
                         "Red Cross teams reach Tokyo, Japan")
                  _ eq_refl)
           [("Red Cross", "ORG")] "Tokyo" "GPE" [("Japan", "GPE")]).
  - reflexivity.
  - repeat constructor.
  - right. reflexivity.
Defined.

(** ** The hub table and the handlers: results *)

Section HubRowResults.

Variable geodesic_km : Q * Q -> Q * Q -> Q.

Lemma hub_distance_to_dict location r :
  hub_distance geodesic_km location (hub_to_dict r)
  = Ok (row_distance geodesic_km location r).
Proof. reflexivity. Qed.

Lemma get_inventory_to_dict r :
  get_inventory (hub_to_dict r) = Ok (default ∅ (hub_inventory r)).
Proof. reflexivity. Qed.

Lemma id_to_dict r : hub_to_dict r !! "id" = Some (VInt (hub_id r)).
Proof. reflexivity. Qed.

Lemma has_coordinates_to_dict location rows :
  List.Forall (has_coordinates geodesic_km location) (map hub_to_dict rows).
Proof.
  apply List.Forall_forall. intros h Hh.
  apply in_map_iff in Hh as (r & <- & _).
  eexists. apply hub_distance_to_dict.
Qed.

Lemma well_formed_to_dict location rows :
  List.Forall (well_formed_hub geodesic_km location) (map hub_to_dict rows).
Proof.
  apply List.Forall_forall. intros h Hh.
  apply in_map_iff in Hh as (r & <- & _). split.
  - eexists. apply hub_distance_to_dict.
  - eexists. apply get_inventory_to_dict.
Qed.

Lemma distance_of_to_dict location r :
  distance_of geodesic_km location (hub_to_dict r)
  = row_distance geodesic_km location r.
Proof. apply distance_of_ok, hub_distance_to_dict. Qed.

Lemma filter_within_to_dict location max_distance_km rows :
  List.filter (within geodesic_km location max_distance_km) (map hub_to_dict rows)
  = map hub_to_dict
      (List.filter (row_within geodesic_km location max_distance_km) rows).
Proof.
  rewrite List.filter_map_swap. f_equal.
Qed.

(** What [find_nearby_hubs] returns on the dicts of hub rows. *)
Lemma nearby_rows location max_distance_km rows :
  exists out,
    find_nearby_hubs geodesic_km location (map hub_to_dict rows) max_distance_km
    = Ok out
    /\ length out
       = length (List.filter (row_within geodesic_km location max_distance_km) rows)
    /\ StronglySorted
         (fun a b => (float_field "distance_km" a <= float_field "distance_km" b)%Q)
         out
    /\ List.Forall
         (fun o => exists r,
              In r rows
              /\ o !! "id" = Some (VInt (hub_id r))
              /\ (row_distance geodesic_km location r <= max_distance_km)%Q
              /\ o !! "distance_km"
                 = Some (VFloat (py_round (row_distance geodesic_km location r) 2)))
         out.
Proof.
  rewrite (find_nearby_hubs_ok _ _ _ _ (has_coordinates_to_dict location rows)).
  eexists. split; [reflexivity |].
  pose proof (sorted_by_perm (float_field "distance_km") false
                (in_range geodesic_km location max_distance_km
                   (map hub_to_dict rows))) as Hperm.
  split; [| split].
  - rewrite (Permutation_length Hperm). unfold in_range.
    rewrite filter_within_to_dict, !length_map. reflexivity.
  - apply sorted_by_ascending.
  - apply List.Forall_forall. intros o Ho.
    apply (Permutation_in _ Hperm) in Ho.
    apply in_in_range in Ho as (h & Hin & -> & Hle).
    apply in_map_iff in Hin as (r & <- & Hr).
    rewrite distance_of_to_dict in Hle.
    exists r. split; [exact Hr |]. split; [| split; [exact Hle |]].
    + rewrite with_distance_other by discriminate. apply id_to_dict.
    + unfold with_distance. rewrite distance_of_to_dict. apply lookup_insert_eq.
Qed.

(** X20.  On the dicts that [Hub.to_dict] makes of rows of the hub table,
    for a point and rows whose latitudes [geodesic] accepts,
    [find_nearby_hubs] returns, whatever else the rows hold (an [inventory]
    that is [NULL] included): one record per row within the radius, with
    the [id] of its row and the rounded distance of its row. *)
Theorem find_nearby_hubs_on_hub_rows
    (location : Q * Q) (max_distance_km : Q) (rows : list hub_row) :
  valid_latitude (fst location) ->
  List.Forall (fun r => valid_latitude (hub_latitude r)) rows ->
  exists out,
    find_nearby_hubs geodesic_km location (map hub_to_dict rows) max_distance_km
    = Ok out
    /\ length out
       = length (List.filter (row_within geodesic_km location max_distance_km) rows)
    /\ List.Forall
         (fun o => exists r,
              In r rows
              /\ valid_latitude (hub_latitude r)
              /\ o !! "id" = Some (VInt (hub_id r))
              /\ (row_distance geodesic_km location r <= max_distance_km)%Q
              /\ o !! "distance_km"
                 = Some (VFloat (py_round (row_distance geodesic_km location r) 2)))
         out.
Proof.
  intros _ Hvalid.
  destruct (nearby_rows location max_distance_km rows)
    as (out & Hout & Hlen & _ & Hall).
  exists out. split; [exact Hout |]. split; [exact Hlen |].
  eapply List.Forall_impl; [| exact Hall].
  intros o (r & Hin & Hid & Hle & Hd).
  exists r. split; [exact Hin |].
  split; [exact (proj1 (List.Forall_forall _ _) Hvalid r Hin) |].
  repeat split; assumption.
Qed.

End HubRowResults.

Section HandlerResults.

Variable DB : Type.
Variable row : Type.
Variable query_hubs : DB -> result (list hub_row).
Variable commit_event : DB -> event_args -> result DB.
Variable refresh_event : DB -> event_args -> result Z.
Variable close_session : DB -> result unit.
Variable commit_request : DB -> request_args -> result DB.
Variable refresh_request : DB -> request_args -> result row.
Variable nlp : string -> result (list (string * string)).
Variable geocode : option string -> result (option (Q * Q)).
Variable geodesic_km : Q * Q -> Q * Q -> Q.
Variable lower : string -> string.

Abbreviation predict :=
  (predict_location DB query_hubs commit_event refresh_event close_session
     nlp geocode geodesic_km lower).
Abbreviation victim_post_handler :=
  (manage_victim_requests_post DB row query_hubs commit_request refresh_request
     geocode geodesic_km).

(** The event [predict_location] builds for a tweet. *)
Abbreviation event_of text location latitude longitude nearby_hubs :=
  {| ev_tweet_text := text; ev_detected_location := location;
     ev_latitude := latitude; ev_longitude := longitude;
     ev_disaster_type := classify_disaster_type lower text;
     ev_severity := assess_severity lower text;
     ev_nearby_hubs_count := length nearby_hubs |}.

(** [predict_location] from the point where the event is built. *)
Lemma predict_location_reaches_commit text location latitude longitude
    all_hubs nearby_hubs db :
  text <> "" ->
  extract_location_from_tweet nlp text = Ok (Some location) ->
  location <> "" ->
  geocode_location geocode (Some location) = Some (latitude, longitude) ->
  query_hubs db = Ok all_hubs ->
  find_nearby_hubs geodesic_km (latitude, longitude)
    (map hub_to_dict all_hubs) 100 = Ok nearby_hubs ->
  predict (Some text) db
  = match commit_event db
            (event_of text location latitude longitude nearby_hubs) with
    | Raise e => (PredictFailed e, db)
    | Ok db' =>
        match refresh_event db'
                (event_of text location latitude longitude nearby_hubs) with
        | Raise e => (PredictFailed e, db')
        | Ok event_id =>
            match close_session db' with
            | Raise e => (PredictFailed e, db')
            | Ok _ =>
                (Predicted location latitude longitude
                   (classify_disaster_type lower text)
                   (assess_severity lower text) nearby_hubs text event_id, db')
            end
        end
    end.
Proof.
  intros Ht Hext Hloc Hgeo Hq Hn. unfold predict_location.
  cbn [falsy_text default from_option id].
  apply String.eqb_neq in Ht. rewrite Ht, Hext.
  cbn [falsy_text default from_option id].
  apply String.eqb_neq in Hloc. rewrite Hloc, Hgeo, Hq, Hn. reflexivity.
Qed.

(** [predict_location] stops before the event is built, with the database
    as it was, or reaches the commit. *)
Lemma predict_location_cases tweet db :
  (snd (predict tweet db) = db
   /\ forall location latitude longitude disaster_type severity nearby_hubs
             text event_id,
       fst (predict tweet db)
       <> Predicted location latitude longitude disaster_type severity
            nearby_hubs text event_id)
  \/ exists text location latitude longitude all_hubs nearby_hubs,
      tweet = Some text /\ text <> ""
      /\ extract_location_from_tweet nlp text = Ok (Some location)
      /\ location <> ""
      /\ geocode_location geocode (Some location) = Some (latitude, longitude)
      /\ query_hubs db = Ok all_hubs
      /\ find_nearby_hubs geodesic_km (latitude, longitude)
           (map hub_to_dict all_hubs) 100 = Ok nearby_hubs.
Proof.
  unfold predict_location.
  destruct tweet as [t|]; cbn [falsy_text default from_option id];
    [| left; split; [reflexivity | discriminate]].
  destruct (String.eqb t "") eqn:Ht;
    [left; split; [reflexivity | discriminate] |].
  destruct (extract_location_from_tweet nlp t) as [[loc|]|e] eqn:Hext;
    cbn [falsy_text default from_option id];
    [| left; split; [reflexivity | discriminate]
     | left; split; [reflexivity | discriminate]].
  destruct (String.eqb loc "") eqn:Hloc;
    [left; split; [reflexivity | discriminate] |].
  destruct (geocode_location geocode (Some loc)) as [[lat lon]|] eqn:Hgeo;
    [| left; split; [reflexivity | discriminate]].
  destruct (query_hubs db) as [all_hubs|e] eqn:Hq;
    [| left; split; [reflexivity | discriminate]].
  destruct (find_nearby_hubs geodesic_km (lat, lon) (map hub_to_dict all_hubs) 100)
    as [nearby|e] eqn:Hn; [| left; split; [reflexivity | discriminate]].
  right. exists t, loc, lat, lon, all_hubs, nearby.
  split; [reflexivity |].
  split; [intros ->; discriminate Ht |].
  split; [first [exact Hext | reflexivity] |].
  split; [intros ->; discriminate Hloc |].
  split; [first [exact Hgeo | reflexivity] |].
  split; first [assumption | reflexivity].
Qed.

(** The successful run of [predict_location], statement by statement. *)
Lemma predict_location_predicted tweet db location latitude longitude
    disaster_type severity nearby_hubs text event_id db' :
  predict tweet db
  = (Predicted location latitude longitude disaster_type severity
       nearby_hubs text event_id, db') ->
  tweet = Some text /\ text <> ""
  /\ extract_location_from_tweet nlp text = Ok (Some location)
  /\ geocode_location geocode (Some location) = Some (latitude, longitude)
  /\ disaster_type = classify_disaster_type lower text
  /\ severity = assess_severity lower text
  /\ exists all_hubs,
      query_hubs db = Ok all_hubs
      /\ find_nearby_hubs geodesic_km (latitude, longitude)
           (map hub_to_dict all_hubs) 100 = Ok nearby_hubs
      /\ commit_event db
           (event_of text location latitude longitude nearby_hubs) = Ok db'
      /\ refresh_event db'
           (event_of text location latitude longitude nearby_hubs) = Ok event_id
      /\ close_session db' = Ok tt.
Proof.
  intros Hp.
  destruct (predict_location_cases tweet db)
    as [[_ Hnot] | (t & loc & lat & lon & all_hubs & nearby & -> & Ht & Hext
                    & Hloc & Hgeo & Hq & Hn)].
  { exfalso. eapply Hnot. rewrite Hp. reflexivity. }
  rewrite (predict_location_reaches_commit _ _ _ _ _ _ _ Ht Hext Hloc Hgeo Hq Hn)
    in Hp.
  destruct (commit_event db _) as [db1|e] eqn:Hc; [| discriminate].
  destruct (refresh_event db1 _) as [event_id'|e] eqn:Hr; [| discriminate].
  destruct (close_session db1) as [[]|e] eqn:Hcl; [| discriminate].
  injection Hp as <- <- <- <- <- <- <- <- <-.
  split; [reflexivity |]. split; [exact Ht |]. split; [exact Hext |].
  split; [exact Hgeo |]. split; [reflexivity |]. split; [reflexivity |].
  exists all_hubs. split; [exact Hq |]. split; [exact Hn |].
  split; [exact Hc |]. split; [exact Hr | exact Hcl].
Qed.

(** X21.  [predict_location] changes the database by one commit at most,
    the commit of the event it builds for the tweet, which holds the
    tweet, the disaster type and severity computed for it and the number of
    hubs found.  A prediction is answered only after that commit.  The
    event is stored exactly when the commit succeeds, also when the answer
    is then 500 because the refresh or the close raises; with every other
    response the database is as it was.  A missing or empty tweet, and
    nothing else, is answered with 400. *)
Theorem predict_location_stores_event_iff_committed
    (tweet : option string) (db : DB) :
  (forall location latitude longitude disaster_type severity nearby_hubs
          text event_id,
      fst (predict tweet db)
      = Predicted location latitude longitude disaster_type severity
          nearby_hubs text event_id ->
      tweet = Some text
      /\ disaster_type = classify_disaster_type lower text
      /\ severity = assess_severity lower text
      /\ commit_event db
           (event_of text location latitude longitude nearby_hubs)
         = Ok (snd (predict tweet db)))
  /\ (snd (predict tweet db) = db
      \/ exists text location latitude longitude (nearby_hubs : list hub),
          tweet = Some text
          /\ commit_event db
               (event_of text location latitude longitude nearby_hubs)
             = Ok (snd (predict tweet db)))
  /\ (forall text location latitude longitude all_hubs nearby_hubs db' e,
        tweet = Some text -> text <> "" ->
        extract_location_from_tweet nlp text = Ok (Some location) ->
        location <> "" ->
        geocode_location geocode (Some location) = Some (latitude, longitude) ->
        query_hubs db = Ok all_hubs ->
        find_nearby_hubs geodesic_km (latitude, longitude)
          (map hub_to_dict all_hubs) 100 = Ok nearby_hubs ->
        commit_event db
          (event_of text location latitude longitude nearby_hubs) = Ok db' ->
        refresh_event db'
          (event_of text location latitude longitude nearby_hubs) = Raise e
        \/ (exists event_id,
              refresh_event db'
                (event_of text location latitude longitude nearby_hubs)
              = Ok event_id)
           /\ close_session db' = Raise e ->
        predict tweet db = (PredictFailed e, db'))
  /\ (forall text location latitude longitude all_hubs nearby_hubs e,
        tweet = Some text -> text <> "" ->
        extract_location_from_tweet nlp text = Ok (Some location) ->
        location <> "" ->
        geocode_location geocode (Some location) = Some (latitude, longitude) ->
        query_hubs db = Ok all_hubs ->
        find_nearby_hubs geodesic_km (latitude, longitude)
          (map hub_to_dict all_hubs) 100 = Ok nearby_hubs ->
        commit_event db
          (event_of text location latitude longitude nearby_hubs) = Raise e ->
        predict tweet db = (PredictFailed e, db))
  /\ (predict_status (fst (predict tweet db)) = 400
      <-> tweet = None \/ tweet = Some "").
Proof.
  split; [| split; [| split; [| split]]].
  - intros location latitude longitude disaster_type severity nearby_hubs
      text event_id Hr.
    destruct (predict tweet db) as [r db'] eqn:Hp. cbn [fst snd] in *. subst r.
    destruct (predict_location_predicted _ _ _ _ _ _ _ _ _ _ _ Hp)
      as (Ht & _ & _ & _ & Hty & Hsev & all_hubs & _ & _ & Hc & _).
    split; [exact Ht |]. split; [exact Hty |]. split; [exact Hsev | exact Hc].
  - destruct (predict_location_cases tweet db)
      as [[Hdb _] | (t & loc & lat & lon & all_hubs & nearby & -> & Ht & Hext
                     & Hloc & Hgeo & Hq & Hn)]; [left; exact Hdb |].
    rewrite (predict_location_reaches_commit _ _ _ _ _ _ _ Ht Hext Hloc Hgeo Hq Hn).
    destruct (commit_event db _) as [db1|e] eqn:Hc; [| left; reflexivity].
    right. exists t, loc, lat, lon, nearby. split; [reflexivity |].
    rewrite Hc.
    destruct (refresh_event db1 _) as [event_id|e]; [| reflexivity].
    destruct (close_session db1) as [[]|e]; reflexivity.
  - intros text location latitude longitude all_hubs nearby_hubs db' e
      -> Ht Hext Hloc Hgeo Hq Hn Hc Hfail.
    rewrite (predict_location_reaches_commit _ _ _ _ _ _ _ Ht Hext Hloc Hgeo Hq Hn).
    rewrite Hc.
    destruct Hfail as [Hr | [[event_id Hr] Hcl]]; rewrite Hr; [reflexivity |].
    rewrite Hcl. reflexivity.
  - intros text location latitude longitude all_hubs nearby_hubs e
      -> Ht Hext Hloc Hgeo Hq Hn Hc.
    rewrite (predict_location_reaches_commit _ _ _ _ _ _ _ Ht Hext Hloc Hgeo Hq Hn).
    rewrite Hc. reflexivity.
  - unfold predict_location.
    destruct tweet as [t|]; cbn [falsy_text default from_option id];
      [| simpl; tauto].
    destruct (String.eqb t "") eqn:Ht.
    { apply String.eqb_eq in Ht as ->. simpl. split; [right |]; reflexivity. }
    assert (Hno : ~ (Some t = None \/ Some t = Some "")).
    { intros [H | [= ->]]; [discriminate | discriminate Ht]. }
    assert (Hany : forall r : predict_response,
               r <> TweetRequired -> predict_status r = 400 -> False).
    { intros [] Hr; simpl; try discriminate. contradiction. }
    split; [| intros H; contradiction].
    intros H. exfalso. revert H. apply Hany.
    destruct (extract_location_from_tweet nlp t) as [[loc|]|e];
      cbn [falsy_text default from_option id]; try discriminate.
    destruct (String.eqb loc ""); [discriminate |].
    destruct (geocode_location geocode (Some loc)) as [[lat lon]|];
      [| discriminate].
    destruct (query_hubs db) as [all_hubs|e]; [| discriminate].
    destruct (find_nearby_hubs _ _ _ _) as [nearby|e]; [| discriminate].
    destruct (commit_event db _) as [db1|e]; [| discriminate].
    destruct (refresh_event db1 _) as [event_id|e]; [| discriminate].
    destruct (close_session db1) as [[]|e]; discriminate.
Qed.

(** X22.  The hubs listed in a prediction are the hub rows at most 100 km
    from the geocoded point, nearest first by the rounded distance; each
    record has the [id] of its row and a [distance_km] of at most 100; the
    list has one record per such row. *)
Theorem predict_location_lists_hubs_within_100_km
    (tweet : option string) (db : DB)
    (location : string) (latitude longitude : Q)
    (disaster_type severity : string) (nearby_hubs : list hub)
    (text : string) (event_id : Z) :
  fst (predict tweet db)
  = Predicted location latitude longitude disaster_type severity
      nearby_hubs text event_id ->
  exists all_hubs,
    query_hubs db = Ok all_hubs
    /\ length nearby_hubs
       = length (List.filter
                   (row_within geodesic_km (latitude, longitude) 100) all_hubs)
    /\ StronglySorted
         (fun a b => (float_field "distance_km" a <= float_field "distance_km" b)%Q)
         nearby_hubs
    /\ List.Forall
         (fun o => exists r,
              In r all_hubs
              /\ o !! "id" = Some (VInt (hub_id r))
              /\ (row_distance geodesic_km (latitude, longitude) r <= 100)%Q
              /\ (float_field "distance_km" o <= 100)%Q)
         nearby_hubs.
Proof.
  intros Hr.
  destruct (predict tweet db) as [r db'] eqn:Hp. simpl in Hr. subst r.
  destruct (predict_location_predicted _ _ _ _ _ _ _ _ _ _ _ Hp)
    as (_ & _ & _ & _ & _ & _ & all_hubs & Hq & Hn & _).
  exists all_hubs. split; [exact Hq |].
  destruct (nearby_rows geodesic_km (latitude, longitude) 100 all_hubs)
    as (out & Hout & Hlen & Hsorted & Hall).
  rewrite Hout in Hn. injection Hn as <-.
  split; [exact Hlen |]. split; [exact Hsorted |].
  eapply List.Forall_impl; [| exact Hall].
  intros o (r & Hin & Hid & Hle & Hd).
  exists r. repeat split; try assumption.
  unfold float_field. rewrite Hd. apply py_round_le_100, Hle.
Qed.

(** The coordinates are replaced when one of them is missing or zero. *)
Lemma resolve_coordinates_not_geocoded data :
  geocode_location geocode (vp_location_name data) = None ->
  resolve_coordinates geocode data = (vp_latitude data, vp_longitude data).
Proof.
  intros Hg. unfold resolve_coordinates. rewrite Hg.
  destruct (falsy (vp_latitude data) || falsy (vp_longitude data)); reflexivity.
Qed.

(** X23.  A coordinate that is 0 counts as missing: a request with latitude
    or longitude missing or 0 whose location name is not geocoded is stored
    and answered without a matched hub, whatever the hubs are; the stored
    request has [None] for that coordinate. *)
Theorem victim_request_zero_coordinate_not_matched
    (data : victim_post) (db : DB) :
  falsy (vp_latitude data) = true \/ falsy (vp_longitude data) = true ->
  geocode_location geocode (vp_location_name data) = None ->
  victim_post_handler data db
  = match commit_request db (victim_request_of geocode data) with
    | Raise e => (VictimFailed e, db)
    | Ok db' =>
        match refresh_request db' (victim_request_of geocode data) with
        | Raise e => (VictimFailed e, db')
        | Ok stored => (Created stored None, db')
        end
    end
  /\ (falsy (vp_latitude data) = true ->
      ra_latitude (victim_request_of geocode data) = None)
  /\ (falsy (vp_longitude data) = true ->
      ra_longitude (victim_request_of geocode data) = None).
Proof.
  intros Hfalsy Hgeo.
  unfold manage_victim_requests_post, victim_request_of.
  rewrite (resolve_coordinates_not_geocoded _ Hgeo).
  split; [| split].
  - destruct (commit_request db _) as [db'|e]; [| reflexivity].
    destruct (refresh_request db' _) as [stored|e]; [| reflexivity].
    destruct Hfalsy as [-> | ->]; cbn [negb andb];
      [reflexivity |].
    destruct (negb (falsy (vp_latitude data))); reflexivity.
  - intros Hl. cbn [ra_latitude]. unfold float_or_none. rewrite Hl. reflexivity.
  - intros Hl. cbn [ra_longitude]. unfold float_or_none. rewrite Hl. reflexivity.
Qed.

(** X24.  The request is committed before it is refreshed and before the
    hubs are read: once the commit has succeeded the database holds the
    request whatever the response, and the response is 500, with the
    request stored, when the refresh raises, when reading the hubs raises
    and when scoring them raises. *)
Theorem victim_request_committed_before_matching
    (data : victim_post) (db db' : DB) :
  commit_request db (victim_request_of geocode data) = Ok db' ->
  snd (victim_post_handler data db) = db'
  /\ (forall e,
        refresh_request db' (victim_request_of geocode data) = Raise e ->
        victim_post_handler data db = (VictimFailed e, db'))
  /\ (forall stored lat lon,
        refresh_request db' (victim_request_of geocode data) = Ok stored ->
        resolve_coordinates geocode data = (Some lat, Some lon) ->
        falsy (Some lat) = false -> falsy (Some lon) = false ->
        (forall e,
            query_hubs db' = Raise e ->
            victim_post_handler data db = (VictimFailed e, db'))
        /\ (forall all_hubs e,
              query_hubs db' = Ok all_hubs ->
              find_best_hub_for_request geodesic_km (lat, lon)
                (default ∅ (vp_requested_items data)) (map hub_to_dict all_hubs)
              = Raise e ->
              victim_post_handler data db = (VictimFailed e, db'))).
Proof.
  intros Hadd. unfold manage_victim_requests_post. split; [| split].
  - destruct (resolve_coordinates geocode data) as [latitude longitude].
    rewrite Hadd.
    destruct (refresh_request db' _) as [stored|e]; [| reflexivity].
    destruct (negb (falsy latitude) && negb (falsy longitude)); [| reflexivity].
    destruct latitude as [lat|], longitude as [lon|]; try reflexivity.
    destruct (query_hubs db') as [all_hubs|e]; [| reflexivity].
    destruct (find_best_hub_for_request _ _ _ _) as [best|e]; reflexivity.
  - intros e Hr.
    destruct (resolve_coordinates geocode data) as [latitude longitude].
    rewrite Hadd, Hr. reflexivity.
  - intros stored lat lon Hr Hres Hlat Hlon.
    rewrite Hres, Hadd, Hr, Hlat, Hlon. cbn [negb andb]. split.
    + intros e Hq. rewrite Hq. reflexivity.
    + intros all_hubs e Hq Hbest. rewrite Hq, Hbest. reflexivity.
Qed.

(** X25.  A hub matched to a request is a row of the hub table at most
    100 km from the request's coordinates, which are both non-zero, and for
    a request of non-negative quantities it stocks an item requested. *)
Theorem victim_request_matched_hub
    (data : victim_post) (db : DB) (stored : row) (best : hub) :
  nonneg (default ∅ (vp_requested_items data)) ->
  fst (victim_post_handler data db) = Created stored (Some best) ->
  exists lat lon db' all_hubs r available item q stock,
    resolve_coordinates geocode data = (Some lat, Some lon)
    /\ ~ (lat == 0)%Q /\ ~ (lon == 0)%Q
    /\ commit_request db (victim_request_of geocode data) = Ok db'
    /\ refresh_request db' (victim_request_of geocode data) = Ok stored
    /\ query_hubs db' = Ok all_hubs
    /\ In r all_hubs
    /\ best !! "id" = Some (VInt (hub_id r))
    /\ (row_distance geodesic_km (lat, lon) r <= 100)%Q
    /\ hub_inventory r = Some available
    /\ default ∅ (vp_requested_items data) !! item = Some q
    /\ available !! item = Some stock /\ 0 < q /\ 0 < stock.
Proof.
  intros Hreq. unfold manage_victim_requests_post.
  destruct (resolve_coordinates geocode data) as [latitude longitude] eqn:Hres.
  destruct (commit_request db _) as [db'|e] eqn:Hadd; [| discriminate].
  destruct (refresh_request db' _) as [stored'|e] eqn:Href; [| discriminate].
  destruct (negb (falsy latitude)) eqn:Hlat; [| discriminate].
  destruct (negb (falsy longitude)) eqn:Hlon; [| discriminate].
  cbn [andb].
  destruct latitude as [lat|], longitude as [lon|]; try discriminate.
  destruct (query_hubs db') as [all_hubs|e] eqn:Hq; [| discriminate].
  destruct (find_best_hub_for_request _ _ _ _) as [best'|e] eqn:Hbest;
    [| discriminate].
  cbn [fst]. intros [= <- ->].
  destruct (best_hub_from_entries _ _ _ _ _ Hbest)
    as (h & d & m & c & Hin & Hk & ->).
  apply in_map_iff in Hin as (r & <- & Hr).
  destruct Hk as (available & ds & Hd & Hnear & Hinv & Hm & Hnz & _).
  rewrite hub_distance_to_dict in Hd. injection Hd as <-.
  rewrite get_inventory_to_dict in Hinv. injection Hinv as <-.
  destruct (nonzero_score_item _ _ _ Hreq Hm Hnz)
    as (item & q & stock & Hq' & Hst & Hqp & Hsp).
  assert (Hav : hub_inventory r = Some (default ∅ (hub_inventory r))).
  { destruct (hub_inventory r); [reflexivity |].
    simpl in Hst. rewrite lookup_empty in Hst. discriminate. }
  exists lat, lon, db', all_hubs, r, (default ∅ (hub_inventory r)), item, q, stock.
  split; [reflexivity |].
  split; [apply negb_true_iff in Hlat; apply Qeq_bool_neq, Hlat |].
  split; [apply negb_true_iff in Hlon; apply Qeq_bool_neq, Hlon |].
  split; [first [exact Hadd | reflexivity] |].
  split; [first [exact Href | reflexivity] |].
  split; [exact Hq |]. split; [exact Hr |].
  split; [rewrite scored_other by discriminate; apply id_to_dict |].
  repeat split; assumption.
Qed.

End HandlerResults.

(** *** The hub table and the handlers on a database in memory *)

Lemma find_nearby_hubs_on_hub_rows_witness :
  exists out,
    find_nearby_hubs grid_km (0, 1 # 10)%Q (map hub_to_dict [row_far; row_a]) 100
    = Ok out
    /\ length out
       = length (List.filter (row_within grid_km (0, 1 # 10)%Q 100)
                   [row_far; row_a])
    /\ List.Forall
         (fun o => exists r,
              In r [row_far; row_a]
              /\ valid_latitude (hub_latitude r)
              /\ o !! "id" = Some (VInt (hub_id r))
              /\ (row_distance grid_km (0, 1 # 10)%Q r <= 100)%Q
              /\ o !! "distance_km"
                 = Some (VFloat (py_round (row_distance grid_km (0, 1 # 10)%Q r) 2)))
         out.
Proof.
  apply (find_nearby_hubs_on_hub_rows grid_km (0, 1 # 10)%Q 100 [row_far; row_a]).
  - unfold valid_latitude. cbn [fst]. lra.
  - repeat constructor; discriminate.
Defined.

Abbreviation memory_predict :=
  (predict_location memory_db memory_query_hubs memory_commit_event
     memory_refresh_event memory_close_session
     sample_nlp sample_geocode grid_km ascii_lower).
Abbreviation memory_victim_post :=
  (manage_victim_requests_post memory_db request_args memory_query_hubs
     memory_commit_request memory_refresh_request sample_geocode grid_km).

(** The record listed for [row_a], 11.13 km from the geocoded point. *)
Lemma predict_tokyo :
  fst (memory_predict (Some tweet_tokyo) sample_db)
  = Predicted "Tokyo" 0 (1 # 10) "earthquake" "low"
      [<["distance_km" := VFloat (1113 # 100)]> (hub_to_dict row_a)]
      tweet_tokyo 1.
Proof. by_evaluation. Qed.

Lemma predict_location_lists_hubs_within_100_km_witness :
  exists all_hubs,
    memory_query_hubs sample_db = Ok all_hubs
    /\ length [<["distance_km" := VFloat (1113 # 100)]> (hub_to_dict row_a)]
       = length (List.filter (row_within grid_km (0, 1 # 10)%Q 100) all_hubs)
    /\ StronglySorted
         (fun a b => (float_field "distance_km" a <= float_field "distance_km" b)%Q)
         [<["distance_km" := VFloat (1113 # 100)]> (hub_to_dict row_a)]
    /\ List.Forall
         (fun o => exists r,
              In r all_hubs
              /\ o !! "id" = Some (VInt (hub_id r))
              /\ (row_distance grid_km (0, 1 # 10)%Q r <= 100)%Q
              /\ (float_field "distance_km" o <= 100)%Q)
         [<["distance_km" := VFloat (1113 # 100)]> (hub_to_dict row_a)].
Proof.
  apply (predict_location_lists_hubs_within_100_km
           memory_db memory_query_hubs memory_commit_event memory_refresh_event
           memory_close_session sample_nlp sample_geocode grid_km ascii_lower
           (Some tweet_tokyo) sample_db "Tokyo" 0 (1 # 10) "earthquake" "low"
           _ tweet_tokyo 1).
  apply (bool_decide_unpack _). vm_compute. exact I.
Defined.

Lemma victim_request_zero_coordinate_not_matched_witness :
  memory_victim_post post_equator sample_db
  = match memory_commit_request sample_db
            (victim_request_of sample_geocode post_equator) with
    | Raise e => (VictimFailed e, sample_db)
    | Ok db' =>
        match memory_refresh_request db'
                (victim_request_of sample_geocode post_equator) with
        | Raise e => (VictimFailed e, db')
        | Ok stored => (Created stored None, db')
        end
    end
  /\ (falsy (vp_latitude post_equator) = true ->
      ra_latitude (victim_request_of sample_geocode post_equator) = None)
  /\ (falsy (vp_longitude post_equator) = true ->
      ra_longitude (victim_request_of sample_geocode post_equator) = None).
Proof.
  apply (victim_request_zero_coordinate_not_matched
           memory_db request_args memory_query_hubs memory_commit_request
           memory_refresh_request sample_geocode grid_km post_equator sample_db).
  - left. reflexivity.
  - reflexivity.
Defined.

Lemma victim_request_committed_before_matching_witness :
  snd (memory_victim_post post_zero sample_db)
  = {| db_hubs := [row_far; row_a]; db_events := [];
       db_requests := [victim_request_of sample_geocode post_zero] |}
  /\ memory_victim_post post_zero sample_db
     = (VictimFailed ZeroDivisionError,
        {| db_hubs := [row_far; row_a]; db_events := [];
           db_requests := [victim_request_of sample_geocode post_zero] |}).
Proof.
  destruct (victim_request_committed_before_matching
              memory_db request_args memory_query_hubs memory_commit_request
              memory_refresh_request sample_geocode grid_km post_zero sample_db
              {| db_hubs := [row_far; row_a]; db_events := [];
                 db_requests := [victim_request_of sample_geocode post_zero] |}
              eq_refl)
    as (Hdb & _ & H500).
  split; [exact Hdb |].
  apply (proj2 (H500 (victim_request_of sample_geocode post_zero)
                  (1 # 10)%Q (1 # 10)%Q eq_refl eq_refl eq_refl eq_refl)
           [row_far; row_a] ZeroDivisionError).
  - reflexivity.
  - apply (bool_decide_unpack _). vm_compute. exact I.
Defined.

Lemma victim_request_matched_hub_witness :
  exists lat lon db' all_hubs r available item q stock,
    resolve_coordinates sample_geocode post_water = (Some lat, Some lon)
    /\ ~ (lat == 0)%Q /\ ~ (lon == 0)%Q
    /\ memory_commit_request sample_db
         (victim_request_of sample_geocode post_water) = Ok db'
    /\ memory_refresh_request db' (victim_request_of sample_geocode post_water)
       = Ok (victim_request_of sample_geocode post_water)
    /\ memory_query_hubs db' = Ok all_hubs
    /\ In r all_hubs
    /\ scored (hub_to_dict row_a) (2226 # 100) 100 (713 # 10) !! "id"
       = Some (VInt (hub_id r))
    /\ (row_distance grid_km (lat, lon) r <= 100)%Q
    /\ hub_inventory r = Some available
    /\ default ∅ (vp_requested_items post_water) !! item = Some q
    /\ available !! item = Some stock /\ 0 < q /\ 0 < stock.
Proof.
  apply (victim_request_matched_hub
           memory_db request_args memory_query_hubs memory_commit_request
           memory_refresh_request sample_geocode grid_km post_water sample_db
           (victim_request_of sample_geocode post_water)
           (scored (hub_to_dict row_a) (2226 # 100) 100 (713 # 10))).
  - apply nonneg_singleton. lia.
  - apply (bool_decide_unpack _). vm_compute. exact I.
Defined.
